(** * Snake: the game-state simulation of DenisKhanov/Snake

    A shallow embedding of package [game] (src/game/geometry.go, the
    snake type that follows it in the same file, and src/game/game.go)
    and of the earlier copy of the game, package [modules]
    (src/modules), together with the properties of the movement model,
    of the self-bite, of food placement, of scoring and of restart.

    Representation choices, all of them for the whole file:

    - [Point] coordinates are [float64] in the source.  Every coordinate
      the program computes is the image of an integer: it comes from
      [float64(x + i)], from [float64(rand.Intn(cellsCount))], or from
      adding or subtracting [1] to such a value, and the head stops
      moving once it is one step outside the grid
      ([run_grid_invariant], [prospective_head_range]).  On these
      integers [float64] addition and comparison are exact
      ([float64_exact_on_grid], [Exec_on_float64]), so the model takes
      the coordinates in [Z]; properties of the arithmetic of [Exec]
      are stated of cells of the grid, since from [2^53] on [float64]
      no longer adds [1] exactly.
    - [int] is the 64-bit signed integer of the platforms the program
      is built for (linux and windows, amd64); its wrap-around is
      written out in [GoInt].
    - a slice is a [list]; an index out of range and an integer
      division by zero are the run-time panics of Go and are results of
      the model, not exceptions of it.
    - [rand.Intn] is an oracle: the caller supplies the successive
      draws, and a sampling loop that used all of them without
      accepting one is [Blocked].
    - the timer loop and the key handler run in two goroutines, and
      package [game] takes no lock.  A round of the loop and a call of
      the handler are the steps of [step] and [run]; this is what the
      program does as long as no call of the handler falls inside a
      round.  The properties of the program are therefore stated of
      one round, of one call of the handler, of rounds alone and of
      particular runs; [restarting] is the state in which a round finds
      the game when it falls inside a restart. *)

From Stdlib Require Import ZArith Lia String.
From Stdlib Require Floats.PrimFloat Numbers.Cyclic.Int63.Uint63.
From stdpp Require Import base option list.

#[local] Open Scope Z_scope.

(** ** Outcomes of running a piece of the program *)

Inductive runtime_error : Type :=
  | IndexOutOfRange
  | IntegerDivideByZero.

Inductive result (A : Type) : Type :=
  | Ok (a : A)
  | Panic (e : runtime_error)
  | Blocked
  | Exit (code : Z).

Arguments Ok {A} a.
Arguments Panic {A} e.
Arguments Blocked {A}.
Arguments Exit {A} code.

#[global] Instance result_ret : MRet result := fun A a => Ok a.

#[global] Instance result_bind : MBind result := fun A B k m =>
  match m with
  | Ok a => k a
  | Panic e => Panic e
  | Blocked => Blocked
  | Exit c => Exit c
  end.

Definition returns {A : Type} (m : result A) : Prop := exists a, m = Ok a.

#[global] Instance runtime_error_eq_dec : EqDecision runtime_error.
Proof. solve_decision. Defined.

#[global] Instance result_eq_dec {A : Type} `{EqDecision A} : EqDecision (result A).
Proof. solve_decision. Defined.

(** ** Go's [int] *)

Module GoInt.

Definition min_int : Z := - 2 ^ 63.
Definition max_int : Z := 2 ^ 63 - 1.

Definition in_range (z : Z) : Prop := min_int <= z <= max_int.

(** Two's-complement reduction of an exact result to 64 bits. *)
Definition wrap (z : Z) : Z := (z + 2 ^ 63) mod 2 ^ 64 - 2 ^ 63.

Definition add (a b : Z) : Z := wrap (a + b).
Definition sub (a b : Z) : Z := wrap (a - b).
Definition mul (a b : Z) : Z := wrap (a * b).

(** [a / b]: truncated towards zero, a run-time panic when [b] is 0. *)
Definition div (a b : Z) : result Z :=
  if b =? 0 then Panic IntegerDivideByZero else Ok (wrap (a ÷ b)).

(** [len(s)] as an [int]. *)
Definition len {A : Type} (l : list A) : Z := Z.of_nat (length l).

End GoInt.

(** ** [float64] on the coordinates of the game

    The operations the program applies to coordinates, on the binary64
    numbers of the kernel; lemma [float64_exact_on_grid] compares them
    with the integer operations of the model over the range in which
    the coordinates of the game stay (lemma [run_grid_invariant]). *)

Module Float64.

(** [float64(z)] for an [int] [z]. *)
Definition of_int (z : Z) : PrimFloat.float :=
  if z <? 0 then PrimFloat.opp (PrimFloat.of_uint63 (Uint63.of_Z (- z)))
  else PrimFloat.of_uint63 (Uint63.of_Z z).

(** The integers [lo], [lo + 1], ..., [lo + n - 1]. *)
Definition zrange (lo : Z) (n : nat) : list Z :=
  map (fun k => lo + Z.of_nat k) (seq 0 n).

(** At [z], adding and subtracting [1] in [float64] is exact, and
    [==], [<] and [<=] against every [w] of the range are those of the
    integers. *)
Definition exact_at (lo : Z) (n : nat) (z : Z) : bool :=
  PrimFloat.eqb (PrimFloat.add (of_int z) (of_int 1)) (of_int (z + 1)) &&
  PrimFloat.eqb (PrimFloat.sub (of_int z) (of_int 1)) (of_int (z - 1)) &&
  forallb (fun w =>
             Bool.eqb (PrimFloat.eqb (of_int z) (of_int w)) (z =? w) &&
             Bool.eqb (PrimFloat.ltb (of_int z) (of_int w)) (z <? w) &&
             Bool.eqb (PrimFloat.leb (of_int w) (of_int z)) (w <=? z))
          (zrange lo n).

End Float64.

(** ** Package [game] *)

Module game.

(** *** geometry.go *)

Definition cellsCount : Z := 20.
Definition startSpeed : Z := 300.

Record Point : Type := mkPoint { X : Z; Y : Z }.

#[global] Instance Point_eq_dec : EqDecision Point.
Proof. solve_decision. Defined.

Definition Point_eqb (p q : Point) : bool := bool_decide (p = q).

Definition IsCorner (p : Point) : bool :=
  (X p =? 0) && (Y p =? 0) || (X p =? 0) && (Y p =? cellsCount - 1) ||
  (X p =? cellsCount - 1) && (Y p =? 0) ||
  (X p =? cellsCount - 1) && (Y p =? cellsCount - 1).

Definition IsEdge (p : Point) : bool :=
  (X p =? 0) || (Y p =? 0) || (X p =? cellsCount - 1) || (Y p =? cellsCount - 1).

(** [type Dir int]: any [int] is a value of the type; the four named
    directions are the constants of the [iota] block. *)
Definition Dir : Type := Z.

Definition up : Dir := 0.
Definition right : Dir := 1.
Definition down : Dir := 2.
Definition left : Dir := 3.

Definition Exec (d : Dir) (point : Point) : Point :=
  if d =? up then mkPoint (X point) (Y point + 1)
  else if d =? down then mkPoint (X point) (Y point - 1)
  else if d =? left then mkPoint (X point - 1) (Y point)
  else if d =? right then mkPoint (X point + 1) (Y point)
  else point.

Definition FromKey (d : Dir) (ceyKode : Z) : Dir :=
  if ceyKode =? 80 then left
  else if ceyKode =? 82 then down
  else if ceyKode =? 79 then right
  else if ceyKode =? 81 then up
  else right.

Definition CheckParallel (d newDir : Dir) : bool :=
  if d =? up then newDir =? down
  else if d =? right then newDir =? left
  else if d =? down then newDir =? up
  else if d =? left then newDir =? right
  else false.

(** *** the snake *)

Record Snake : Type := mkSnake {
  Direction : Dir;
  Parts : list Point;
  Size : Z
}.

Definition NewSnake : Snake := mkSnake 0 [] 0.

Definition set_Direction (d : Dir) (s : Snake) : Snake :=
  mkSnake d (Parts s) (Size s).
Definition set_Parts (ps : list Point) (s : Snake) : Snake :=
  mkSnake (Direction s) ps (Size s).
Definition set_Size (n : Z) (s : Snake) : Snake :=
  mkSnake (Direction s) (Parts s) n.

Definition Len (s : Snake) : Z := GoInt.len (Parts s).

(** [s.Parts = append([]Point{point}, s.Parts...)] *)
Definition Add (s : Snake) (point : Point) : Snake :=
  set_Parts ([point] ++ Parts s) s.

(** [slices.Contains(s.Parts, point)] *)
Definition IsSnake (s : Snake) (point : Point) : bool :=
  existsb (Point_eqb point) (Parts s).

(** The scan of [CutIfSnake]: [rest] is [s.Parts[i:]]; the result is
    the index at which the loop returns [true], if it does. *)
Fixpoint CutIfSnake_scan (point : Point) (i : nat) (rest : list Point) : option nat :=
  match rest with
  | [] => None
  | part :: rest' =>
      if Point_eqb part point then Some i
      else CutIfSnake_scan point (S i) rest'
  end.

Definition CutIfSnake (s : Snake) (point : Point) : Snake * bool :=
  match CutIfSnake_scan point 0 (Parts s) with
  | Some i => (set_Parts (take i (Parts s)) s, true)
  | None => (s, false)
  end.

Definition Head (s : Snake) : Point :=
  if GoInt.len (Parts s) =? 0 then mkPoint (-1) (-1)
  else default (mkPoint 0 0) (Parts s !! 0%nat).

Definition Tail (s : Snake) : Point :=
  if GoInt.len (Parts s) =? 0 then mkPoint (-1) (-1)
  else default (mkPoint 0 0) (Parts s !! (length (Parts s) - 1)%nat).

(** The loop of [Reset], [for i := length - 1; i >= 0; i--]: the
    counter [k] is [i + 1]. *)
Fixpoint Reset_loop (x y : Z) (k : nat) (s : Snake) : Snake :=
  match k with
  | O => s
  | S i =>
      let s1 := set_Parts (Parts s ++ [mkPoint (GoInt.add x (Z.of_nat i)) y]) s in
      let s2 := set_Size (GoInt.add (Size s1) 1) s1 in
      Reset_loop x y i s2
  end.

Definition Reset (s : Snake) : Snake :=
  let s := set_Parts [] s in
  let s := set_Direction right s in
  Reset_loop 1 1 3 s.

(** [s.Parts[i]] for reading, with Go's bounds check. *)
Definition index (ps : list Point) (i : nat) : result Point :=
  match ps !! i with
  | Some p => Ok p
  | None => Panic IndexOutOfRange
  end.

(** The loop of [Move], [for i := range s.Parts[1:]]: [idxs] are the
    values of [i] still to come; each round performs the parallel
    assignment [s.Parts[i+1], lastPoint = lastPoint, s.Parts[i+1]]. *)
Fixpoint Move_loop (idxs : list nat) (ps : list Point) (lastPoint : Point)
  : result (list Point) :=
  match idxs with
  | [] => Ok ps
  | i :: idxs' =>
      old ← index ps (i + 1);
      Move_loop idxs' (<[(i + 1)%nat := lastPoint]> ps) old
  end.

Definition Move (s : Snake) (directional : Dir) : result Snake :=
  lastPoint ← index (Parts s) 0;
  let ps := <[0%nat := Exec directional lastPoint]> (Parts s) in
  ps' ← Move_loop (seq 0 (length (Parts s) - 1)) ps lastPoint;
  Ok (set_Parts ps' s).

(** *** game.go *)

(** The simulation's part of [GameParam] and [Game]; the window, the
    canvas, the fonts and the pixel geometry only serve the drawing
    code. *)
Record GameParam : Type := mkGameParam { speed : Z }.

Record Game : Type := mkGame {
  param : GameParam;
  snake : Snake;
  food : Point;
  score : Z;
  ateFood : Z;
  gameOver : bool;
  needMove : bool;
  needUpdateInfo : bool
}.

Definition set_speed (v : Z) (p : GameParam) : GameParam := mkGameParam v.

Definition set_param (v : GameParam) (g : Game) : Game :=
  mkGame v (snake g) (food g) (score g) (ateFood g) (gameOver g) (needMove g) (needUpdateInfo g).
Definition set_snake (v : Snake) (g : Game) : Game :=
  mkGame (param g) v (food g) (score g) (ateFood g) (gameOver g) (needMove g) (needUpdateInfo g).
Definition set_food (v : Point) (g : Game) : Game :=
  mkGame (param g) (snake g) v (score g) (ateFood g) (gameOver g) (needMove g) (needUpdateInfo g).
Definition set_score (v : Z) (g : Game) : Game :=
  mkGame (param g) (snake g) (food g) v (ateFood g) (gameOver g) (needMove g) (needUpdateInfo g).
Definition set_ateFood (v : Z) (g : Game) : Game :=
  mkGame (param g) (snake g) (food g) (score g) v (gameOver g) (needMove g) (needUpdateInfo g).
Definition set_gameOver (v : bool) (g : Game) : Game :=
  mkGame (param g) (snake g) (food g) (score g) (ateFood g) v (needMove g) (needUpdateInfo g).
Definition set_needMove (v : bool) (g : Game) : Game :=
  mkGame (param g) (snake g) (food g) (score g) (ateFood g) (gameOver g) v (needUpdateInfo g).
Definition set_needUpdateInfo (v : bool) (g : Game) : Game :=
  mkGame (param g) (snake g) (food g) (score g) (ateFood g) (gameOver g) (needMove g) v.

Definition NewGameParam : GameParam := mkGameParam startSpeed.

(** [NewGame] leaves [snake] nil and every counter at its zero value;
    [setSnake] installs the snake before anything reads it. *)
Definition NewGame (param : GameParam) : Game :=
  mkGame param NewSnake (mkPoint 0 0) 0 0 false false false.

Definition setSnake (g : Game) (snake : Snake) : Game := set_snake snake g.

(** One draw is the pair of results of the two calls of
    [rand.Intn(cellsCount)] in one round of the sampling loop. *)
Definition draw : Type := (Z * Z)%type.

Definition draw_ok (d : draw) : Prop :=
  (0 <= d.1 < cellsCount) /\ (0 <= d.2 < cellsCount).

Fixpoint foodGeneration (draws : list draw) (g : Game) : result (Game * list draw) :=
  match draws with
  | [] => Blocked
  | (randX, randY) :: draws' =>
      let newPoint := mkPoint randX randY in
      let check := true in
      let check := if IsSnake (snake g) newPoint then false else check in
      if check then Ok (set_food newPoint g, draws')
      else foodGeneration draws' g
  end.

Definition calculateScore (g : Game) (pos : Point) : result Z :=
  if IsCorner pos then
    q ← GoInt.div 1000 (speed (param g)); Ok (GoInt.mul q 4)
  else if IsEdge pos then
    q ← GoInt.div 1000 (speed (param g)); Ok (GoInt.mul q 2)
  else GoInt.div 1000 (speed (param g)).

Definition collidesWithWall (g : Game) (newPos : Point) : bool :=
  (X newPos <? 0) || (X newPos >=? cellsCount) ||
  (Y newPos <? 0) || (Y newPos >=? cellsCount).

(** One round of the loop of [handleGameLogic], from the timer firing
    to the timer being reset. *)
Definition handleGameLogic_body (draws : list draw) (g : Game)
  : result (Game * list draw) :=
  head ← index (Parts (snake g)) 0;
  let newPos := Exec (Direction (snake g)) head in
  let g := if collidesWithWall g newPos then set_gameOver true g else g in
  g ← (let '(s', cut) := CutIfSnake (snake g) newPos in
       let g := set_snake s' g in
       if cut then
         let newSize := GoInt.len (Parts (snake g)) in
         q ← GoInt.div (score g) (Size (snake g));
         let g := set_score (GoInt.mul q newSize) g in
         let g := set_snake (set_Size newSize (snake g)) g in
         Ok (set_needUpdateInfo true g)
       else Ok g);
  if Point_eqb newPos (food g) then
    let g := set_snake (Add (snake g) newPos) g in
    '(g, draws) ← foodGeneration draws g;
    let g := set_ateFood (GoInt.add (ateFood g) 1) g in
    let g := set_snake (set_Size (GoInt.add (Size (snake g)) 1) (snake g)) g in
    let g := set_param (set_speed (GoInt.sub (speed (param g)) 5) (param g)) g in
    sc ← calculateScore g newPos;
    let g := set_score (GoInt.add (score g) sc) g in
    Ok (set_needUpdateInfo true g, draws)
  else if negb (gameOver g) then
    s' ← Move (snake g) (Direction (snake g));
    Ok (set_needMove true (set_snake s' g), draws)
  else Ok (g, draws).

Definition restartGame (g : Game) : Game :=
  let g := set_snake (Reset (snake g)) g in
  let g := set_score 0 g in
  let g := set_ateFood 0 g in
  let g := set_param (set_speed 300 (param g)) g in
  set_gameOver false g.

(** The [KeyUp] handler installed by [processInput]; the rune argument
    is not used by it. *)
Definition KeyUp (code : Z) (name : string) (g : Game) : result Game :=
  let directionKeys (g : Game) : result Game :=
    if (79 <=? code) && (code <=? 82) && needMove g then
      let newDir := FromKey (Direction (snake g)) code in
      if negb (CheckParallel (Direction (snake g)) newDir) then
        let g := set_snake (set_Direction newDir (snake g)) g in
        Ok (set_needMove false g)
      else Ok g
    else Ok g in
  if gameOver g then
    if String.eqb name "Enter" then
      let g := restartGame g in
      Ok (set_gameOver false g)
    else if String.eqb name "Escape" then Exit 1
    else directionKeys g
  else directionKeys g.

(** [RunGame] up to the point where [run] has placed the first food. *)
Definition RunGame (draws : list draw) : result (Game * list draw) :=
  let snake := NewSnake in
  let snake := Reset snake in
  let gameParam := NewGameParam in
  let game := NewGame gameParam in
  let game := setSnake game snake in
  foodGeneration draws game.

(** What happens to the game after start-up: the timer fires, or a key
    is released. *)
Inductive event : Type :=
  | TimerFired
  | KeyReleased (code : Z) (name : string).

Definition step (e : event) (draws : list draw) (g : Game) : result (Game * list draw) :=
  match e with
  | TimerFired => handleGameLogic_body draws g
  | KeyReleased code name => g' ← KeyUp code name g; Ok (g', draws)
  end.

Fixpoint run (es : list event) (draws : list draw) (g : Game) : result (Game * list draw) :=
  match es with
  | [] => Ok (g, draws)
  | e :: es' => '(g', draws') ← step e draws g; run es' draws' g'
  end.

(** *** The phases of one round

    The four parts of the loop body, named so that each can be
    reasoned about on its own; [handleGameLogic_body] is their
    composition (lemma [handleGameLogic_body_phases]). *)

(** [if g.collidesWithWall(newPos) { g.gameOver = true }] *)
Definition hitWall (g : Game) (newPos : Point) : Game :=
  if collidesWithWall g newPos then set_gameOver true g else g.

(** [if g.snake.CutIfSnake(newPos) { ... }] *)
Definition selfBite (g : Game) (newPos : Point) : result Game :=
  let '(s', cut) := CutIfSnake (snake g) newPos in
  let g := set_snake s' g in
  if cut then
    let newSize := GoInt.len (Parts (snake g)) in
    q ← GoInt.div (score g) (Size (snake g));
    let g := set_score (GoInt.mul q newSize) g in
    let g := set_snake (set_Size newSize (snake g)) g in
    Ok (set_needUpdateInfo true g)
  else Ok g.

(** The branch [newPos == g.food]. *)
Definition eat (draws : list draw) (g : Game) (newPos : Point)
  : result (Game * list draw) :=
  let g := set_snake (Add (snake g) newPos) g in
  '(g, draws) ← foodGeneration draws g;
  let g := set_ateFood (GoInt.add (ateFood g) 1) g in
  let g := set_snake (set_Size (GoInt.add (Size (snake g)) 1) (snake g)) g in
  let g := set_param (set_speed (GoInt.sub (speed (param g)) 5) (param g)) g in
  sc ← calculateScore g newPos;
  let g := set_score (GoInt.add (score g) sc) g in
  Ok (set_needUpdateInfo true g, draws).

(** The branch [else if !g.gameOver], and falling through it. *)
Definition advance (draws : list draw) (g : Game) : result (Game * list draw) :=
  if negb (gameOver g) then
    s' ← Move (snake g) (Direction (snake g));
    Ok (set_needMove true (set_snake s' g), draws)
  else Ok (g, draws).

(** *** Vocabulary of the properties *)

(** The four named directions. *)
Definition valid_dir (d : Dir) : Prop :=
  d = up \/ d = right \/ d = down \/ d = left.

(** A cell of the grid, [[0, cellsCount-1]] on each axis. *)
Definition in_grid (p : Point) : Prop :=
  (0 <= X p <= cellsCount - 1) /\ (0 <= Y p <= cellsCount - 1).

(** [p] occurs in [ps] at index [i] and at no smaller index. *)
Definition first_at (ps : list Point) (p : Point) (i : nat) : Prop :=
  ps !! i = Some p /\ forall j, (j < i)%nat -> ps !! j <> Some p.

(** The value [Head] and [Tail] return for the empty snake. *)
Definition sentinel : Point := mkPoint (-1) (-1).

(** What the loop of [handleGameLogic] relies on when it reads
    [g.snake.Parts[0]] and moves: a body with a head, and one of the
    four named directions. *)
Definition body_invariant (g : Game) : Prop :=
  Parts (snake g) <> [] /\ valid_dir (Direction (snake g)).

(** The cell a draw proposes, [Point{float64(randX), float64(randY)}]. *)
Definition draw_point (d : draw) : Point := mkPoint d.1 d.2.

(** A draw that the sampling loop rejects. *)
Definition on_snake (g : Game) (d : draw) : Prop :=
  draw_point d ∈ Parts (snake g).

#[global] Instance on_snake_dec (g : Game) (d : draw) : Decision (on_snake g d).
Proof. unfold on_snake. apply _. Defined.

(** The weight of a food cell in [calculateScore]. *)
Definition weight (pos : Point) : Z :=
  if IsCorner pos then 4 else if IsEdge pos then 2 else 1.

(** The state of the grid: every cell of the body and the food are
    cells of the grid. *)
Definition grid_invariant (g : Game) : Prop :=
  Forall in_grid (Parts (snake g)) /\ in_grid (food g).

(** *** What the information panel shows

    The number [drawGameInfo] prints after "Your speed:",
    [startSpeed - g.param.speed + 5]. *)
Definition shownSpeed (g : Game) : Z :=
  GoInt.add (GoInt.sub startSpeed (speed (param g))) 5.

(** *** Vocabulary of the properties of runs *)

(** Two cells next to each other on the grid. *)
Definition adjacent (p q : Point) : Prop :=
  Z.abs (X p - X q) + Z.abs (Y p - Y q) = 1.

(** Every cell of a body is next to the cell behind it. *)
Fixpoint connected (ps : list Point) : Prop :=
  match ps with
  | p :: ((q :: _) as ps') => adjacent p q /\ connected ps'
  | _ => True
  end.

(** The shape of the snake between two rounds: a named direction, at
    least two cells, none of them twice, each next to the one behind
    it, a prospective head that is not the second cell, and, while a
    change of direction is still allowed, a direction that is the one
    the head last moved in. *)
Definition shape_invariant (g : Game) : Prop :=
  valid_dir (Direction (snake g)) /\
  NoDup (Parts (snake g)) /\
  connected (Parts (snake g)) /\
  exists h n t,
    Parts (snake g) = h :: n :: t /\
    Exec (Direction (snake g)) h <> n /\
    (needMove g = true -> Exec (Direction (snake g)) n = h).

(** The counters between two rounds, with [B] a bound on the size
    counter: at most 59 foods since the last restart, a speed that is
    5 less for each of them, a size counter that is at least the length
    of the body, and a score of at most 800 for each food. *)
Definition counters_invariant (B : Z) (g : Game) : Prop :=
  (0 <= ateFood g <= 59) /\
  speed (param g) = startSpeed - 5 * ateFood g /\
  (GoInt.len (Parts (snake g)) <= Size (snake g) <= B) /\
  (0 <= score g <= 800 * ateFood g).

(** The food is not under the snake. *)
Definition food_free (g : Game) : Prop := food g ∉ Parts (snake g).

(** The cells of the grid, column by column. *)
Definition grid_cells : list Point :=
  x ← seqZ 0 cellsCount; y ← seqZ 0 cellsCount; [mkPoint x y].

(** *** [Exec] on [float64]

    [Point] and [Exec] with the coordinates as the binary64 numbers
    they are in the source; [to64] is [Point{float64(x), float64(y)}]
    for an integer point of the model. *)
Record Point64 : Type := mkPoint64 { X64 : PrimFloat.float; Y64 : PrimFloat.float }.

Definition Exec64 (d : Dir) (point : Point64) : Point64 :=
  if d =? up then mkPoint64 (X64 point) (PrimFloat.add (Y64 point) (Float64.of_int 1))
  else if d =? down then mkPoint64 (X64 point) (PrimFloat.sub (Y64 point) (Float64.of_int 1))
  else if d =? left then mkPoint64 (PrimFloat.sub (X64 point) (Float64.of_int 1)) (Y64 point)
  else if d =? right then mkPoint64 (PrimFloat.add (X64 point) (Float64.of_int 1)) (Y64 point)
  else point.

Definition to64 (p : Point) : Point64 :=
  mkPoint64 (Float64.of_int (X p)) (Float64.of_int (Y p)).

(** *** The frames of the render loop

    What [drawGameInfo] prints: the score, the number of foods and the
    speed number.  [renderLoop] calls it once before the first frame,
    and then a frame calls it only when [needUpdateInfo] is set, and
    clears the flag; [renderFrame g shown] is that part of a frame,
    [shown] being what the panel shows before it. *)
Record Panel : Type := mkPanel {
  panelScore : Z;
  panelFood : Z;
  panelSpeed : Z
}.

Definition drawGameInfo (g : Game) : Panel :=
  mkPanel (score g) (ateFood g) (shownSpeed g).

Definition renderFrame (g : Game) (shown : Panel) : Game * Panel :=
  if needUpdateInfo g then
    let shown := drawGameInfo g in
    (set_needUpdateInfo false g, shown)
  else (g, shown).

(** *** A restart in progress

    The key handler, and with it [restartGame], runs on the goroutine
    of the window's main loop; the loop of [handleGameLogic] runs on a
    goroutine of its own, and package [game] takes no lock (the earlier
    copy holds [snakeLock] around its round and around its handler).
    [Reset] first assigns the empty slice, [s.Parts = []Point{}], and
    only then appends the three cells, on the snake the loop reads.
    [restarting g] is the game as the loop finds it after that first
    statement of [Reset] and before the first [append]. *)
Definition restarting (g : Game) : Game :=
  set_snake (set_Parts [] (snake g)) g.

End game.

(** ** Package [modules]

    The earlier copy of the game (src/modules), which the two older
    main programs start.  [Point], [Dir], [Exec] and [CheckParallel]
    are the same text as in package [game] and are shared with it; the
    snake has no direction of its own, [Reset] only appends, and the
    loop keeps the direction in a local variable. *)

Module modules.

Import game.

Record Snake : Type := mkSnake {
  Parts : list Point;
  Size : Z
}.

Definition NewSnake : Snake := mkSnake [] 0.

Definition set_Parts (ps : list Point) (s : Snake) : Snake := mkSnake ps (Size s).
Definition set_Size (n : Z) (s : Snake) : Snake := mkSnake (Parts s) n.

Definition Len (s : Snake) : Z := GoInt.len (Parts s).

Definition Add (s : Snake) (point : Point) : Snake :=
  set_Parts ([point] ++ Parts s) s.

Definition IsSnake (s : Snake) (point : Point) : bool :=
  existsb (Point_eqb point) (Parts s).

Definition CutIfSnake (s : Snake) (point : Point) : Snake * bool :=
  match CutIfSnake_scan point 0 (Parts s) with
  | Some i => (set_Parts (take i (Parts s)) s, true)
  | None => (s, false)
  end.

Definition Head (s : Snake) : Point :=
  if GoInt.len (Parts s) =? 0 then mkPoint (-1) (-1)
  else default (mkPoint 0 0) (Parts s !! 0%nat).

Definition Tail (s : Snake) : Point :=
  if GoInt.len (Parts s) =? 0 then mkPoint (-1) (-1)
  else default (mkPoint 0 0) (Parts s !! (length (Parts s) - 1)%nat).

Fixpoint Reset_loop (x y : Z) (k : nat) (s : Snake) : Snake :=
  match k with
  | O => s
  | S i =>
      let s1 := set_Parts (Parts s ++ [mkPoint (GoInt.add x (Z.of_nat i)) y]) s in
      let s2 := set_Size (GoInt.add (Size s1) 1) s1 in
      Reset_loop x y i s2
  end.

Definition Reset (s : Snake) : Snake := Reset_loop 1 1 3 s.

Definition Move (s : Snake) (directional : Dir) : result Snake :=
  lastPoint ← index (Parts s) 0;
  let ps := <[0%nat := Exec directional lastPoint]> (Parts s) in
  ps' ← Move_loop (seq 0 (length (Parts s) - 1)) ps lastPoint;
  Ok (set_Parts ps' s).

Record Game : Type := mkGame {
  snake : Snake;
  food : Point;
  score : Z;
  ateFood : Z;
  speed : Z;
  gameOver : bool;
  needMove : bool
}.

Definition set_snake (v : Snake) (g : Game) : Game :=
  mkGame v (food g) (score g) (ateFood g) (speed g) (gameOver g) (needMove g).
Definition set_food (v : Point) (g : Game) : Game :=
  mkGame (snake g) v (score g) (ateFood g) (speed g) (gameOver g) (needMove g).
Definition set_score (v : Z) (g : Game) : Game :=
  mkGame (snake g) (food g) v (ateFood g) (speed g) (gameOver g) (needMove g).
Definition set_ateFood (v : Z) (g : Game) : Game :=
  mkGame (snake g) (food g) (score g) v (speed g) (gameOver g) (needMove g).
Definition set_speed (v : Z) (g : Game) : Game :=
  mkGame (snake g) (food g) (score g) (ateFood g) v (gameOver g) (needMove g).
Definition set_gameOver (v : bool) (g : Game) : Game :=
  mkGame (snake g) (food g) (score g) (ateFood g) (speed g) v (needMove g).
Definition set_needMove (v : bool) (g : Game) : Game :=
  mkGame (snake g) (food g) (score g) (ateFood g) (speed g) (gameOver g) v.

Definition NewGame : Game :=
  mkGame NewSnake (mkPoint 0 0) 0 0 300 false false.

Definition SetSnake (g : Game) (snake : Snake) : Game := set_snake snake g.

(** One draw is the pair of results of the two calls of
    [rand.Intn(maxNum-minNum)]; [minNum] is added to each.  A round of
    the loop that finds [g.gameOver] set does nothing, and so does
    every round after it: within the loop nothing clears the flag. *)
Fixpoint FoodGeneration (draws : list draw) (g : Game) : result (Game * list draw) :=
  let minNum := 0 in
  let maxNum := 20 in
  if negb (gameOver g) then
    match draws with
    | [] => Blocked
    | (r1, r2) :: draws' =>
        let randX := GoInt.add r1 minNum in
        let randY := GoInt.add r2 minNum in
        let newPoint := mkPoint randX randY in
        let check := true in
        let check := if IsSnake (snake g) newPoint then false else check in
        if check then Ok (set_food newPoint g, draws')
        else FoodGeneration draws' g
    end
  else Blocked.

(** The score of a food cell, the [switch] in [SnakeMovement]. *)
Definition foodScore (g : Game) (newPos : Point) : result Game :=
  if (X newPos =? 0) && (Y newPos =? 0) || (X newPos =? 0) && (Y newPos =? 19) ||
     (X newPos =? 19) && (Y newPos =? 0) || (X newPos =? 19) && (Y newPos =? 19)
  then q ← GoInt.div 1000 (speed g);
       Ok (set_score (GoInt.add (score g) (GoInt.mul q 4)) g)
  else if (X newPos =? 0) || (Y newPos =? 0) || (X newPos =? 19) || (Y newPos =? 19)
  then q ← GoInt.div 1000 (speed g);
       Ok (set_score (GoInt.add (score g) (GoInt.mul q 2)) g)
  else q ← GoInt.div 1000 (speed g);
       Ok (set_score (GoInt.add (score g) q) g).

(** One round of the loop of [SnakeMovement], between the two uses of
    the lock; [snakeDirection] is the local variable of that name. *)
Definition SnakeMovement_body (snakeDirection : Dir) (draws : list draw) (g : Game)
  : result (Game * list draw) :=
  if negb (gameOver g) then
    head ← index (Parts (snake g)) 0;
    let newPos := Exec snakeDirection head in
    let g := if (X newPos <? 0) || (X newPos >? 19) || (Y newPos <? 0) || (Y newPos >? 19)
             then set_gameOver true g else g in
    g ← (let '(s', cut) := CutIfSnake (snake g) newPos in
         let g := set_snake s' g in
         if cut then
           let newSize := GoInt.len (Parts (snake g)) in
           q ← GoInt.div (score g) (Size (snake g));
           let g := set_score (GoInt.mul q newSize) g in
           Ok (set_snake (set_Size newSize (snake g)) g)
         else Ok g);
    let isFood := false in
    '(g, draws, isFood) ←
      (if Point_eqb newPos (food g) then
         let g := set_ateFood (GoInt.add (ateFood g) 1) g in
         let g := set_snake (set_Size (GoInt.add (Size (snake g)) 1) (snake g)) g in
         g ← foodScore g newPos;
         '(g, draws) ← FoodGeneration draws g;
         let g := set_snake (Add (snake g) newPos) g in
         '(g, draws) ← FoodGeneration draws g;
         let g := set_speed (GoInt.sub (speed g) 5) g in
         Ok (g, draws, true)
       else Ok (g, draws, isFood));
    if negb isFood && negb (gameOver g) then
      s' ← Move (snake g) snakeDirection;
      Ok (set_needMove false (set_snake s' g), draws)
    else Ok (g, draws)
  else Ok (g, draws).

(** The [KeyUp] handler installed by [SnakeMovement]; it reads and
    writes the local variable [snakeDirection] under the lock, and its
    result is the new value of that variable. *)
Definition KeyUp (code : Z) (snakeDirection : Dir) (g : Game) : Dir :=
  if (code <? 79) && (code >? 82) || needMove g then snakeDirection
  else
    let newDir := snakeDirection in
    let newDir :=
      if code =? 80 then left
      else if code =? 82 then down
      else if code =? 79 then right
      else if code =? 81 then up
      else newDir in
    if negb (CheckParallel snakeDirection newDir) then newDir
    else snakeDirection.

End modules.

Import game.

(** ** Geometry *)

Section Geometry.

Implicit Types (p q : Point) (d : Dir).

Lemma Point_eqb_eq p q : Point_eqb p q = true <-> p = q.
Proof. unfold Point_eqb. apply bool_decide_eq_true. Qed.

Lemma Point_eqb_neq p q : Point_eqb p q = false <-> p <> q.
Proof. unfold Point_eqb. apply bool_decide_eq_false. Qed.

Lemma Point_eqb_refl p : Point_eqb p p = true.
Proof. by apply Point_eqb_eq. Qed.

Lemma Point_eqb_sym p q : Point_eqb p q = Point_eqb q p.
Proof.
  destruct (Point_eqb q p) eqn:E.
  - apply Point_eqb_eq in E. subst. apply Point_eqb_refl.
  - apply Point_eqb_neq in E. apply Point_eqb_neq. congruence.
Qed.

Lemma valid_dir_cases d :
  valid_dir d <-> (d = 0 \/ d = 1 \/ d = 2 \/ d = 3).
Proof. reflexivity. Qed.

Lemma Exec_up p : Exec up p = mkPoint (X p) (Y p + 1).
Proof. reflexivity. Qed.

Lemma Exec_down p : Exec down p = mkPoint (X p) (Y p - 1).
Proof. reflexivity. Qed.

Lemma Exec_left p : Exec left p = mkPoint (X p - 1) (Y p).
Proof. reflexivity. Qed.

Lemma Exec_right p : Exec right p = mkPoint (X p + 1) (Y p).
Proof. reflexivity. Qed.

Lemma Exec_invalid d p : ~ valid_dir d -> Exec d p = p.
Proof.
  intros Hd. unfold Exec, up, down, left, right.
  repeat match goal with
         | |- context [?a =? ?b] => destruct (Z.eqb_spec a b)
         end; try reflexivity; exfalso; apply Hd; unfold valid_dir, up, down, left, right; lia.
Qed.

(** [CheckParallel] holds of exactly the four opposite pairs. *)
Lemma CheckParallel_true d d' :
  CheckParallel d d' = true <->
  (d = up /\ d' = down) \/ (d = down /\ d' = up) \/
  (d = left /\ d' = right) \/ (d = right /\ d' = left).
Proof.
  unfold CheckParallel, up, down, left, right.
  repeat match goal with
         | |- context [?a =? ?b] => destruct (Z.eqb_spec a b)
         end; split; intros H; try discriminate; try reflexivity; lia.
Qed.

Lemma Exec_moves d p : valid_dir d -> Exec d p <> p.
Proof.
  intros [-> | [-> | [-> | ->]]]; destruct p as [x y]; cbn; intros [=]; lia.
Qed.

Lemma Exec_opposite d d' p :
  CheckParallel d d' = true -> Exec d' (Exec d p) = p.
Proof.
  intros H. apply CheckParallel_true in H.
  destruct p as [x y].
  destruct H as [[-> ->] | [[-> ->] | [[-> ->] | [-> ->]]]]; cbn; f_equal; lia.
Qed.

(** On the grid and one step around it, [Exec] on [float64] is [Exec]
    on the integers. *)
Lemma of_int_step (z : Z) :
  -1 <= z <= cellsCount ->
  PrimFloat.add (Float64.of_int z) (Float64.of_int 1) = Float64.of_int (z + 1) /\
  PrimFloat.sub (Float64.of_int z) (Float64.of_int 1) = Float64.of_int (z - 1).
Proof.
  intros Hz.
  assert (Hin : z ∈ seqZ (-1) 22) by (apply elem_of_seqZ; unfold cellsCount in Hz; lia).
  clear Hz. revert z Hin. apply Forall_forall.
  repeat (constructor; [split; vm_compute; reflexivity |]). constructor.
Qed.

Lemma Exec64_agrees d p :
  -1 <= X p <= cellsCount -> -1 <= Y p <= cellsCount ->
  Exec64 d (to64 p) = to64 (Exec d p).
Proof.
  intros Hx Hy.
  destruct (of_int_step _ Hx) as [Hx1 Hx2], (of_int_step _ Hy) as [Hy1 Hy2].
  unfold Exec64, Exec, to64.
  repeat match goal with
         | |- context [if ?b then _ else _] => destruct b
         end; cbn [X Y X64 Y64]; congruence.
Qed.

End Geometry.

(** ** The snake *)

Section SnakeBody.

Implicit Types (s : Snake) (p : Point) (ps : list Point) (d : Dir).

Lemma IsSnake_true s p : IsSnake s p = true <-> p ∈ Parts s.
Proof.
  unfold IsSnake. rewrite existsb_exists. split.
  - intros (q & Hq & E). apply Point_eqb_eq in E. subst q.
    by apply list_elem_of_In.
  - intros H. exists p. split; [by apply list_elem_of_In | apply Point_eqb_refl].
Qed.

Lemma IsSnake_false s p : IsSnake s p = false <-> p ∉ Parts s.
Proof.
  rewrite <- IsSnake_true. destruct (IsSnake s p); split; intros H; congruence.
Qed.

(** *** [CutIfSnake] *)

Lemma first_at_nil p i : ~ first_at [] p i.
Proof. intros [H _]. destruct i; discriminate H. Qed.

Lemma first_at_cons_0 p q ps : first_at (q :: ps) p 0 <-> q = p.
Proof.
  split.
  - intros [H _]. by injection H.
  - intros ->. split; [reflexivity | intros j Hj; lia].
Qed.

Lemma first_at_cons_S p q ps i :
  first_at (q :: ps) p (S i) <-> q <> p /\ first_at ps p i.
Proof.
  split.
  - intros [H Hlt]. split.
    + intros ->. by apply (Hlt 0%nat); [lia |].
    + split; [exact H |]. intros j Hj. apply (Hlt (S j)). lia.
  - intros (Hne & H & Hlt). split; [exact H |].
    intros [| j] Hj; cbn.
    + congruence.
    + apply Hlt. lia.
Qed.

Lemma first_at_exists p ps : p ∈ ps -> exists i, first_at ps p i.
Proof.
  induction ps as [| q ps IH]; intros Hin.
  - by apply elem_of_nil in Hin.
  - destruct (decide (q = p)) as [-> | Hne].
    + exists 0%nat. by apply first_at_cons_0.
    + apply elem_of_cons in Hin as [-> | Hin]; [done |].
      destruct (IH Hin) as [i Hi]. exists (S i). by apply first_at_cons_S.
Qed.

Lemma first_at_unique p ps i j : first_at ps p i -> first_at ps p j -> i = j.
Proof.
  intros [Hi Hi'] [Hj Hj'].
  destruct (Nat.lt_trichotomy i j) as [Hlt | [-> | Hlt]]; [| done |].
  - by destruct (Hj' i Hlt).
  - by destruct (Hi' j Hlt).
Qed.

Lemma first_at_lt p ps i : first_at ps p i -> (i < length ps)%nat.
Proof. intros [H _]. by apply lookup_lt_Some in H. Qed.

Lemma CutIfSnake_scan_first_at p ps k i :
  first_at ps p i -> CutIfSnake_scan p k ps = Some (k + i)%nat.
Proof.
  revert k i. induction ps as [| q ps IH]; intros k i H.
  - by destruct (first_at_nil p i).
  - destruct i as [| i]; cbn.
    + apply first_at_cons_0 in H as ->.
      rewrite Point_eqb_refl. f_equal. lia.
    + apply first_at_cons_S in H as [Hne H].
      apply Point_eqb_neq in Hne. rewrite Hne.
      rewrite (IH (S k) i H). f_equal. lia.
Qed.

Lemma CutIfSnake_scan_absent p ps k :
  p ∉ ps -> CutIfSnake_scan p k ps = None.
Proof.
  revert k. induction ps as [| q ps IH]; intros k H; cbn; [done |].
  apply not_elem_of_cons in H as [Hne H].
  assert (E : Point_eqb q p = false) by (apply Point_eqb_neq; congruence).
  rewrite E. by apply IH.
Qed.

Lemma CutIfSnake_found s p i :
  first_at (Parts s) p i ->
  CutIfSnake s p = (set_Parts (take i (Parts s)) s, true).
Proof.
  intros H. unfold CutIfSnake.
  by rewrite (CutIfSnake_scan_first_at p (Parts s) 0 i H).
Qed.

Lemma CutIfSnake_absent s p : p ∉ Parts s -> CutIfSnake s p = (s, false).
Proof.
  intros H. unfold CutIfSnake. by rewrite CutIfSnake_scan_absent.
Qed.

(** The two cases are the only ones. *)
Lemma CutIfSnake_cases s p :
  (exists i, first_at (Parts s) p i /\
             CutIfSnake s p = (set_Parts (take i (Parts s)) s, true)) \/
  ((p ∉ Parts s) /\ CutIfSnake s p = (s, false)).
Proof.
  destruct (decide (p ∈ Parts s)) as [Hin | Hout].
  - left. destruct (first_at_exists p _ Hin) as [i Hi].
    exists i. split; [done | by apply CutIfSnake_found].
  - right. split; [done | by apply CutIfSnake_absent].
Qed.

(** *** [Move] and [Add] *)

Lemma index_Some ps i p : ps !! i = Some p -> index ps i = Ok p.
Proof. intros H. unfold index. by rewrite H. Qed.

Lemma index_nil i : index [] i = Panic IndexOutOfRange.
Proof. by destruct i. Qed.

(** The loop invariant of [Move]: the cells before index [k + 1] are
    final, [lastPoint] is the old value of the cell at index [k]. *)
Lemma Move_loop_shift (n k : nat) (pre rest : list Point) (lastPoint : Point) :
  length pre = S k -> length rest = n ->
  Move_loop (seq k n) (pre ++ rest) lastPoint
  = Ok (pre ++ take n (lastPoint :: rest)).
Proof.
  revert k pre rest lastPoint.
  induction n as [| n IH]; intros k pre rest lastPoint Hpre Hrest.
  - destruct rest; [| discriminate]. reflexivity.
  - destruct rest as [| r rest]; [discriminate |].
    injection Hrest as Hrest. cbn [seq Move_loop].
    assert (Hk : (k + 1)%nat = (length pre + 0)%nat) by lia.
    rewrite Hk.
    rewrite (index_Some _ _ r) by (by rewrite lookup_app_r, Nat.add_comm, Nat.add_sub by lia).
    cbn [mbind result_bind].
    rewrite insert_app_r. cbn [insert list_insert].
    replace (pre ++ lastPoint :: rest) with ((pre ++ [lastPoint]) ++ rest)
      by (by rewrite <- app_assoc).
    rewrite (IH (S k)); [| rewrite length_app; cbn; lia | done].
    by rewrite <- app_assoc.
Qed.

(** [Move] in closed form: the new head, then the old cells but the
    last. *)
Lemma Move_cons s d h t :
  Parts s = h :: t ->
  Move s d = Ok (set_Parts (Exec d h :: take (length t) (h :: t)) s).
Proof.
  intros E. unfold Move. rewrite E. cbn [index lookup list_lookup mbind result_bind].
  cbn [insert list_insert].
  replace (length (h :: t) - 1)%nat with (length t) by (cbn [length]; lia).
  change (Exec d h :: t) with ([Exec d h] ++ t).
  by rewrite (Move_loop_shift (length t) 0 [Exec d h] t h).
Qed.

Lemma Move_nil s d : Parts s = [] -> Move s d = Panic IndexOutOfRange.
Proof. intros E. unfold Move. by rewrite E. Qed.

Lemma Move_returns s d : Parts s <> [] <-> returns (Move s d).
Proof.
  split.
  - destruct (Parts s) as [| h t] eqn:E; [done |]. intros _.
    eexists. by apply Move_cons.
  - intros [s' H] E. by rewrite (Move_nil s d E) in H.
Qed.

(** *** [Head] and [Tail] *)

Lemma Head_nonempty s : Parts s <> [] -> head (Parts s) = Some (Head s).
Proof.
  unfold Head, GoInt.len. destruct (Parts s) as [| h t]; [done |]. intros _.
  reflexivity.
Qed.

Lemma Tail_nonempty s : Parts s <> [] -> last (Parts s) = Some (Tail s).
Proof.
  unfold Tail, GoInt.len. destruct (Parts s) as [| h t] eqn:E; [done |]. intros _.
  replace (Z.of_nat (length (h :: t)) =? 0) with false
    by (symmetry; apply Z.eqb_neq; cbn [length]; lia).
  rewrite last_lookup.
  replace (Init.Nat.pred (length (h :: t))) with (length (h :: t) - 1)%nat by lia.
  destruct ((h :: t) !! (length (h :: t) - 1)%nat) as [q |] eqn:L; [done |].
  apply lookup_ge_None in L. cbn [length] in L. lia.
Qed.

Lemma Head_empty s : Parts s = [] -> Head s = sentinel.
Proof. intros E. unfold Head. by rewrite E. Qed.

Lemma Tail_empty s : Parts s = [] -> Tail s = sentinel.
Proof. intros E. unfold Tail. by rewrite E. Qed.

End SnakeBody.

(** ** Properties of the geometry and of the snake *)

(** C7.  For every cell [p] of the grid, [Exec] with one of the four
    named directions changes exactly one coordinate of [p] by exactly
    one (up: y+1, down: y-1, left: x-1, right: x+1), and [Exec] with
    the opposite direction, in the sense of [CheckParallel], then
    returns [p]; and for every position whatever, [Exec] with any other
    value of [Dir] returns it unchanged.  The coordinates are [float64]
    in the source: on a cell of the grid, [Exec] on the [float64]
    coordinates gives the [float64] coordinates of the point that
    [Exec] on the integers gives. *)
Theorem Exec_step_and_back (p : Point) :
  (in_grid p ->
   Exec up p = mkPoint (X p) (Y p + 1) /\
   Exec down p = mkPoint (X p) (Y p - 1) /\
   Exec left p = mkPoint (X p - 1) (Y p) /\
   Exec right p = mkPoint (X p + 1) (Y p) /\
   (forall d, valid_dir d ->
      (X (Exec d p) = X p /\ Z.abs (Y (Exec d p) - Y p) = 1) \/
      (Y (Exec d p) = Y p /\ Z.abs (X (Exec d p) - X p) = 1)) /\
   Exec down (Exec up p) = p /\ Exec up (Exec down p) = p /\
   Exec right (Exec left p) = p /\ Exec left (Exec right p) = p /\
   (forall d d', CheckParallel d d' = true -> Exec d' (Exec d p) = p) /\
   (forall d, Exec64 d (to64 p) = to64 (Exec d p)) /\
   (forall d d', CheckParallel d d' = true ->
                 Exec64 d' (Exec64 d (to64 p)) = to64 p)) /\
  (forall d, ~ valid_dir d -> Exec d p = p /\ Exec64 d (to64 p) = to64 p).
Proof.
  split.
  - intros [Hx Hy].
    assert (Hagree : forall d, Exec64 d (to64 p) = to64 (Exec d p)).
    { intros d. apply Exec64_agrees; unfold cellsCount in *; lia. }
    repeat split; try reflexivity.
    + intros d [-> | [-> | [-> | ->]]]; cbn; lia.
    + by apply Exec_opposite.
    + by apply Exec_opposite.
    + by apply Exec_opposite.
    + by apply Exec_opposite.
    + intros d d'. apply Exec_opposite.
    + exact Hagree.
    + intros d d' Hop. rewrite Hagree.
      assert (Hr : -1 <= X (Exec d p) <= cellsCount /\ -1 <= Y (Exec d p) <= cellsCount).
      { unfold cellsCount, Exec, up, down, left, right in *.
        repeat match goal with
               | |- context [if ?b then _ else _] => destruct b
               end; cbn; lia. }
      destruct Hr as [Hx' Hy'].
      rewrite Exec64_agrees by done. by rewrite Exec_opposite.
  - intros d Hd. split; [by apply Exec_invalid |].
    unfold Exec64, valid_dir, up, down, left, right in *.
    repeat match goal with
           | |- context [if ?b =? ?c then _ else _] => destruct (Z.eqb_spec b c)
           end; try reflexivity; lia.
Qed.

Lemma Exec_step_and_back_witness :
  in_grid (mkPoint 3 1) /\
  Exec left (Exec right (mkPoint 3 1)) = mkPoint 3 1 /\
  Exec64 left (Exec64 right (to64 (mkPoint 3 1))) = to64 (mkPoint 3 1) /\
  Exec 7 (mkPoint 3 1) = mkPoint 3 1 /\
  ((X (Exec up (mkPoint 3 1)) = 3 /\ Z.abs (Y (Exec up (mkPoint 3 1)) - 1) = 1) \/
   (Y (Exec up (mkPoint 3 1)) = 1 /\ Z.abs (X (Exec up (mkPoint 3 1)) - 3) = 1)).
Proof.
  assert (Hin : in_grid (mkPoint 3 1)) by (unfold in_grid, cellsCount; cbn; lia).
  destruct (Exec_step_and_back (mkPoint 3 1)) as [Hgrid Hother].
  destruct (Hgrid Hin) as (_ & _ & _ & _ & Hone & _ & _ & _ & _ & Hback & _ & Hback64).
  split; [exact Hin |]. split; [| split; [| split]].
  - apply (Hback right left). reflexivity.
  - apply (Hback64 right left). reflexivity.
  - apply (Hother 7). unfold valid_dir, up, right, down, left. lia.
  - apply (Hone up). unfold valid_dir. by left.
Defined.

(** C6.  For every snake with a non-empty body and every direction [d],
    [Move] returns, preserves the length of the body, makes
    [Exec d oldHead] the head and gives every other cell the old
    position of its predecessor; for every snake and position [p],
    [Add] makes the body one cell longer with [p] at the head, in
    front of the old cells. *)
Theorem Move_Add_spec (s : Snake) (d : Dir) (p : Point) :
  (Parts s <> [] ->
   exists s', Move s d = Ok s' /\
     length (Parts s') = length (Parts s) /\
     head (Parts s') = Exec d <$> head (Parts s) /\
     (forall i, (S i < length (Parts s))%nat -> Parts s' !! S i = Parts s !! i) /\
     Direction s' = Direction s /\ Size s' = Size s) /\
  (Parts (Add s p) = p :: Parts s /\
   length (Parts (Add s p)) = S (length (Parts s)) /\
   Head (Add s p) = p /\
   Direction (Add s p) = Direction s /\ Size (Add s p) = Size s).
Proof.
  split.
  - destruct (Parts s) as [| h t] eqn:E; [done |]. intros _.
    eexists. split; [by apply Move_cons |]. cbn [Parts set_Parts Direction Size].
    repeat split.
    + cbn [length]. rewrite length_take. cbn [length]. lia.
    + intros i Hi. cbn [length] in Hi.
      change ((Exec d h :: take (length t) (h :: t)) !! S i)
        with (take (length t) (h :: t) !! i).
      apply lookup_take_lt. lia.
  - repeat split.
Qed.

Lemma Move_Add_spec_witness :
  let s := mkSnake right [mkPoint 3 1; mkPoint 2 1; mkPoint 1 1] 3 in
  (exists s', Move s right = Ok s' /\
     length (Parts s') = 3%nat /\
     head (Parts s') = Some (mkPoint 4 1) /\
     (forall i, (S i < 3)%nat -> Parts s' !! S i = Parts s !! i) /\
     Direction s' = right /\ Size s' = 3) /\
  Parts (Add s (mkPoint 4 1)) = [mkPoint 4 1; mkPoint 3 1; mkPoint 2 1; mkPoint 1 1].
Proof.
  intros s. split.
  - apply (proj1 (Move_Add_spec s right (mkPoint 4 1))). discriminate.
  - apply (proj2 (Move_Add_spec s right (mkPoint 4 1))).
Defined.

(** C9.  [Head] returns the first body cell and [Tail] the last one for
    every snake with a non-empty body; for the empty snake both return
    the sentinel [(-1,-1)], which is not a cell of the grid: it is
    outside [[0, cellsCount-1]] on both axes and [collidesWithWall]
    holds of it. *)
Theorem Head_Tail_spec (s : Snake) :
  (Parts s <> [] ->
   head (Parts s) = Some (Head s) /\ last (Parts s) = Some (Tail s)) /\
  (Parts s = [] -> Head s = mkPoint (-1) (-1) /\ Tail s = mkPoint (-1) (-1)) /\
  ~ in_grid (mkPoint (-1) (-1)) /\
  (forall g, collidesWithWall g (mkPoint (-1) (-1)) = true).
Proof.
  repeat split.
  - by apply Head_nonempty.
  - by apply Tail_nonempty.
  - by apply Head_empty.
  - by apply Tail_empty.
  - unfold in_grid. cbn. lia.
Qed.

Lemma Head_Tail_spec_witness :
  let s := mkSnake right [mkPoint 3 1; mkPoint 2 1; mkPoint 1 1] 3 in
  (Some (mkPoint 3 1) = Some (Head s) /\ Some (mkPoint 1 1) = Some (Tail s)) /\
  (Head NewSnake = mkPoint (-1) (-1) /\ Tail NewSnake = mkPoint (-1) (-1)).
Proof.
  intros s. split.
  - apply (proj1 (Head_Tail_spec s)). discriminate.
  - apply (proj1 (proj2 (Head_Tail_spec NewSnake))). reflexivity.
Defined.

(** ** Arithmetic of [int] *)

Section IntArith.

Lemma wrap_in_range z : GoInt.in_range z -> GoInt.wrap z = z.
Proof.
  unfold GoInt.in_range, GoInt.min_int, GoInt.max_int, GoInt.wrap. intros H.
  rewrite Z.mod_small; lia.
Qed.

Lemma wrap_range z : GoInt.in_range (GoInt.wrap z).
Proof.
  unfold GoInt.in_range, GoInt.min_int, GoInt.max_int, GoInt.wrap.
  pose proof (Z.mod_pos_bound (z + 2 ^ 63) (2 ^ 64)). lia.
Qed.

Lemma len_nonneg {A} (l : list A) : 0 <= GoInt.len l.
Proof. unfold GoInt.len. lia. Qed.

Lemma len_zero {A} (l : list A) : GoInt.len l = 0 <-> l = [].
Proof.
  unfold GoInt.len. destruct l; cbn [length]; split; intros H; try done; lia.
Qed.

Lemma div_Ok a b : b <> 0 -> GoInt.div a b = Ok (GoInt.wrap (a ÷ b)).
Proof. intros H. unfold GoInt.div. by apply Z.eqb_neq in H as ->. Qed.

Lemma div_zero a : GoInt.div a 0 = Panic IntegerDivideByZero.
Proof. reflexivity. Qed.

Lemma div_returns a b : b <> 0 <-> returns (GoInt.div a b).
Proof.
  split.
  - intros H. eexists. by apply div_Ok.
  - intros [q H] ->. discriminate H.
Qed.

(** Dividing a non-negative [int] by a positive one never wraps and
    agrees with the floor division of [Z]. *)
Lemma quot_nonneg_exact a b :
  0 <= a <= GoInt.max_int -> 0 < b -> GoInt.wrap (a ÷ b) = a / b.
Proof.
  intros Ha Hb. rewrite Z.quot_div_nonneg by lia.
  apply wrap_in_range. unfold GoInt.in_range, GoInt.min_int, GoInt.max_int in *.
  pose proof (Z.div_pos a b). pose proof (Z.div_le_upper_bound a b a).
  nia.
Qed.

(** [1000 / s] for a non-zero [s] lies within a thousand of zero. *)
Lemma quot_1000_bound s : s <> 0 -> -1000 <= 1000 ÷ s <= 1000.
Proof.
  intros Hs.
  pose proof (Z.quot_abs 1000 s Hs) as Habs.
  assert (Z.abs (1000 ÷ s) <= 1000); [| lia].
  rewrite <- Habs. change (Z.abs 1000) with 1000.
  apply Z.quot_le_upper_bound; lia.
Qed.

Lemma wrap_quot_1000 s : s <> 0 -> GoInt.wrap (1000 ÷ s) = 1000 ÷ s.
Proof.
  intros Hs. apply wrap_in_range. pose proof (quot_1000_bound s Hs).
  unfold GoInt.in_range, GoInt.min_int, GoInt.max_int. lia.
Qed.

Lemma mul_quot_1000 s k :
  s <> 0 -> 0 <= k <= 4 -> GoInt.mul (1000 ÷ s) k = 1000 ÷ s * k.
Proof.
  intros Hs Hk. apply wrap_in_range. pose proof (quot_1000_bound s Hs).
  unfold GoInt.in_range, GoInt.min_int, GoInt.max_int. nia.
Qed.

End IntArith.

(** ** One round of the game loop *)

Section Round.

Implicit Types (g : Game) (p newPos head : Point) (draws : list draw).

Lemma handleGameLogic_body_phases draws g :
  handleGameLogic_body draws g =
  head ← index (Parts (snake g)) 0;
  let newPos := Exec (Direction (snake g)) head in
  g ← selfBite (hitWall g newPos) newPos;
  if Point_eqb newPos (food g) then eat draws g newPos else advance draws g.
Proof. reflexivity. Qed.

(** *** The wall *)

Lemma collidesWithWall_false g p : collidesWithWall g p = false <-> in_grid p.
Proof.
  unfold collidesWithWall, in_grid, cellsCount.
  rewrite !orb_false_iff, !Z.ltb_ge, !Z.geb_leb, !Z.leb_gt. lia.
Qed.

Lemma collidesWithWall_true g p : collidesWithWall g p = true <-> ~ in_grid p.
Proof.
  pose proof (collidesWithWall_false g p) as [H1 H2].
  destruct (collidesWithWall g p) eqn:E; split; intros H; try done.
  - intros Hin. by specialize (H2 Hin).
  - by destruct H; apply H1.
Qed.

Lemma hitWall_eq g p :
  hitWall g p = set_gameOver (gameOver g || collidesWithWall g p) g.
Proof.
  unfold hitWall. destruct g as [pa sn fo sc af go nm nu].
  destruct (collidesWithWall _ p); cbn; [by rewrite orb_true_r | by rewrite orb_false_r].
Qed.

(** *** The sampling loop *)

Lemma foodGeneration_cons_on d draws g :
  on_snake g d -> foodGeneration (d :: draws) g = foodGeneration draws g.
Proof.
  intros H. destruct d as [x y]. cbn [foodGeneration].
  apply IsSnake_true in H. unfold draw_point in H. cbn in H. by rewrite H.
Qed.

Lemma foodGeneration_cons_off d draws g :
  ~ on_snake g d ->
  foodGeneration (d :: draws) g = Ok (set_food (draw_point d) g, draws).
Proof.
  intros H. destruct d as [x y]. cbn [foodGeneration].
  apply IsSnake_false in H. unfold draw_point in H. cbn in H. by rewrite H.
Qed.

Lemma foodGeneration_accepts pre d rest g :
  Forall (on_snake g) pre -> ~ on_snake g d ->
  foodGeneration (pre ++ d :: rest) g = Ok (set_food (draw_point d) g, rest).
Proof.
  intros Hpre Hd. induction Hpre as [| d0 pre H0 _ IH]; cbn [app].
  - by apply foodGeneration_cons_off.
  - by rewrite foodGeneration_cons_on.
Qed.

Lemma foodGeneration_inv draws g g' rest :
  foodGeneration draws g = Ok (g', rest) ->
  exists pre d, draws = pre ++ d :: rest /\ Forall (on_snake g) pre /\
                ~ on_snake g d /\ g' = set_food (draw_point d) g.
Proof.
  induction draws as [| d draws IH]; [discriminate |].
  destruct (decide (on_snake g d)) as [Hon | Hoff].
  - rewrite foodGeneration_cons_on by done. intros H.
    destruct (IH H) as (pre & d' & -> & Hpre & Hd' & ->).
    exists (d :: pre), d'. repeat split; [| done]. by constructor.
  - rewrite foodGeneration_cons_off by done. intros [= <- <-].
    exists [], d. repeat split; [constructor | done].
Qed.

Lemma foodGeneration_blocked draws g :
  Forall (on_snake g) draws -> foodGeneration draws g = Blocked.
Proof.
  induction 1 as [| d draws Hd _ IH]; [done |]. by rewrite foodGeneration_cons_on.
Qed.

(** The loop returns exactly when some draw is off the snake. *)
Lemma foodGeneration_returns draws g :
  returns (foodGeneration draws g) <-> Exists (fun d => ~ on_snake g d) draws.
Proof.
  split.
  - intros [[g' rest] H].
    destruct (foodGeneration_inv _ _ _ _ H) as (pre & d & -> & _ & Hd & _).
    apply Exists_exists. exists d. split; [| done].
    apply elem_of_app. right. by left.
  - induction 1 as [d draws Hd | d draws _ IH].
    + eexists. by apply foodGeneration_cons_off.
    + destruct (decide (on_snake g d)).
      * by rewrite foodGeneration_cons_on.
      * eexists. by apply foodGeneration_cons_off.
Qed.

Lemma draw_ok_in_grid (d : draw) : draw_ok d <-> in_grid (draw_point d).
Proof. unfold draw_ok, in_grid, draw_point, cellsCount. cbn. lia. Qed.

(** *** The self-bite *)

Lemma set_snake_same g : set_snake (snake g) g = g.
Proof. by destruct g. Qed.

Lemma selfBite_absent g p : p ∉ Parts (snake g) -> selfBite g p = Ok g.
Proof.
  intros H. unfold selfBite. rewrite (CutIfSnake_absent _ _ H).
  by rewrite set_snake_same.
Qed.

Lemma len_take_first_at (ps : list Point) p i :
  first_at ps p i -> GoInt.len (take i ps) = Z.of_nat i.
Proof.
  intros H. apply first_at_lt in H. unfold GoInt.len. rewrite length_take. lia.
Qed.

Lemma selfBite_found g p i :
  first_at (Parts (snake g)) p i -> Size (snake g) <> 0 ->
  selfBite g p =
  Ok (mkGame (param g)
        (mkSnake (Direction (snake g)) (take i (Parts (snake g))) (Z.of_nat i))
        (food g)
        (GoInt.mul (GoInt.wrap (score g ÷ Size (snake g))) (Z.of_nat i))
        (ateFood g) (gameOver g) (needMove g) true).
Proof.
  intros H Hsize. unfold selfBite. rewrite (CutIfSnake_found _ _ _ H).
  cbn [snake set_snake set_Parts Parts Size score Direction].
  rewrite (div_Ok _ _ Hsize). cbn [mbind result_bind].
  rewrite (len_take_first_at _ _ _ H). reflexivity.
Qed.

Lemma selfBite_found_zero g p i :
  first_at (Parts (snake g)) p i -> Size (snake g) = 0 ->
  selfBite g p = Panic IntegerDivideByZero.
Proof.
  intros H Hsize. unfold selfBite. rewrite (CutIfSnake_found _ _ _ H).
  cbn [snake set_snake set_Parts Parts Size score Direction].
  by rewrite Hsize.
Qed.

(** What a returning [selfBite] leaves alone, and what it does to the
    body. *)
Lemma selfBite_inv g p g' :
  selfBite g p = Ok g' ->
  param g' = param g /\ food g' = food g /\ ateFood g' = ateFood g /\
  gameOver g' = gameOver g /\ needMove g' = needMove g /\
  Direction (snake g') = Direction (snake g) /\
  (((p ∉ Parts (snake g)) /\ g' = g) \/
   (exists i, first_at (Parts (snake g)) p i /\ Size (snake g) <> 0 /\
              Parts (snake g') = take i (Parts (snake g)) /\
              Size (snake g') = Z.of_nat i /\
              score g' = GoInt.mul (GoInt.wrap (score g ÷ Size (snake g))) (Z.of_nat i) /\
              needUpdateInfo g' = true)).
Proof.
  intros H.
  destruct (decide (p ∈ Parts (snake g))) as [Hin | Hout].
  - destruct (first_at_exists _ _ Hin) as [i Hi].
    destruct (decide (Size (snake g) = 0)) as [Hz | Hnz].
    + by rewrite (selfBite_found_zero _ _ _ Hi Hz) in H.
    + rewrite (selfBite_found _ _ _ Hi Hnz) in H. injection H as <-.
      do 6 (split; [done |]). right. exists i.
      split; [exact Hi |]. split; [exact Hnz |]. by repeat split.
  - rewrite (selfBite_absent _ _ Hout) in H. injection H as <-.
    do 6 (split; [done |]). by left.
Qed.

Lemma selfBite_never_blocks g p :
  selfBite g p <> Blocked /\ (forall c, selfBite g p <> Exit c) /\
  selfBite g p <> Panic IndexOutOfRange.
Proof.
  destruct (decide (p ∈ Parts (snake g))) as [Hin | Hout].
  - destruct (first_at_exists _ _ Hin) as [i Hi].
    destruct (decide (Size (snake g) = 0)) as [Hz | Hnz].
    + by rewrite (selfBite_found_zero _ _ _ Hi Hz).
    + by rewrite (selfBite_found _ _ _ Hi Hnz).
  - by rewrite (selfBite_absent _ _ Hout).
Qed.

(** *** The score of a food cell *)

Lemma calculateScore_Ok g pos :
  speed (param g) <> 0 ->
  calculateScore g pos = Ok (1000 ÷ speed (param g) * weight pos).
Proof.
  intros Hs. unfold calculateScore, weight. rewrite (div_Ok _ _ Hs).
  rewrite (wrap_quot_1000 _ Hs). cbn [mbind result_bind].
  destruct (IsCorner pos); [| destruct (IsEdge pos)].
  - by rewrite mul_quot_1000 by (done || lia).
  - by rewrite mul_quot_1000 by (done || lia).
  - by rewrite Z.mul_1_r.
Qed.

Lemma calculateScore_zero g pos :
  speed (param g) = 0 -> calculateScore g pos = Panic IntegerDivideByZero.
Proof.
  intros Hs. unfold calculateScore. rewrite Hs.
  by destruct (IsCorner pos); [| destruct (IsEdge pos)].
Qed.

(** The three classes of cells. *)
Lemma weight_cases pos :
  (IsCorner pos = true /\ weight pos = 4) \/
  (IsCorner pos = false /\ IsEdge pos = true /\ weight pos = 2) \/
  (IsCorner pos = false /\ IsEdge pos = false /\ weight pos = 1).
Proof.
  unfold weight. destruct (IsCorner pos); [by left |].
  destruct (IsEdge pos); [right; by left | right; by right].
Qed.

(** *** Eating *)

(** The state after a round that ate the food at [p], with [d] the
    accepted draw. *)
Lemma eat_accepts pre d rest g p :
  Forall (on_snake (set_snake (Add (snake g) p) g)) pre ->
  ~ on_snake (set_snake (Add (snake g) p) g) d ->
  GoInt.sub (speed (param g)) 5 <> 0 ->
  eat (pre ++ d :: rest) g p =
  Ok (mkGame (mkGameParam (GoInt.sub (speed (param g)) 5))
        (mkSnake (Direction (snake g)) (p :: Parts (snake g))
           (GoInt.add (Size (snake g)) 1))
        (draw_point d)
        (GoInt.add (score g) (1000 ÷ GoInt.sub (speed (param g)) 5 * weight p))
        (GoInt.add (ateFood g) 1) (gameOver g) (needMove g) true,
      rest).
Proof.
  intros Hpre Hd Hs. unfold eat.
  rewrite (foodGeneration_accepts _ _ _ _ Hpre Hd). cbn [mbind result_bind].
  rewrite calculateScore_Ok by exact Hs. reflexivity.
Qed.

Lemma eat_inv draws g p g' rest :
  eat draws g p = Ok (g', rest) ->
  exists pre d,
    draws = pre ++ d :: rest /\
    Forall (on_snake (set_snake (Add (snake g) p) g)) pre /\
    ~ on_snake (set_snake (Add (snake g) p) g) d /\
    GoInt.sub (speed (param g)) 5 <> 0 /\
    g' = mkGame (mkGameParam (GoInt.sub (speed (param g)) 5))
           (mkSnake (Direction (snake g)) (p :: Parts (snake g))
              (GoInt.add (Size (snake g)) 1))
           (draw_point d)
           (GoInt.add (score g) (1000 ÷ GoInt.sub (speed (param g)) 5 * weight p))
           (GoInt.add (ateFood g) 1) (gameOver g) (needMove g) true.
Proof.
  intros H. unfold eat in H.
  destruct (foodGeneration draws (set_snake (Add (snake g) p) g))
    as [[g1 draws1] | | |] eqn:F; try discriminate H.
  destruct (foodGeneration_inv _ _ _ _ F) as (pre & d & -> & Hpre & Hd & ->).
  destruct (decide (GoInt.sub (speed (param g)) 5 = 0)) as [Hz | Hnz].
  - cbn [mbind result_bind] in H. rewrite calculateScore_zero in H by exact Hz.
    discriminate H.
  - rewrite <- F in H. fold (eat (pre ++ d :: draws1) g p) in H.
    rewrite (eat_accepts _ _ _ _ _ Hpre Hd Hnz) in H.
    injection H as <- <-. by exists pre, d.
Qed.

Lemma eat_no_index_panic draws g p : eat draws g p <> Panic IndexOutOfRange.
Proof.
  unfold eat.
  destruct (foodGeneration draws (set_snake (Add (snake g) p) g))
    as [[g1 draws1] | e | |] eqn:F; try done.
  - cbn [mbind result_bind].
    destruct (decide (GoInt.sub (speed (param g1)) 5 = 0)) as [Hz | Hnz].
    + by rewrite calculateScore_zero.
    + by rewrite calculateScore_Ok.
  - exfalso. revert F. generalize (set_snake (Add (snake g) p) g). intros g0.
    induction draws as [| [x y] draws IH]; [done |]. cbn [foodGeneration].
    by destruct (IsSnake (snake g0) (mkPoint x y)).
Qed.

(** *** Moving on *)

Lemma advance_over draws g :
  gameOver g = true -> advance draws g = Ok (g, draws).
Proof. intros H. unfold advance. by rewrite H. Qed.

Lemma advance_move draws g h t :
  gameOver g = false -> Parts (snake g) = h :: t ->
  advance draws g =
  Ok (mkGame (param g)
        (mkSnake (Direction (snake g))
           (Exec (Direction (snake g)) h :: take (length t) (h :: t))
           (Size (snake g)))
        (food g) (score g) (ateFood g) false true (needUpdateInfo g),
      draws).
Proof.
  intros Hgo E. unfold advance. rewrite Hgo. cbn [negb].
  rewrite (Move_cons _ _ _ _ E). cbn [mbind result_bind].
  unfold set_needMove, set_snake, set_Parts. cbn. by rewrite Hgo.
Qed.

Lemma advance_empty draws g :
  gameOver g = false -> Parts (snake g) = [] ->
  advance draws g = Panic IndexOutOfRange.
Proof.
  intros Hgo E. unfold advance. rewrite Hgo. cbn [negb].
  by rewrite (Move_nil _ _ E).
Qed.

Lemma advance_inv draws g g' rest :
  advance draws g = Ok (g', rest) ->
  rest = draws /\ param g' = param g /\ food g' = food g /\
  score g' = score g /\ ateFood g' = ateFood g /\ gameOver g' = gameOver g /\
  Direction (snake g') = Direction (snake g) /\ Size (snake g') = Size (snake g) /\
  length (Parts (snake g')) = length (Parts (snake g)) /\
  ((gameOver g = true /\ g' = g) \/
   (gameOver g = false /\ needMove g' = true /\
    exists h t, Parts (snake g) = h :: t /\
      Parts (snake g') = Exec (Direction (snake g)) h :: take (length t) (h :: t))).
Proof.
  intros H. destruct (gameOver g) eqn:Hgo.
  - rewrite (advance_over _ _ Hgo) in H. injection H as <- <-.
    do 9 (split; [done |]). by left.
  - destruct (Parts (snake g)) as [| h t] eqn:E.
    + by rewrite (advance_empty _ _ Hgo E) in H.
    + rewrite (advance_move _ _ _ _ Hgo E) in H. injection H as <- <-.
      cbn [param food score ateFood gameOver snake Direction Size Parts needMove].
      do 8 (split; [done |]). split.
      * cbn [length]. rewrite length_take. cbn [length]. lia.
      * right. do 2 (split; [done |]). by exists h, t.
Qed.

(** *** The whole round *)

Lemma handleGameLogic_body_empty draws g :
  Parts (snake g) = [] -> handleGameLogic_body draws g = Panic IndexOutOfRange.
Proof. intros E. unfold handleGameLogic_body. by rewrite E. Qed.

Lemma handleGameLogic_body_inv draws g g' rest :
  handleGameLogic_body draws g = Ok (g', rest) ->
  exists head g2,
    Parts (snake g) !! 0%nat = Some head /\
    selfBite (hitWall g (Exec (Direction (snake g)) head))
             (Exec (Direction (snake g)) head) = Ok g2 /\
    (if Point_eqb (Exec (Direction (snake g)) head) (food g2)
     then eat draws g2 (Exec (Direction (snake g)) head)
     else advance draws g2) = Ok (g', rest).
Proof.
  rewrite handleGameLogic_body_phases. intros H.
  destruct (Parts (snake g)) as [| head t] eqn:E; [discriminate H |].
  cbn [index lookup list_lookup mbind result_bind] in H.
  destruct (selfBite _ _) as [g2 | | |] eqn:B; try discriminate H.
  by exists head, g2.
Qed.

(** A round that bites: the prospective head is on the body, first at
    index [i], and is not the food. *)
Lemma handleGameLogic_body_bite draws g head i :
  Parts (snake g) !! 0%nat = Some head ->
  first_at (Parts (snake g)) (Exec (Direction (snake g)) head) i ->
  (0 < i)%nat -> Size (snake g) <> 0 ->
  Exec (Direction (snake g)) head <> food g ->
  exists g',
    handleGameLogic_body draws g = Ok (g', draws) /\
    length (Parts (snake g')) = i /\
    Size (snake g') = Z.of_nat i /\
    score g' = GoInt.mul (GoInt.wrap (score g ÷ Size (snake g))) (Z.of_nat i) /\
    gameOver g' = gameOver g || collidesWithWall g (Exec (Direction (snake g)) head) /\
    param g' = param g /\ food g' = food g /\ ateFood g' = ateFood g /\
    Direction (snake g') = Direction (snake g) /\ needUpdateInfo g' = true.
Proof.
  intros Hhead Hi Hpos Hsize Hfood.
  rewrite handleGameLogic_body_phases, (index_Some _ _ _ Hhead).
  cbn [mbind result_bind]. cbv zeta.
  set (newPos := Exec (Direction (snake g)) head) in *.
  rewrite hitWall_eq.
  set (go := gameOver g || collidesWithWall g newPos).
  rewrite (selfBite_found (set_gameOver go g) newPos i Hi Hsize).
  cbn [mbind result_bind food].
  assert (E : Point_eqb newPos (food g) = false) by by apply Point_eqb_neq.
  cbn [set_gameOver food param snake score ateFood needMove gameOver]. rewrite E.
  pose proof (first_at_lt _ _ _ Hi) as Hlt.
  destruct (take i (Parts (snake g))) as [| h t] eqn:T.
  { apply (f_equal length) in T. rewrite length_take in T. cbn in T. lia. }
  assert (Hlen : length (h :: t) = i).
  { rewrite <- T, length_take. lia. }
  destruct go eqn:Hgo.
  - rewrite advance_over by done. eexists. split; [reflexivity |].
    cbn [snake Parts Size score gameOver param food ateFood Direction needUpdateInfo].
    by repeat split.
  - erewrite advance_move; [| done | reflexivity].
    eexists. split; [reflexivity |].
    cbn [snake Parts Size score gameOver param food ateFood Direction needUpdateInfo].
    repeat split; try done.
    cbn [length]. rewrite length_take. cbn [length] in *. lia.
Qed.

(** A round with neither bite nor food, into the wall or after the
    game is over: nothing but the flag changes. *)
Lemma handleGameLogic_body_stopped draws g head :
  Parts (snake g) !! 0%nat = Some head ->
  Exec (Direction (snake g)) head ∉ Parts (snake g) ->
  Exec (Direction (snake g)) head <> food g ->
  gameOver g || collidesWithWall g (Exec (Direction (snake g)) head) = true ->
  handleGameLogic_body draws g = Ok (set_gameOver true g, draws).
Proof.
  intros Hhead Hout Hfood Hgo.
  rewrite handleGameLogic_body_phases, (index_Some _ _ _ Hhead).
  cbn [mbind result_bind]. cbv zeta.
  rewrite hitWall_eq, Hgo, selfBite_absent by done.
  cbn [mbind result_bind food set_gameOver].
  assert (E : Point_eqb (Exec (Direction (snake g)) head) (food g) = false)
    by by apply Point_eqb_neq.
  rewrite E. by apply advance_over.
Qed.

(** A round with neither bite nor food while the game runs: the snake
    moves one cell. *)
Lemma handleGameLogic_body_moves draws g h t :
  Parts (snake g) = h :: t ->
  Exec (Direction (snake g)) h ∉ Parts (snake g) ->
  Exec (Direction (snake g)) h <> food g ->
  gameOver g = false -> collidesWithWall g (Exec (Direction (snake g)) h) = false ->
  handleGameLogic_body draws g =
  Ok (mkGame (param g)
        (mkSnake (Direction (snake g))
           (Exec (Direction (snake g)) h :: take (length t) (h :: t))
           (Size (snake g)))
        (food g) (score g) (ateFood g) false true (needUpdateInfo g),
      draws).
Proof.
  intros Hparts Hout Hfood Hgo Hwall.
  rewrite handleGameLogic_body_phases, (index_Some _ _ h) by (by rewrite Hparts).
  cbn [mbind result_bind]. cbv zeta.
  rewrite hitWall_eq, Hgo, Hwall. cbn [orb].
  rewrite selfBite_absent by done.
  cbn [mbind result_bind food set_gameOver].
  assert (E : Point_eqb (Exec (Direction (snake g)) h) (food g) = false)
    by by apply Point_eqb_neq.
  rewrite E. by rewrite (advance_move _ _ h t).
Qed.

(** A round that eats without biting; [d] is the accepted draw. *)
Lemma handleGameLogic_body_eats pre d rest g head :
  Parts (snake g) !! 0%nat = Some head ->
  Exec (Direction (snake g)) head = food g ->
  food g ∉ Parts (snake g) ->
  Forall (fun d' => draw_point d' ∈ food g :: Parts (snake g)) pre ->
  draw_point d ∉ food g :: Parts (snake g) ->
  GoInt.sub (speed (param g)) 5 <> 0 ->
  handleGameLogic_body (pre ++ d :: rest) g =
  Ok (mkGame (mkGameParam (GoInt.sub (speed (param g)) 5))
        (mkSnake (Direction (snake g)) (food g :: Parts (snake g))
           (GoInt.add (Size (snake g)) 1))
        (draw_point d)
        (GoInt.add (score g) (1000 ÷ GoInt.sub (speed (param g)) 5 * weight (food g)))
        (GoInt.add (ateFood g) 1)
        (gameOver g || collidesWithWall g (food g)) (needMove g) true,
      rest).
Proof.
  intros Hhead Hfood Hout Hpre Hd Hs.
  rewrite handleGameLogic_body_phases, (index_Some _ _ _ Hhead).
  cbn [mbind result_bind]. cbv zeta. rewrite Hfood.
  rewrite hitWall_eq, selfBite_absent by done.
  cbn [mbind result_bind food set_gameOver]. rewrite Point_eqb_refl.
  by rewrite (eat_accepts pre d rest).
Qed.

(** The flag after a round that returns. *)
Lemma handleGameLogic_body_gameOver draws g g' rest head :
  Parts (snake g) !! 0%nat = Some head ->
  handleGameLogic_body draws g = Ok (g', rest) ->
  gameOver g' = gameOver g || collidesWithWall g (Exec (Direction (snake g)) head).
Proof.
  intros Hhead H.
  destruct (handleGameLogic_body_inv _ _ _ _ H) as (head' & g2 & Hhead' & B & K).
  assert (head' = head) as -> by congruence.
  destruct (selfBite_inv _ _ _ B) as (_ & _ & _ & Hgo & _).
  rewrite hitWall_eq in Hgo. cbn [gameOver set_gameOver] in Hgo.
  rewrite <- Hgo.
  destruct (Point_eqb _ (food g2)).
  - by destruct (eat_inv _ _ _ _ _ K) as (pre & d & _ & _ & _ & _ & ->).
  - by destruct (advance_inv _ _ _ _ K) as (_ & _ & _ & _ & _ & -> & _).
Qed.

(** *** Restart and the keys *)

Lemma Reset_eq (s : Snake) :
  Reset s = mkSnake right [mkPoint 3 1; mkPoint 2 1; mkPoint 1 1]
              (GoInt.add (GoInt.add (GoInt.add (Size s) 1) 1) 1).
Proof. reflexivity. Qed.

Lemma Reset_NewSnake :
  Reset NewSnake = mkSnake right [mkPoint 3 1; mkPoint 2 1; mkPoint 1 1] 3.
Proof. reflexivity. Qed.

Lemma restartGame_eq g :
  restartGame g =
  mkGame (mkGameParam 300)
    (mkSnake right [mkPoint 3 1; mkPoint 2 1; mkPoint 1 1]
       (GoInt.add (GoInt.add (GoInt.add (Size (snake g)) 1) 1) 1))
    (food g) 0 0 false (needMove g) (needUpdateInfo g).
Proof. reflexivity. Qed.

Lemma KeyUp_Enter code g :
  gameOver g = true ->
  KeyUp code "Enter" g = Ok (restartGame g).
Proof. intros H. unfold KeyUp. rewrite H. reflexivity. Qed.

Lemma FromKey_valid (d : Dir) code : valid_dir (FromKey d code).
Proof.
  unfold FromKey, valid_dir.
  repeat match goal with
         | |- context [?a =? ?b] => destruct (a =? b)
         end; auto.
Qed.

Lemma KeyUp_no_panic code name g e : KeyUp code name g <> Panic e.
Proof.
  unfold KeyUp.
  repeat match goal with
         | |- context [if ?b then _ else _] => destruct b
         end; discriminate.
Qed.

Lemma KeyUp_invariant code name g g' :
  body_invariant g -> KeyUp code name g = Ok g' -> body_invariant g'.
Proof.
  intros [Hparts Hdir]. unfold KeyUp.
  repeat match goal with
         | |- context [if ?b then _ else _] => destruct b
         end; intros [= <-]; try (by split).
  - split; [discriminate | unfold valid_dir; auto].
  - split; [done | apply FromKey_valid].
  - split; [done | apply FromKey_valid].
Qed.

(** *** The body keeps its head *)

Lemma selfBite_keeps_head g head g2 :
  Parts (snake g) !! 0%nat = Some head ->
  valid_dir (Direction (snake g)) ->
  selfBite g (Exec (Direction (snake g)) head) = Ok g2 ->
  Parts (snake g2) !! 0%nat = Some head /\
  Direction (snake g2) = Direction (snake g).
Proof.
  intros Hhead Hdir B.
  destruct (selfBite_inv _ _ _ B) as (_ & _ & _ & _ & _ & Hd & Hcase).
  split; [| exact Hd].
  destruct Hcase as [[_ ->] | (i & Hi & _ & Hparts & _)]; [exact Hhead |].
  rewrite Hparts. destruct i as [| i].
  - destruct Hi as [Hi _]. rewrite Hhead in Hi. injection Hi as Hi.
    by destruct (Exec_moves _ head Hdir).
  - rewrite lookup_take_lt by lia. exact Hhead.
Qed.

Lemma handleGameLogic_body_invariant draws g g' rest :
  body_invariant g -> handleGameLogic_body draws g = Ok (g', rest) ->
  body_invariant g'.
Proof.
  intros [Hparts Hdir] H.
  destruct (handleGameLogic_body_inv _ _ _ _ H) as (head & g2 & Hhead & B & K).
  rewrite hitWall_eq in B.
  apply (selfBite_keeps_head (set_gameOver _ g) head g2 Hhead Hdir) in B
    as [Hhead2 Hdir2].
  cbn [snake set_gameOver] in Hdir2.
  destruct (Point_eqb _ (food g2)).
  - destruct (eat_inv _ _ _ _ _ K) as (pre & d & _ & _ & _ & _ & ->).
    split; cbn [snake Parts Direction]; [discriminate | by rewrite Hdir2].
  - destruct (advance_inv _ _ _ _ K) as (_ & _ & _ & _ & _ & _ & Hd & _ & Hlen & _).
    split; [| by rewrite Hd, Hdir2].
    intros E. rewrite E in Hlen. apply lookup_lt_Some in Hhead2.
    cbn [length] in Hlen. lia.
Qed.

Lemma handleGameLogic_body_reads_head draws g :
  body_invariant g -> handleGameLogic_body draws g <> Panic IndexOutOfRange.
Proof.
  intros [Hparts Hdir].
  destruct (Parts (snake g)) as [| head t] eqn:E; [done |].
  assert (Hhead : Parts (snake g) !! 0%nat = Some head) by (by rewrite E).
  rewrite handleGameLogic_body_phases, (index_Some _ _ _ Hhead).
  cbn [mbind result_bind]. cbv zeta. rewrite hitWall_eq.
  destruct (selfBite _ _) as [g2 | e | |] eqn:B; cbn [mbind result_bind]; try done.
  - apply (selfBite_keeps_head (set_gameOver _ g) head g2 Hhead Hdir) in B
      as [Hhead2 _].
    destruct (Point_eqb _ (food g2)); [apply eat_no_index_panic |].
    destruct (gameOver g2) eqn:Hgo; [by rewrite advance_over |].
    destruct (Parts (snake g2)) as [| h2 t2] eqn:E2; [discriminate Hhead2 |].
    by rewrite (advance_move _ _ h2 t2).
  - intros [= ->]. by destruct (selfBite_never_blocks (set_gameOver
      (gameOver g || collidesWithWall g (Exec (Direction (snake g)) head)) g)
      (Exec (Direction (snake g)) head)) as (_ & _ & Hno).
Qed.

(** *** Runs *)

Lemma step_invariant e draws g g' rest :
  body_invariant g -> step e draws g = Ok (g', rest) -> body_invariant g'.
Proof.
  intros Hinv. destruct e as [| code name]; cbn [step].
  - by apply handleGameLogic_body_invariant.
  - destruct (KeyUp code name g) as [g1 | | |] eqn:K; try discriminate.
    intros [= <- <-]. by apply (KeyUp_invariant code name g).
Qed.

Lemma step_reads_head e draws g :
  body_invariant g -> step e draws g <> Panic IndexOutOfRange.
Proof.
  intros Hinv. destruct e as [| code name]; cbn [step].
  - by apply handleGameLogic_body_reads_head.
  - pose proof (KeyUp_no_panic code name g IndexOutOfRange) as Hk.
    destruct (KeyUp code name g) as [g1 | e | |]; cbn [mbind result_bind]; try done.
    intros [= ->]. by destruct Hk.
Qed.

Lemma run_invariant es draws g g' rest :
  body_invariant g -> run es draws g = Ok (g', rest) -> body_invariant g'.
Proof.
  revert draws g. induction es as [| e es IH]; intros draws g Hinv; cbn [run].
  - by intros [= <- <-].
  - destruct (step e draws g) as [[g1 draws1] | | |] eqn:S; try discriminate.
    cbn [mbind result_bind]. apply IH. by apply (step_invariant e draws g g1 draws1).
Qed.

Lemma run_reads_head es draws g :
  body_invariant g -> run es draws g <> Panic IndexOutOfRange.
Proof.
  revert draws g. induction es as [| e es IH]; intros draws g Hinv; cbn [run]; [done |].
  pose proof (step_reads_head e draws g Hinv) as Hs.
  destruct (step e draws g) as [[g1 draws1] | e1 | |] eqn:S; cbn [mbind result_bind]; try done.
  apply IH. by apply (step_invariant e draws g g1 draws1).
Qed.

Lemma RunGame_invariant draws g rest :
  RunGame draws = Ok (g, rest) -> body_invariant g.
Proof.
  unfold RunGame. intros H.
  destruct (foodGeneration_inv _ _ _ _ H) as (pre & d & _ & _ & _ & ->).
  split; cbn; [discriminate | unfold valid_dir; auto].
Qed.

(** *** When a round returns *)

Lemma eat_returns draws g p :
  Exists (fun d => ~ on_snake (set_snake (Add (snake g) p) g) d) draws ->
  GoInt.sub (speed (param g)) 5 <> 0 ->
  returns (eat draws g p).
Proof.
  intros Hex Hs. apply foodGeneration_returns in Hex as [[g1 rest] F].
  destruct (foodGeneration_inv _ _ _ _ F) as (pre & d & -> & Hpre & Hd & _).
  eexists. by apply eat_accepts.
Qed.

(** A round returns whenever the body has a head, the direction is a
    named one, the size counter and the decreased speed are not zero,
    and some draw is off the food cell and off the body. *)
Lemma handleGameLogic_body_returns draws g :
  body_invariant g ->
  Size (snake g) <> 0 ->
  GoInt.sub (speed (param g)) 5 <> 0 ->
  Exists (fun d => draw_point d ∉ food g :: Parts (snake g)) draws ->
  returns (handleGameLogic_body draws g).
Proof.
  intros [Hparts Hdir] Hsize Hspeed Hex.
  destruct (Parts (snake g)) as [| head t] eqn:E; [done |].
  assert (Hhead : Parts (snake g) !! 0%nat = Some head) by (by rewrite E).
  rewrite handleGameLogic_body_phases, (index_Some _ _ _ Hhead).
  cbn [mbind result_bind]. cbv zeta. rewrite hitWall_eq.
  set (newPos := Exec (Direction (snake g)) head).
  set (g1 := set_gameOver (gameOver g || collidesWithWall g newPos) g).
  assert (B : exists g2, selfBite g1 newPos = Ok g2).
  { destruct (decide (newPos ∈ Parts (snake g1))) as [Hin | Hout].
    - destruct (first_at_exists _ _ Hin) as [i Hi].
      eexists. by apply (selfBite_found g1 newPos i).
    - eexists. by apply selfBite_absent. }
  destruct B as [g2 B]. rewrite B. cbn [mbind result_bind].
  destruct (selfBite_keeps_head g1 head g2 Hhead Hdir B) as [Hhead2 _].
  destruct (selfBite_inv _ _ _ B) as (Hp & Hf & _ & _ & _ & _ & Hcase).
  destruct (Point_eqb newPos (food g2)) eqn:Efood.
  - apply Point_eqb_eq in Efood. apply eat_returns; [| by rewrite Hp].
    eapply Exists_impl; [exact Hex |]. intros d Hd Hon. apply Hd.
    unfold on_snake in Hon. cbn [snake set_snake Add set_Parts Parts app] in Hon.
    apply elem_of_cons. apply elem_of_cons in Hon as [Hon | Hon].
    + left. by rewrite Hon, Efood, Hf.
    + right. rewrite <- E.
      destruct Hcase as [[_ ->] | (i & _ & _ & Hparts2 & _)]; [exact Hon |].
      rewrite Hparts2 in Hon. apply elem_of_take in Hon as (j & Hj & _).
      by apply list_elem_of_lookup_2 in Hj.
  - destruct (gameOver g2) eqn:Hgo; [eexists; by apply advance_over |].
    destruct (Parts (snake g2)) as [| h2 t2] eqn:E2; [discriminate Hhead2 |].
    eexists. by apply (advance_move _ _ h2 t2).
Qed.

(** *** The coordinates stay on the grid *)

Lemma selfBite_grid g p g2 :
  grid_invariant g -> selfBite g p = Ok g2 -> grid_invariant g2.
Proof.
  intros [Hbody Hfood] B.
  destruct (selfBite_inv _ _ _ B) as (_ & Hf & _ & _ & _ & _ & Hcase).
  split; [| by rewrite Hf].
  destruct Hcase as [[_ ->] | (i & _ & _ & -> & _)]; [done |].
  by apply Forall_take.
Qed.

Lemma handleGameLogic_body_grid draws g g' rest :
  grid_invariant g -> Forall draw_ok draws ->
  handleGameLogic_body draws g = Ok (g', rest) ->
  grid_invariant g' /\ Forall draw_ok rest.
Proof.
  intros Hgrid Hok H.
  destruct (handleGameLogic_body_inv _ _ _ _ H) as (head & g2 & Hhead & B & K).
  pose proof (selfBite_inv _ _ _ B) as (_ & _ & _ & Hgo2 & _).
  rewrite hitWall_eq in B, Hgo2. cbn [gameOver set_gameOver] in Hgo2.
  assert (Hgrid2 : grid_invariant g2).
  { eapply selfBite_grid; [| exact B]. exact Hgrid. }
  destruct Hgrid2 as [Hbody2 Hfood2].
  destruct (Point_eqb _ (food g2)) eqn:E.
  - apply Point_eqb_eq in E.
    destruct (eat_inv _ _ _ _ _ K) as (pre & d & -> & _ & _ & _ & ->).
    apply Forall_app in Hok as [_ Hok]. apply Forall_cons in Hok as [Hd Hok].
    split; [| exact Hok]. split; cbn [snake Parts food].
    + constructor; [by rewrite E | exact Hbody2].
    + by apply draw_ok_in_grid.
  - destruct (advance_inv _ _ _ _ K) as (-> & _ & Hf & _ & _ & _ & _ & _ & _ & Hcase).
    split; [| exact Hok].
    destruct Hcase as [[_ ->] | (Hrun & _ & h & t & Hparts & Hparts')]; [by split |].
    split; [rewrite Hparts' | by rewrite Hf].
    rewrite Hgo2 in Hrun. apply orb_false_iff in Hrun as [_ Hwall].
    apply collidesWithWall_false in Hwall.
    pose proof (selfBite_inv _ _ _ B) as (_ & _ & _ & _ & _ & Hd & _).
    cbn [snake set_gameOver] in Hd. rewrite Hd.
    assert (h = head) as ->.
    { destruct (selfBite_inv _ _ _ B) as (_ & _ & _ & _ & _ & _ & Hcase).
      destruct Hcase as [[_ ->] | (i & Hi & _ & Hp & _)].
      - cbn [snake set_gameOver] in Hparts. rewrite Hparts in Hhead. by injection Hhead.
      - cbn [snake set_gameOver] in Hp, Hi. rewrite Hparts in Hp.
        destruct i as [| i]; [by rewrite take_0 in Hp |].
        destruct (Parts (snake g)) as [| h0 t0]; [discriminate Hhead |].
        cbn in Hp, Hhead. congruence. }
    constructor; [exact Hwall |].
    rewrite <- Hparts. by apply Forall_take.
Qed.

Lemma KeyUp_grid code name g g' :
  grid_invariant g -> KeyUp code name g = Ok g' -> grid_invariant g'.
Proof.
  intros [Hbody Hfood]. unfold KeyUp.
  repeat match goal with
         | |- context [if ?b then _ else _] => destruct b
         end; intros [= <-]; try (by split).
  split; [| exact Hfood].
  change (Forall in_grid [mkPoint 3 1; mkPoint 2 1; mkPoint 1 1]).
  repeat (constructor; [unfold in_grid, cellsCount; cbn; lia |]). constructor.
Qed.

Lemma step_grid e draws g g' rest :
  grid_invariant g -> Forall draw_ok draws ->
  step e draws g = Ok (g', rest) ->
  grid_invariant g' /\ Forall draw_ok rest.
Proof.
  intros Hgrid Hok. destruct e as [| code name]; cbn [step].
  - by apply handleGameLogic_body_grid.
  - destruct (KeyUp code name g) as [g1 | | |] eqn:K; try discriminate.
    intros [= <- <-]. split; [| exact Hok]. by apply (KeyUp_grid code name g).
Qed.

(** Along every run of rounds and key events, whatever they are, the
    body and the food stay on the grid; the prospective head of a round
    is then at most one step outside it. *)
Lemma run_grid_invariant es draws g g' rest :
  grid_invariant g -> Forall draw_ok draws ->
  run es draws g = Ok (g', rest) ->
  grid_invariant g' /\ Forall draw_ok rest.
Proof.
  revert draws g. induction es as [| e es IH]; intros draws g Hgrid Hok; cbn [run].
  - by intros [= <- <-].
  - destruct (step e draws g) as [[g1 draws1] | | |] eqn:S; try discriminate.
    cbn [mbind result_bind].
    destruct (step_grid _ _ _ _ _ Hgrid Hok S) as [Hgrid1 Hok1]. by apply IH.
Qed.

Lemma RunGame_grid draws g rest :
  Forall draw_ok draws -> RunGame draws = Ok (g, rest) ->
  grid_invariant g /\ Forall draw_ok rest.
Proof.
  unfold RunGame. intros Hok H.
  destruct (foodGeneration_inv _ _ _ _ H) as (pre & d & -> & _ & _ & ->).
  apply Forall_app in Hok as [_ Hok]. apply Forall_cons in Hok as [Hd Hok].
  split; [| exact Hok]. split; cbn [snake food set_food].
  - change (Forall in_grid [mkPoint 3 1; mkPoint 2 1; mkPoint 1 1]).
    repeat (constructor; [unfold in_grid, cellsCount; cbn; lia |]). constructor.
  - by apply draw_ok_in_grid.
Qed.

Lemma prospective_head_range d p :
  in_grid p -> -1 <= X (Exec d p) <= cellsCount /\ -1 <= Y (Exec d p) <= cellsCount.
Proof.
  unfold in_grid, cellsCount, Exec, up, down, left, right. intros [Hx Hy].
  repeat match goal with
         | |- context [if ?b then _ else _] => destruct b
         end; cbn; lia.
Qed.

(** On the integers from [-2] to [21], which include every coordinate
    of a run and the constants the program compares them with,
    [float64] addition and subtraction of [1] and the comparisons are
    those of the integers. *)
Lemma float64_exact_on_grid :
  forallb (Float64.exact_at (-2) 24) (Float64.zrange (-2) 24) = true.
Proof. vm_compute. reflexivity. Qed.

(** *** Scenarios *)

(** The first round of a game: the snake of [Reset], no food ahead. *)
Example round_after_Reset :
  let g := setSnake (NewGame NewGameParam) (Reset NewSnake) in
  handleGameLogic_body [] (set_food (mkPoint 7 5) g)
  = Ok (mkGame (mkGameParam 300)
          (mkSnake right [mkPoint 4 1; mkPoint 3 1; mkPoint 2 1] 3)
          (mkPoint 7 5) 0 0 false true false, []).
Proof. reflexivity. Qed.

(** A key against the direction of travel is ignored, one across it is
    taken, and a second key before the next round is ignored. *)
Example keys_between_rounds :
  let g := mkGame (mkGameParam 300)
             (mkSnake right [mkPoint 4 1; mkPoint 3 1; mkPoint 2 1] 3)
             (mkPoint 7 5) 0 0 false true false in
  KeyUp 80 "Left" g = Ok g /\
  KeyUp 81 "Down" g
  = Ok (set_needMove false (set_snake (set_Direction up (snake g)) g)) /\
  (g1 ← KeyUp 81 "Down" g; KeyUp 82 "Up" g1)
  = Ok (set_needMove false (set_snake (set_Direction up (snake g)) g)).
Proof. repeat split. Qed.

(** A round on the empty body of [NewSnake], before any [Reset], stops
    the program. *)
Example round_on_empty_body :
  handleGameLogic_body [] (setSnake (NewGame NewGameParam) NewSnake)
  = Panic IndexOutOfRange.
Proof. reflexivity. Qed.

(** The sixtieth food brings the speed to zero, and scoring it divides
    by zero. *)
Example sixtieth_food :
  let g := mkGame (mkGameParam 5)
             (mkSnake right [mkPoint 3 1; mkPoint 2 1; mkPoint 1 1] 3)
             (mkPoint 4 1) 0 59 false true false in
  handleGameLogic_body [(7, 5)] g = Panic IntegerDivideByZero.
Proof. reflexivity. Qed.

End Round.

(** ** Properties of one round *)

(** C4.  In every round that returns, the flag [gameOver] afterwards is
    the flag before or the wall test of the prospective head, and the
    wall test holds exactly of the positions outside
    [[0, cellsCount-1]] on some axis: a running game is over after the
    round exactly when the prospective head is outside the grid.  With
    the body and the food on the grid, a round whose prospective head
    is outside the grid returns with the flag set and nothing else
    changed.  A round whose prospective head is inside the grid and on
    the body returns with the flag as it was and with the body cut down
    to the cells in front of the bite. *)
Theorem gameOver_by_wall_only (g : Game) (draws : list draw) (head : Point) :
  Parts (snake g) !! 0%nat = Some head ->
  let newPos := Exec (Direction (snake g)) head in
  (forall g' rest,
     handleGameLogic_body draws g = Ok (g', rest) ->
     gameOver g' = gameOver g || collidesWithWall g newPos /\
     (gameOver g = false -> (gameOver g' = true <-> ~ in_grid newPos))) /\
  (collidesWithWall g newPos = true <-> ~ in_grid newPos) /\
  (~ in_grid newPos -> Forall in_grid (Parts (snake g)) -> in_grid (food g) ->
   handleGameLogic_body draws g = Ok (set_gameOver true g, draws)) /\
  (forall i,
     in_grid newPos -> first_at (Parts (snake g)) newPos i ->
     valid_dir (Direction (snake g)) -> Size (snake g) <> 0 -> newPos <> food g ->
     exists g',
       handleGameLogic_body draws g = Ok (g', draws) /\
       gameOver g' = gameOver g /\
       length (Parts (snake g')) = i /\ (i < length (Parts (snake g)))%nat).
Proof.
  intros Hhead newPos. split; [| split; [| split]].
  - intros g' rest H.
    pose proof (handleGameLogic_body_gameOver _ _ _ _ _ Hhead H) as Hgo.
    fold newPos in Hgo. split; [exact Hgo |].
    intros Hrun. rewrite Hgo, Hrun. cbn [orb]. apply collidesWithWall_true.
  - apply collidesWithWall_true.
  - intros Hout Hbody Hfood.
    apply (handleGameLogic_body_stopped draws g head); fold newPos.
    + exact Hhead.
    + intros Hin. rewrite Forall_forall in Hbody. by apply Hout, Hbody.
    + intros E. apply Hout. by rewrite E.
    + apply orb_true_iff. right. by apply collidesWithWall_true.
  - intros i Hin Hi Hdir Hsize Hfood.
    assert (Hpos : (0 < i)%nat).
    { destruct i as [| i]; [| lia]. destruct Hi as [Hi _].
      rewrite Hhead in Hi. injection Hi as Hi.
      by destruct (Exec_moves _ head Hdir). }
    destruct (handleGameLogic_body_bite draws g head i Hhead Hi Hpos Hsize Hfood)
      as (g' & Hrun & Hlen & _ & _ & Hgo & _).
    exists g'. split; [exact Hrun |]. split; [| split; [exact Hlen |]].
    + rewrite Hgo. fold newPos.
      apply collidesWithWall_false with (g := g) in Hin. rewrite Hin.
      apply orb_false_r.
    + by apply first_at_lt in Hi.
Qed.

Lemma gameOver_by_wall_only_witness :
  let g := mkGame (mkGameParam 300)
             (mkSnake right [mkPoint 19 1; mkPoint 18 1; mkPoint 17 1] 3)
             (mkPoint 7 5) 0 0 false true false in
  Exec right (mkPoint 19 1) = mkPoint 20 1 /\
  handleGameLogic_body [] g = Ok (set_gameOver true g, []) /\
  gameOver (set_gameOver true g) = true.
Proof.
  intros g. split; [reflexivity |]. split; [| reflexivity].
  assert (Hhead : Parts (snake g) !! 0%nat = Some (mkPoint 19 1)) by reflexivity.
  apply (proj1 (proj2 (proj2 (gameOver_by_wall_only g [] (mkPoint 19 1) Hhead)))).
  - unfold in_grid, cellsCount. cbn. lia.
  - cbn. repeat (constructor; [unfold in_grid, cellsCount; cbn; lia |]). constructor.
  - unfold in_grid, cellsCount. cbn. lia.
Defined.

(** Against C1 as stated, [score * newLength / oldLength]: a snake of
    five cells coiled so that its head turns into its own cell of index
    3 keeps three cells, and its score of 9 becomes [9 / 5 * 3 = 3],
    not [9 * 3 / 5 = 5]; in the scenario of index 2, the score of 9
    becomes [9 / 5 * 2 = 2], not [9 * 2 / 5 = 3]. *)
Lemma self_bite_score_counterexample :
  let g3 := mkGame (mkGameParam 290)
              (mkSnake up [mkPoint 0 0; mkPoint 1 0; mkPoint 1 1; mkPoint 0 1; mkPoint 0 2] 5)
              (mkPoint 7 5) 9 2 false true false in
  let g2 := mkGame (mkGameParam 290)
              (mkSnake up [mkPoint 5 5; mkPoint 5 4; mkPoint 5 6; mkPoint 6 6; mkPoint 7 6] 5)
              (mkPoint 7 5) 9 2 false true false in
  (exists g',
     handleGameLogic_body [] g3 = Ok (g', []) /\
     length (Parts (snake g3)) = 5%nat /\ length (Parts (snake g')) = 3%nat /\
     score g' = 3 /\
     score g3 * Z.of_nat (length (Parts (snake g'))) / Z.of_nat (length (Parts (snake g3))) = 5 /\
     score g' <>
       score g3 * Z.of_nat (length (Parts (snake g'))) / Z.of_nat (length (Parts (snake g3)))) /\
  (exists g',
     handleGameLogic_body [] g2 = Ok (g', []) /\
     length (Parts (snake g2)) = 5%nat /\ length (Parts (snake g')) = 2%nat /\
     score g' = 2 /\
     score g2 * Z.of_nat (length (Parts (snake g'))) / Z.of_nat (length (Parts (snake g2))) = 3 /\
     score g' <>
       score g2 * Z.of_nat (length (Parts (snake g'))) / Z.of_nat (length (Parts (snake g2)))).
Proof.
  intros g3 g2.
  split; eexists; (split; [vm_compute; reflexivity |]); vm_compute; by repeat split.
Qed.

(** C2, as the code has it.  In a round that eats the food, the speed
    is first decreased by 5 and the score then grows by
    [1000 / speed * 4] for a corner cell, [1000 / speed * 2] for an
    edge cell that is not a corner, and [1000 / speed] for any other
    cell, where [speed] is the decreased value, the one the next round
    is timed with, and the division truncates.  (The round is taken
    without a bite, with a decreased speed other than zero, and with a
    draw [d] off the grown body after draws [pre] on it.) *)
Theorem food_score_by_new_speed
    (g : Game) (pre : list draw) (d : draw) (rest : list draw) (head : Point) :
  Parts (snake g) !! 0%nat = Some head ->
  Exec (Direction (snake g)) head = food g ->
  (food g ∉ Parts (snake g)) ->
  Forall (fun d' => draw_point d' ∈ food g :: Parts (snake g)) pre ->
  (draw_point d ∉ food g :: Parts (snake g)) ->
  GoInt.sub (speed (param g)) 5 <> 0 ->
  exists g',
    handleGameLogic_body (pre ++ d :: rest) g = Ok (g', rest) /\
    speed (param g') = GoInt.sub (speed (param g)) 5 /\
    (IsCorner (food g) = true ->
     score g' = GoInt.add (score g) (1000 ÷ speed (param g') * 4)) /\
    (IsCorner (food g) = false -> IsEdge (food g) = true ->
     score g' = GoInt.add (score g) (1000 ÷ speed (param g') * 2)) /\
    (IsCorner (food g) = false -> IsEdge (food g) = false ->
     score g' = GoInt.add (score g) (1000 ÷ speed (param g'))) /\
    (5 < speed (param g) <= GoInt.max_int -> 0 <= score g <= GoInt.max_int - 4000 ->
     score g' = score g + 1000 / (speed (param g) - 5) * weight (food g)).
Proof.
  intros Hhead Hfood Hout Hpre Hd Hs.
  eexists. split; [by apply (handleGameLogic_body_eats pre d rest g head) |].
  cbn [param speed score]. split; [reflexivity |].
  unfold weight. repeat split.
  - by intros ->.
  - by intros -> ->.
  - intros -> ->. by rewrite Z.mul_1_r.
  - intros Hsp Hsc.
    assert (Hsub : GoInt.sub (speed (param g)) 5 = speed (param g) - 5).
    { apply wrap_in_range.
      unfold GoInt.in_range, GoInt.min_int, GoInt.max_int in *. lia. }
    rewrite Hsub. rewrite Z.quot_div_nonneg by lia.
    apply wrap_in_range.
    assert (0 <= 1000 / (speed (param g) - 5) <= 1000).
    { split; [apply Z.div_pos; lia |]. apply Z.div_le_upper_bound; lia. }
    assert (1 <= (if IsCorner (food g) then 4 else if IsEdge (food g) then 2 else 1) <= 4)
      by (destruct (IsCorner (food g)), (IsEdge (food g)); lia).
    unfold GoInt.in_range, GoInt.min_int, GoInt.max_int in *. nia.
Qed.

Lemma food_score_by_new_speed_witness :
  let g := mkGame (mkGameParam 300)
             (mkSnake right [mkPoint 18 0; mkPoint 17 0; mkPoint 16 0] 3)
             (mkPoint 19 0) 0 0 false true false in
  exists g',
    handleGameLogic_body ([(18, 0)] ++ (7, 5) :: []) g = Ok (g', []) /\
    speed (param g') = GoInt.sub 300 5 /\
    score g' = GoInt.add 0 (1000 ÷ speed (param g') * 4).
Proof.
  intros g.
  destruct (food_score_by_new_speed g [(18, 0)] (7, 5) [] (mkPoint 18 0))
    as (g' & Hrun & Hsp & Hcorner & _).
  - reflexivity.
  - reflexivity.
  - cbn. intros Hin.
    repeat (apply elem_of_cons in Hin as [Hin | Hin]; [discriminate |]).
    by apply elem_of_nil in Hin.
  - constructor; [| constructor]. cbn. apply elem_of_cons. right. by left.
  - cbn. intros Hin.
    repeat (apply elem_of_cons in Hin as [Hin | Hin]; [discriminate |]).
    by apply elem_of_nil in Hin.
  - discriminate.
  - exists g'. split; [exact Hrun |]. split; [exact Hsp |]. by apply Hcorner.
Defined.

(** Against C2 read with the speed the round started with: after nine
    foods off the edges, each worth 3, the speed is 255 and the score
    27; the tenth such food is worth [1000 / 250 = 4], not
    [1000 / 255 = 3]. *)
Lemma food_score_counterexample :
  let g := mkGame (mkGameParam 255)
             (mkSnake right
                [mkPoint 12 1; mkPoint 11 1; mkPoint 10 1; mkPoint 9 1;
                 mkPoint 8 1; mkPoint 7 1; mkPoint 6 1; mkPoint 5 1;
                 mkPoint 4 1; mkPoint 3 1; mkPoint 2 1; mkPoint 1 1]
                12)
             (mkPoint 13 1) 27 9 false true false in
  exists g',
    handleGameLogic_body [(7, 5)] g = Ok (g', []) /\
    IsCorner (food g) = false /\ IsEdge (food g) = false /\
    speed (param g) = 255 /\ speed (param g') = 250 /\
    score g' - score g = 4 /\ 1000 / speed (param g) = 3 /\
    score g' <> score g + 1000 / speed (param g).
Proof.
  intros g. eexists. split; [vm_compute; reflexivity |]. vm_compute. by repeat split.
Qed.

(** ** Properties of restart and of runs *)

(** C10, round by round and at a restart.  For every snake with a
    non-empty body whose head is a cell of the grid and each of the
    four named directions, the prospective head differs from the
    current head, so that [CutIfSnake] at the prospective head can only
    cut at an index of at least 1 and leaves a non-empty body.  A round
    that starts with a non-empty body on the grid and a named direction
    does not read the head cell [Parts[0]] of an empty body and ends
    with a non-empty body and a named direction; so the rounds of the
    loop, from the state [RunGame] starts it in, never read the head of
    an empty body as long as no key handler runs.

    A restart breaks this.  Once the game is over, which it is after 17
    rounds from the start without a key, Enter makes the handler call
    [restartGame], and [Reset] first empties the body.  The loop runs
    on a goroutine of its own and nothing keeps it out: a round that
    starts in [restarting g], before [Reset] has appended its first
    cell, reads [Parts[0]] of the empty body and stops the program with
    an index out of range.  Only when the call has returned is the body
    non-empty again. *)
Theorem head_read_during_restart :
  let start := setSnake (NewGame NewGameParam) (Reset NewSnake) in
  let over := mkGame (mkGameParam 300)
                (mkSnake right [mkPoint 19 1; mkPoint 18 1; mkPoint 17 1] 3)
                (mkPoint 7 5) 0 0 true true false in
  (forall s d,
     Parts s <> [] -> in_grid (Head s) -> valid_dir d ->
     Exec d (Head s) <> Head s /\
     (forall i, first_at (Parts s) (Exec d (Head s)) i -> (1 <= i)%nat) /\
     Parts (CutIfSnake s (Exec d (Head s))).1 <> []) /\
  (forall g draws,
     body_invariant g -> grid_invariant g ->
     handleGameLogic_body draws g <> Panic IndexOutOfRange /\
     (forall g' rest, handleGameLogic_body draws g = Ok (g', rest) ->
                      body_invariant g')) /\
  (forall draws0 g0 rest0 n,
     Forall draw_ok draws0 -> RunGame draws0 = Ok (g0, rest0) ->
     run (replicate n TimerFired) rest0 g0 <> Panic IndexOutOfRange /\
     (forall g' rest, run (replicate n TimerFired) rest0 g0 = Ok (g', rest) ->
                      Parts (snake g') <> [])) /\
  (forall g code draws,
     gameOver g = true ->
     KeyUp code "Enter" g = Ok (restartGame g) /\
     snake (restartGame g)
     = Reset_loop 1 1 3 (set_Direction right (snake (restarting g))) /\
     Parts (snake (restarting g)) = [] /\
     handleGameLogic_body draws (restarting g) = Panic IndexOutOfRange /\
     Parts (snake (restartGame g)) <> []) /\
  RunGame [(7, 5)] = Ok (set_food (mkPoint 7 5) start, []) /\
  run (replicate 17 TimerFired) [] (set_food (mkPoint 7 5) start) = Ok (over, []) /\
  Parts (snake over) <> [] /\
  KeyUp 40 "Enter" over = Ok (restartGame over) /\
  handleGameLogic_body [] (restarting over) = Panic IndexOutOfRange.
Proof.
  intros start over.
  split; [| split; [| split; [| split]]].
  - intros s d Hparts _ Hdir.
    assert (Hmove : Exec d (Head s) <> Head s) by by apply Exec_moves.
    assert (Hidx : forall i, first_at (Parts s) (Exec d (Head s)) i -> (1 <= i)%nat).
    { intros [| i] [Hi _]; [| lia].
      pose proof (Head_nonempty s Hparts) as Hh. rewrite head_lookup in Hh.
      rewrite Hh in Hi. injection Hi as Hi. by destruct Hmove. }
    split; [exact Hmove |]. split; [exact Hidx |].
    destruct (CutIfSnake_cases s (Exec d (Head s))) as [(i & Hi & ->) | [_ ->]];
      [| exact Hparts].
    cbn [fst Parts set_Parts]. specialize (Hidx i Hi).
    destruct (Parts s) as [| h t]; [done |].
    destruct i as [| i]; [lia | discriminate].
  - intros g draws Hinv _. split.
    + by apply handleGameLogic_body_reads_head.
    + intros g' rest. by apply handleGameLogic_body_invariant.
  - intros draws0 g0 rest0 n _ H0.
    pose proof (RunGame_invariant _ _ _ H0) as Hinv. split.
    + by apply run_reads_head.
    + intros g' rest Hrun. by destruct (run_invariant _ _ _ _ _ Hinv Hrun).
  - intros g code draws Hgo.
    split; [by apply KeyUp_Enter |]. do 3 (split; [reflexivity |]).
    by rewrite restartGame_eq.
  - split; [reflexivity |]. split; [by vm_compute |].
    split; [discriminate |]. by repeat split.
Qed.

Lemma head_read_during_restart_witness :
  let over := mkGame (mkGameParam 300)
                (mkSnake right [mkPoint 19 1; mkPoint 18 1; mkPoint 17 1] 3)
                (mkPoint 7 5) 0 0 true true false in
  (Exec up (Head (snake over)) <> Head (snake over) /\
   Parts (CutIfSnake (snake over) (Exec up (Head (snake over)))).1 <> []) /\
  KeyUp 40 "Enter" over = Ok (restartGame over) /\
  Parts (snake (restarting over)) = [] /\
  handleGameLogic_body [(9, 9)] (restarting over) = Panic IndexOutOfRange.
Proof.
  intros over.
  destruct head_read_during_restart as (Hround & _ & _ & Hrestart & _).
  split.
  - destruct (Hround (snake over) up) as (Hmove & _ & Hcut).
    + discriminate.
    + change (Head (snake over)) with (mkPoint 19 1).
      unfold in_grid, cellsCount. cbn. lia.
    + unfold valid_dir. auto.
    + by split.
  - destruct (Hrestart over 40 [(9, 9)] eq_refl) as (Henter & _ & Hempty & Hpanic & _).
    by repeat split.
Defined.

(** C3, at the restart.  The snake starts with three cells on row 1,
    direction right and a size counter of 3.  A restart after a first
    game again gives the three cells, the direction, a score and a food
    count of 0, the initial speed and a cleared flag; but [Reset] keeps
    counting from the old size counter, which is 6 and not 3 after the
    restart of a game that ended with three cells. *)
Theorem restart_size_counter :
  let over := mkGame (mkGameParam 300)
                (mkSnake right [mkPoint 19 1; mkPoint 18 1; mkPoint 17 1] 3)
                (mkPoint 7 5) 0 0 true true false in
  Reset NewSnake = mkSnake right [mkPoint 3 1; mkPoint 2 1; mkPoint 1 1] 3 /\
  KeyUp 40 "Enter" over =
    Ok (mkGame (mkGameParam startSpeed)
          (mkSnake right [mkPoint 3 1; mkPoint 2 1; mkPoint 1 1] 6)
          (mkPoint 7 5) 0 0 false true false) /\
  (forall g, Parts (snake (restartGame g)) = [mkPoint 3 1; mkPoint 2 1; mkPoint 1 1] /\
             Direction (snake (restartGame g)) = right /\
             Size (snake (restartGame g)) =
               GoInt.add (GoInt.add (GoInt.add (Size (snake g)) 1) 1) 1 /\
             score (restartGame g) = 0 /\ ateFood (restartGame g) = 0 /\
             speed (param (restartGame g)) = startSpeed /\
             gameOver (restartGame g) = false).
Proof.
  intros over. split; [reflexivity |]. split; [reflexivity |].
  intros g. by rewrite restartGame_eq.
Qed.

(** ** The earlier copy of the game, package [modules] *)

Section Legacy.

Implicit Types (s : modules.Snake) (g : modules.Game) (p : Point).

Lemma legacy_IsSnake_true s p : modules.IsSnake s p = true <-> p ∈ modules.Parts s.
Proof.
  unfold modules.IsSnake. rewrite existsb_exists. split.
  - intros (q & Hq & E). apply Point_eqb_eq in E. subst q.
    by apply list_elem_of_In.
  - intros H. exists p. split; [by apply list_elem_of_In | apply Point_eqb_refl].
Qed.

Lemma legacy_CutIfSnake_found s p i :
  first_at (modules.Parts s) p i ->
  modules.CutIfSnake s p = (modules.set_Parts (take i (modules.Parts s)) s, true).
Proof.
  intros H. unfold modules.CutIfSnake.
  by rewrite (CutIfSnake_scan_first_at p (modules.Parts s) 0 i H).
Qed.

Lemma legacy_CutIfSnake_absent s p :
  p ∉ modules.Parts s -> modules.CutIfSnake s p = (s, false).
Proof.
  intros H. unfold modules.CutIfSnake. by rewrite CutIfSnake_scan_absent.
Qed.

Lemma legacy_Move_cons s d h t :
  modules.Parts s = h :: t ->
  modules.Move s d
  = Ok (modules.set_Parts (Exec d h :: take (length t) (h :: t)) s).
Proof.
  intros E. unfold modules.Move. rewrite E.
  cbn [index lookup list_lookup mbind result_bind].
  cbn [insert list_insert].
  replace (length (h :: t) - 1)%nat with (length t) by (cbn [length]; lia).
  change (Exec d h :: t) with ([Exec d h] ++ t).
  by rewrite (Move_loop_shift (length t) 0 [Exec d h] t h).
Qed.

(** [Reset] of the earlier copy appends to whatever body there is. *)
Lemma legacy_Reset_eq s :
  modules.Reset s =
  modules.mkSnake (modules.Parts s ++ [mkPoint 3 1; mkPoint 2 1; mkPoint 1 1])
    (GoInt.add (GoInt.add (GoInt.add (modules.Size s) 1) 1) 1).
Proof.
  unfold modules.Reset. cbn [modules.Reset_loop modules.set_Parts modules.set_Size
    modules.Parts modules.Size].
  by rewrite <- !app_assoc.
Qed.

(** The sampling loop of the earlier copy returns only while the game
    runs, and then with a food cell of the grid that is off the body. *)
Lemma legacy_FoodGeneration_spec draws g g' rest :
  Forall draw_ok draws ->
  modules.FoodGeneration draws g = Ok (g', rest) ->
  modules.gameOver g = false /\ in_grid (modules.food g') /\
  (modules.food g' ∉ modules.Parts (modules.snake g)) /\
  modules.snake g' = modules.snake g.
Proof.
  induction draws as [| [r1 r2] draws IH]; intros Hok H.
  - cbn in H. by destruct (modules.gameOver g).
  - cbn [modules.FoodGeneration] in H.
    destruct (modules.gameOver g) eqn:Hgo; [discriminate H |]. cbn [negb] in H.
    apply Forall_cons in Hok as [[Hx Hy] Hok]. cbn in Hx, Hy.
    assert (E1 : GoInt.add r1 0 = r1).
    { unfold GoInt.add. rewrite Z.add_0_r. apply wrap_in_range.
      unfold GoInt.in_range, GoInt.min_int, GoInt.max_int, cellsCount in *. lia. }
    assert (E2 : GoInt.add r2 0 = r2).
    { unfold GoInt.add. rewrite Z.add_0_r. apply wrap_in_range.
      unfold GoInt.in_range, GoInt.min_int, GoInt.max_int, cellsCount in *. lia. }
    rewrite E1, E2 in H.
    destruct (modules.IsSnake (modules.snake g) (mkPoint r1 r2)) eqn:S.
    + exact (IH Hok H).
    + injection H as <- <-. split; [done |]. cbn [modules.food modules.set_food].
      split; [| split; [| done]].
      * unfold in_grid. cbn. unfold cellsCount in *. lia.
      * intros Hin. apply legacy_IsSnake_true in Hin. congruence.
Qed.

Lemma legacy_FoodGeneration_accepts d draws g :
  modules.gameOver g = false -> draw_ok d ->
  (draw_point d ∉ modules.Parts (modules.snake g)) ->
  modules.FoodGeneration (d :: draws) g = Ok (modules.set_food (draw_point d) g, draws).
Proof.
  intros Hgo [Hx Hy] Hout. destruct d as [r1 r2]. cbn in Hx, Hy.
  cbn [modules.FoodGeneration]. rewrite Hgo. cbn [negb].
  assert (E1 : GoInt.add r1 0 = r1).
  { unfold GoInt.add. rewrite Z.add_0_r. apply wrap_in_range.
    unfold GoInt.in_range, GoInt.min_int, GoInt.max_int, cellsCount in *. lia. }
  assert (E2 : GoInt.add r2 0 = r2).
  { unfold GoInt.add. rewrite Z.add_0_r. apply wrap_in_range.
    unfold GoInt.in_range, GoInt.min_int, GoInt.max_int, cellsCount in *. lia. }
  rewrite E1, E2.
  destruct (modules.IsSnake (modules.snake g) (mkPoint r1 r2)) eqn:S; [| done].
  apply legacy_IsSnake_true in S. by destruct Hout.
Qed.

(** Once the game is over, the sampling loop of the earlier copy spins
    without returning. *)
Lemma legacy_FoodGeneration_over draws g :
  modules.gameOver g = true -> modules.FoodGeneration draws g = Blocked.
Proof. intros H. destruct draws; cbn; by rewrite H. Qed.

(** The self-bite of the earlier copy rescales the score in the same
    way, by [score / Size * newSize]. *)
Lemma legacy_self_bite_score snakeDirection draws g head i :
  modules.gameOver g = false ->
  modules.Parts (modules.snake g) !! 0%nat = Some head ->
  first_at (modules.Parts (modules.snake g)) (Exec snakeDirection head) i ->
  (0 < i)%nat -> modules.Size (modules.snake g) <> 0 ->
  Exec snakeDirection head <> modules.food g ->
  exists g',
    modules.SnakeMovement_body snakeDirection draws g = Ok (g', draws) /\
    length (modules.Parts (modules.snake g')) = i /\
    modules.Size (modules.snake g') = Z.of_nat i /\
    modules.score g' =
      GoInt.mul (GoInt.wrap (modules.score g ÷ modules.Size (modules.snake g)))
        (Z.of_nat i).
Proof.
  destruct g as [[ps sz] fo sc af sp go nm].
  cbn [modules.gameOver modules.Parts modules.snake modules.Size modules.food
       modules.score].
  intros -> Hhead Hi Hpos Hsize Hfood.
  unfold modules.SnakeMovement_body.
  cbn [negb modules.snake modules.Parts modules.gameOver].
  rewrite (index_Some _ _ _ Hhead). cbn [mbind result_bind]. cbv zeta.
  set (newPos := Exec snakeDirection head) in *.
  pose proof (first_at_lt _ _ _ Hi) as Hlt.
  destruct (take i ps) as [| h t] eqn:T.
  { apply (f_equal length) in T. rewrite length_take in T. cbn in T. lia. }
  assert (Hlen : length (h :: t) = i) by (rewrite <- T, length_take; lia).
  assert (E : Point_eqb newPos fo = false) by by apply Point_eqb_neq.
  assert (Hcut :
    modules.CutIfSnake (modules.mkSnake ps sz) newPos
    = (modules.mkSnake (h :: t) sz, true)).
  { rewrite (legacy_CutIfSnake_found _ _ i) by exact Hi.
    cbn [modules.snake modules.set_Parts modules.Parts modules.Size]. by rewrite T. }
  destruct ((X newPos <? 0) || (X newPos >? 19) || (Y newPos <? 0) || (Y newPos >? 19));
    unfold modules.set_gameOver;
    cbn [modules.snake modules.food modules.score modules.ateFood
         modules.speed modules.gameOver modules.needMove];
    rewrite Hcut;
    unfold modules.set_snake, modules.set_score, modules.set_Size;
    cbn [modules.snake modules.food modules.score modules.ateFood
         modules.speed modules.gameOver modules.needMove modules.Size modules.Parts];
    rewrite (div_Ok _ _ Hsize);
    cbn [mbind result_bind modules.snake modules.food modules.score modules.ateFood
         modules.speed modules.gameOver modules.needMove modules.Size modules.Parts];
    rewrite E; cbn [mbind result_bind negb andb modules.gameOver].
  - eexists. split; [reflexivity |].
    cbn [modules.snake modules.Parts modules.Size modules.score].
    unfold GoInt.len. rewrite Hlen. by repeat split.
  - erewrite legacy_Move_cons by reflexivity. cbn [mbind result_bind].
    eexists. split; [reflexivity |].
    cbn [modules.snake modules.set_needMove modules.set_snake modules.set_Parts
         modules.Parts modules.Size modules.score].
    unfold GoInt.len. rewrite Hlen. repeat split.
    cbn [length]. rewrite length_take. cbn [length] in *. lia.
Qed.

(** In the earlier copy the score of a food cell is computed before the
    speed is decreased, that is with the speed the round started with;
    [d1] and [d2] are the draws its two calls of [FoodGeneration]
    accept. *)
Lemma legacy_food_score_old_speed snakeDirection d1 d2 rest g head :
  modules.gameOver g = false ->
  modules.Parts (modules.snake g) !! 0%nat = Some head ->
  Exec snakeDirection head = modules.food g ->
  in_grid (modules.food g) ->
  (modules.food g ∉ modules.Parts (modules.snake g)) ->
  modules.speed g <> 0 ->
  draw_ok d1 -> (draw_point d1 ∉ modules.Parts (modules.snake g)) ->
  draw_ok d2 -> (draw_point d2 ∉ modules.food g :: modules.Parts (modules.snake g)) ->
  exists g',
    modules.SnakeMovement_body snakeDirection (d1 :: d2 :: rest) g = Ok (g', rest) /\
    modules.score g' =
      GoInt.add (modules.score g) (1000 ÷ modules.speed g * weight (modules.food g)) /\
    modules.speed g' = GoInt.sub (modules.speed g) 5 /\
    modules.food g' = draw_point d2 /\
    modules.Parts (modules.snake g') = modules.food g :: modules.Parts (modules.snake g).
Proof.
  destruct g as [[ps sz] fo sc af sp go nm].
  cbn [modules.gameOver modules.Parts modules.snake modules.Size modules.food
       modules.score modules.speed].
  intros -> Hhead Hfood Hgrid Hout Hsp Hok1 Hd1 Hok2 Hd2.
  unfold modules.SnakeMovement_body.
  cbn [negb modules.snake modules.Parts modules.gameOver].
  rewrite (index_Some _ _ _ Hhead). cbn [mbind result_bind]. cbv zeta.
  rewrite Hfood.
  assert (Hwall : (X fo <? 0) || (X fo >? 19) || (Y fo <? 0) || (Y fo >? 19) = false).
  { unfold in_grid, cellsCount in Hgrid.
    rewrite !orb_false_iff, !Z.ltb_ge, !Z.gtb_ltb, !Z.ltb_ge. lia. }
  rewrite Hwall.
  cbn [modules.snake].
  rewrite (legacy_CutIfSnake_absent (modules.mkSnake ps sz) fo Hout).
  unfold modules.set_snake at 1 2.
  cbn [mbind result_bind modules.snake modules.food modules.score modules.ateFood
       modules.speed modules.gameOver modules.needMove].
  rewrite Point_eqb_refl.
  assert (Hscore : forall g0, modules.speed g0 = sp ->
    modules.foodScore g0 fo
    = Ok (modules.set_score (GoInt.add (modules.score g0) (1000 ÷ sp * weight fo)) g0)).
  { intros g0 E0. unfold modules.foodScore, weight, IsCorner, IsEdge, cellsCount.
    rewrite E0, (div_Ok _ _ Hsp), (wrap_quot_1000 _ Hsp).
    cbn [mbind result_bind]. change (20 - 1) with 19.
    destruct ((X fo =? 0) && (Y fo =? 0) || (X fo =? 0) && (Y fo =? 19)
              || (X fo =? 19) && (Y fo =? 0) || (X fo =? 19) && (Y fo =? 19)).
    - by rewrite mul_quot_1000 by (done || lia).
    - destruct ((X fo =? 0) || (Y fo =? 0) || (X fo =? 19) || (Y fo =? 19)).
      + by rewrite mul_quot_1000 by (done || lia).
      + by rewrite Z.mul_1_r. }
  rewrite Hscore by reflexivity. cbn [mbind result_bind].
  rewrite legacy_FoodGeneration_accepts; [| reflexivity | exact Hok1 | exact Hd1].
  cbn [mbind result_bind].
  rewrite legacy_FoodGeneration_accepts; [| reflexivity | exact Hok2 | exact Hd2].
  cbn [mbind result_bind negb andb].
  eexists. split; [reflexivity |]. by repeat split.
Qed.

End Legacy.

(** ** The two packages side by side

    [CutIfSnake], the sampling loop and the rescaling of the score
    after a self-bite exist in both packages; each property is stated
    for the function of package [game] and for the one of package
    [modules]. *)

Lemma legacy_SnakeMovement_body_bite snakeDirection draws (g : modules.Game) head i :
  modules.gameOver g = false ->
  modules.Parts (modules.snake g) !! 0%nat = Some head ->
  first_at (modules.Parts (modules.snake g)) (Exec snakeDirection head) i ->
  (0 < i)%nat -> modules.Size (modules.snake g) <> 0 ->
  Exec snakeDirection head <> modules.food g ->
  exists g',
    modules.SnakeMovement_body snakeDirection draws g = Ok (g', draws) /\
    length (modules.Parts (modules.snake g')) = i /\
    modules.Size (modules.snake g') = Z.of_nat i /\
    modules.score g' =
      GoInt.mul (GoInt.wrap (modules.score g ÷ modules.Size (modules.snake g)))
        (Z.of_nat i).
Proof.
  destruct g as [[ps sz] fo sc af sp go nm].
  cbn [modules.gameOver modules.Parts modules.snake modules.Size modules.food
       modules.score].
  intros -> Hhead Hi Hpos Hsize Hfood.
  unfold modules.SnakeMovement_body.
  cbn [negb modules.snake modules.Parts modules.gameOver].
  rewrite (index_Some _ _ _ Hhead). cbn [mbind result_bind]. cbv zeta.
  set (newPos := Exec snakeDirection head) in *.
  pose proof (first_at_lt _ _ _ Hi) as Hlt.
  destruct (take i ps) as [| h t] eqn:T.
  { apply (f_equal length) in T. rewrite length_take in T. cbn in T. lia. }
  assert (Hlen : length (h :: t) = i) by (rewrite <- T, length_take; lia).
  assert (E : Point_eqb newPos fo = false) by by apply Point_eqb_neq.
  assert (Hcut :
    modules.CutIfSnake (modules.mkSnake ps sz) newPos
    = (modules.mkSnake (h :: t) sz, true)).
  { rewrite (legacy_CutIfSnake_found _ _ i) by exact Hi.
    cbn [modules.snake modules.set_Parts modules.Parts modules.Size]. by rewrite T. }
  destruct ((X newPos <? 0) || (X newPos >? 19) || (Y newPos <? 0) || (Y newPos >? 19));
    unfold modules.set_gameOver;
    cbn [modules.snake modules.food modules.score modules.ateFood
         modules.speed modules.gameOver modules.needMove];
    rewrite Hcut;
    unfold modules.set_snake, modules.set_score, modules.set_Size;
    cbn [modules.snake modules.food modules.score modules.ateFood
         modules.speed modules.gameOver modules.needMove modules.Size modules.Parts];
    rewrite (div_Ok _ _ Hsize);
    cbn [mbind result_bind modules.snake modules.food modules.score modules.ateFood
         modules.speed modules.gameOver modules.needMove modules.Size modules.Parts];
    rewrite E; cbn [mbind result_bind negb andb modules.gameOver].
  - eexists. split; [reflexivity |].
    cbn [modules.snake modules.Parts modules.Size modules.score].
    unfold GoInt.len. rewrite Hlen. by repeat split.
  - erewrite legacy_Move_cons by reflexivity. cbn [mbind result_bind].
    eexists. split; [reflexivity |].
    cbn [modules.snake modules.set_needMove modules.set_snake modules.set_Parts
         modules.Parts modules.Size modules.score].
    unfold GoInt.len. rewrite Hlen. repeat split.
    cbn [length]. rewrite length_take. cbn [length] in *. lia.
Qed.

Lemma legacy_FoodGeneration_returns draws (g : modules.Game) :
  Forall draw_ok draws -> modules.gameOver g = false ->
  Exists (fun d => draw_point d ∉ modules.Parts (modules.snake g)) draws ->
  returns (modules.FoodGeneration draws g).
Proof.
  intros Hok Hgo Hex. induction Hex as [d draws Hd | d draws _ IH].
  - apply Forall_cons in Hok as [Hd0 _]. eexists.
    by apply legacy_FoodGeneration_accepts.
  - apply Forall_cons in Hok as [Hd0 Hok].
    destruct (decide (draw_point d ∈ modules.Parts (modules.snake g))) as [Hon | Hoff];
      [| eexists; by apply legacy_FoodGeneration_accepts].
    destruct (IH Hok) as [r Hr]. exists r. rewrite <- Hr.
    destruct d as [r1 r2]. destruct Hd0 as [Hx Hy]. cbn in Hx, Hy.
    assert (E : forall r, 0 <= r < cellsCount -> GoInt.add r 0 = r).
    { intros r0 H0. unfold GoInt.add. rewrite Z.add_0_r. apply wrap_in_range.
      unfold GoInt.in_range, GoInt.min_int, GoInt.max_int, cellsCount in *. lia. }
    apply legacy_IsSnake_true in Hon. unfold draw_point in Hon. cbn in Hon.
    cbn [modules.FoodGeneration]. rewrite Hgo. cbn [negb].
    rewrite (E r1 Hx), (E r2 Hy), Hon.
    destruct draws; cbn [modules.FoodGeneration]; by rewrite Hgo.
Qed.

(** C5.  For every snake and position [p], in package [game] and in
    package [modules] alike: if [p] first occurs in the body at
    head-to-tail index [i], [CutIfSnake] truncates the body to exactly
    its first [i] cells (direction and size counter untouched) and
    returns [true]; if [p] occurs nowhere in the body, it returns
    [false] and leaves the snake unchanged. *)
Theorem CutIfSnake_spec (s : Snake) (s' : modules.Snake) (p : Point) :
  ((forall i, first_at (Parts s) p i ->
      CutIfSnake s p = (set_Parts (take i (Parts s)) s, true) /\
      length (Parts (CutIfSnake s p).1) = i) /\
   ((p ∉ Parts s) -> CutIfSnake s p = (s, false))) /\
  ((forall i, first_at (modules.Parts s') p i ->
      modules.CutIfSnake s' p
      = (modules.set_Parts (take i (modules.Parts s')) s', true) /\
      length (modules.Parts (modules.CutIfSnake s' p).1) = i) /\
   ((p ∉ modules.Parts s') -> modules.CutIfSnake s' p = (s', false))).
Proof.
  split; split.
  - intros i H. rewrite (CutIfSnake_found s p i H). split; [done |].
    cbn. rewrite length_take. apply first_at_lt in H. lia.
  - apply CutIfSnake_absent.
  - intros i H. rewrite (legacy_CutIfSnake_found s' p i H). split; [done |].
    cbn. rewrite length_take. apply first_at_lt in H. lia.
  - apply legacy_CutIfSnake_absent.
Qed.

Lemma CutIfSnake_spec_witness :
  let s := mkSnake right [mkPoint 3 1; mkPoint 2 1; mkPoint 1 1] 3 in
  let s' := modules.mkSnake [mkPoint 3 1; mkPoint 2 1; mkPoint 1 1] 3 in
  ((CutIfSnake s (mkPoint 1 1) = (mkSnake right [mkPoint 3 1; mkPoint 2 1] 3, true) /\
    length (Parts (CutIfSnake s (mkPoint 1 1)).1) = 2%nat) /\
   CutIfSnake s (mkPoint 4 1) = (s, false)) /\
  ((modules.CutIfSnake s' (mkPoint 2 1) = (modules.mkSnake [mkPoint 3 1] 3, true) /\
    length (modules.Parts (modules.CutIfSnake s' (mkPoint 2 1)).1) = 1%nat) /\
   modules.CutIfSnake s' (mkPoint 4 1) = (s', false)).
Proof.
  intros s s'.
  assert (Hout : forall ps : list Point, ps = [mkPoint 3 1; mkPoint 2 1; mkPoint 1 1] ->
                   mkPoint 4 1 ∉ ps).
  { intros ps -> Hin.
    repeat (apply elem_of_cons in Hin as [Hin | Hin]; [discriminate |]).
    by apply elem_of_nil in Hin. }
  split; split.
  - apply (proj1 (proj1 (CutIfSnake_spec s s' (mkPoint 1 1))) 2%nat).
    split; [reflexivity |].
    intros j Hj. destruct j as [| [| j]]; [discriminate | discriminate | lia].
  - apply (proj2 (proj1 (CutIfSnake_spec s s' (mkPoint 4 1)))). by apply Hout.
  - apply (proj1 (proj2 (CutIfSnake_spec s s' (mkPoint 2 1))) 1%nat).
    split; [reflexivity |].
    intros j Hj. destruct j as [| j]; [discriminate | lia].
  - apply (proj2 (proj2 (CutIfSnake_spec s s' (mkPoint 4 1)))). by apply Hout.
Defined.

(** C8.  Whenever food generation returns, and the draws are what
    [rand.Intn(cellsCount)] delivers, the accepted position is a cell
    of the grid and is not on the snake's body at that moment, the
    snake being left as it was; in a round that eats, that body is the
    one already grown by the eaten cell as its new head.  The loop
    returns as soon as a draw is off the body, and such a sequence of
    draws exists for every body that leaves a cell of the grid free.
    The same holds of [FoodGeneration] of package [modules], whose loop
    samples only while the game is not over. *)
Theorem foodGeneration_spec (g : Game) (m : modules.Game) :
  ((forall draws g' rest,
      Forall draw_ok draws -> foodGeneration draws g = Ok (g', rest) ->
      in_grid (food g') /\ (food g' ∉ Parts (snake g')) /\ snake g' = snake g) /\
   (forall draws hd g' rest,
      Forall draw_ok draws -> Parts (snake g) !! 0%nat = Some hd ->
      Exec (Direction (snake g)) hd = food g ->
      handleGameLogic_body draws g = Ok (g', rest) ->
      in_grid (food g') /\ (food g' ∉ Parts (snake g')) /\
      Parts (snake g') !! 0%nat = Some (food g)) /\
   (forall draws,
      Exists (fun d => draw_point d ∉ Parts (snake g)) draws ->
      returns (foodGeneration draws g)) /\
   ((exists p, in_grid p /\ (p ∉ Parts (snake g))) ->
    exists draws, Forall draw_ok draws /\ returns (foodGeneration draws g))) /\
  ((forall draws m' rest,
      Forall draw_ok draws -> modules.FoodGeneration draws m = Ok (m', rest) ->
      in_grid (modules.food m') /\
      (modules.food m' ∉ modules.Parts (modules.snake m')) /\
      modules.snake m' = modules.snake m) /\
   (forall draws,
      Forall draw_ok draws -> modules.gameOver m = false ->
      Exists (fun d => draw_point d ∉ modules.Parts (modules.snake m)) draws ->
      returns (modules.FoodGeneration draws m)) /\
   (modules.gameOver m = false ->
    (exists p, in_grid p /\ (p ∉ modules.Parts (modules.snake m))) ->
    exists draws, Forall draw_ok draws /\ returns (modules.FoodGeneration draws m))).
Proof.
  split; [split; [| split; [| split]] | split; [| split]].
  - intros draws g' rest Hok H.
    destruct (foodGeneration_inv _ _ _ _ H) as (pre & d & -> & _ & Hd & ->).
    split; [| split; [exact Hd | reflexivity]].
    apply draw_ok_in_grid. rewrite Forall_forall in Hok. apply Hok.
    apply elem_of_app. right. by left.
  - intros draws hd g' rest Hok Hhead Hfood H.
    destruct (handleGameLogic_body_inv _ _ _ _ H) as (hd' & g2 & Hhead' & B & K).
    assert (hd' = hd) as -> by congruence.
    destruct (selfBite_inv _ _ _ B) as (_ & Hf & _).
    rewrite hitWall_eq in Hf. cbn [food set_gameOver] in Hf.
    rewrite Hfood, Hf, Point_eqb_refl in K.
    destruct (eat_inv _ _ _ _ _ K) as (pre & d & -> & _ & Hd & _ & ->).
    split; [| split; [exact Hd | reflexivity]].
    apply draw_ok_in_grid. rewrite Forall_forall in Hok. apply Hok.
    apply elem_of_app. right. by left.
  - intros draws H. by apply foodGeneration_returns.
  - intros (p & Hin & Hout). exists [(X p, Y p)]. split.
    + constructor; [| constructor]. apply draw_ok_in_grid. by destruct p.
    + apply foodGeneration_returns. left. unfold on_snake, draw_point. by destruct p.
  - intros draws m' rest Hok H.
    destruct (legacy_FoodGeneration_spec _ _ _ _ Hok H) as (_ & Hin & Hout & Hs).
    split; [exact Hin |]. split; [by rewrite Hs | exact Hs].
  - intros draws. apply legacy_FoodGeneration_returns.
  - intros Hgo (p & Hin & Hout). exists [(X p, Y p)].
    assert (Hok : draw_ok (X p, Y p)) by (apply draw_ok_in_grid; by destruct p).
    assert (Hall : Forall draw_ok [(X p, Y p)]) by (constructor; [exact Hok | constructor]).
    split; [exact Hall |].
    apply legacy_FoodGeneration_returns; [exact Hall | exact Hgo |].
    left. unfold draw_point. by destruct p.
Qed.

Lemma foodGeneration_spec_witness :
  let g := setSnake (NewGame NewGameParam) (Reset NewSnake) in
  let m := modules.SetSnake modules.NewGame (modules.Reset modules.NewSnake) in
  let draws := [(3, 1); (2, 1); (7, 5); (0, 0)] in
  foodGeneration draws g = Ok (set_food (mkPoint 7 5) g, [(0, 0)]) /\
  (in_grid (mkPoint 7 5) /\
   (mkPoint 7 5 ∉ [mkPoint 3 1; mkPoint 2 1; mkPoint 1 1]) /\
   snake (set_food (mkPoint 7 5) g) = snake g) /\
  (exists draws', Forall draw_ok draws' /\ returns (foodGeneration draws' g)) /\
  modules.FoodGeneration draws m = Ok (modules.set_food (mkPoint 7 5) m, [(0, 0)]) /\
  (in_grid (mkPoint 7 5) /\
   (mkPoint 7 5 ∉ [mkPoint 3 1; mkPoint 2 1; mkPoint 1 1]) /\
   modules.snake (modules.set_food (mkPoint 7 5) m) = modules.snake m) /\
  returns (modules.FoodGeneration draws m).
Proof.
  intros g m draws.
  assert (Hrun : foodGeneration draws g = Ok (set_food (mkPoint 7 5) g, [(0, 0)]))
    by reflexivity.
  assert (Hrun' : modules.FoodGeneration draws m
                  = Ok (modules.set_food (mkPoint 7 5) m, [(0, 0)]))
    by (vm_compute; reflexivity).
  assert (Hok : Forall draw_ok draws).
  { repeat constructor; cbn; lia. }
  assert (Hfree : forall ps : list Point, ps = [mkPoint 3 1; mkPoint 2 1; mkPoint 1 1] ->
                    mkPoint 0 0 ∉ ps).
  { intros ps -> Hin.
    repeat (apply elem_of_cons in Hin as [Hin | Hin]; [discriminate |]).
    by apply elem_of_nil in Hin. }
  split; [exact Hrun |]. split; [| split; [| split; [exact Hrun' | split]]].
  - exact (proj1 (proj1 (foodGeneration_spec g m)) draws _ _ Hok Hrun).
  - apply (proj2 (proj2 (proj2 (proj1 (foodGeneration_spec g m))))).
    exists (mkPoint 0 0). split.
    + unfold in_grid, cellsCount. cbn. lia.
    + by apply Hfree.
  - exact (proj1 (proj2 (foodGeneration_spec g m)) draws _ _ Hok Hrun').
  - apply (proj1 (proj2 (proj2 (foodGeneration_spec g m))) draws Hok); [reflexivity |].
    apply Exists_cons. right. apply Exists_cons. right. apply Exists_cons. left.
    unfold draw_point. cbn. intros Hin.
    repeat (apply elem_of_cons in Hin as [Hin | Hin]; [discriminate |]).
    by apply elem_of_nil in Hin.
Defined.

(** C1, as the code has it.  In a round whose prospective head is on
    the body, first at index [i], the body is cut down to its first [i]
    cells and the score becomes [score / oldLength * newLength] in [int]
    arithmetic: the old score is first divided, with truncation, by the
    old length of the body, and the quotient is then multiplied by the
    new length.  For a score that is not negative this is
    [(score / oldLength) * newLength] in [Z].  (The round is taken with
    a named direction, with the size counter of the snake equal to the
    length of its body, which is what the division reads, and with a
    prospective head that is not the food.)  The round of package
    [modules] does the same while its game is not over. *)
Theorem self_bite_rescales_score
    (g : Game) (draws : list draw) (head : Point) (i : nat)
    (m : modules.Game) (snakeDirection : Dir) (mhead : Point) (k : nat) :
  (Parts (snake g) !! 0%nat = Some head ->
   first_at (Parts (snake g)) (Exec (Direction (snake g)) head) i ->
   valid_dir (Direction (snake g)) ->
   Size (snake g) = GoInt.len (Parts (snake g)) ->
   Exec (Direction (snake g)) head <> food g ->
   exists g',
     handleGameLogic_body draws g = Ok (g', draws) /\
     length (Parts (snake g')) = i /\
     Size (snake g') = GoInt.len (Parts (snake g')) /\
     score g' =
       GoInt.mul (GoInt.wrap (score g ÷ GoInt.len (Parts (snake g))))
         (GoInt.len (Parts (snake g'))) /\
     (0 <= score g <= GoInt.max_int ->
      score g' = score g / GoInt.len (Parts (snake g)) * GoInt.len (Parts (snake g')))) /\
  (modules.gameOver m = false ->
   modules.Parts (modules.snake m) !! 0%nat = Some mhead ->
   first_at (modules.Parts (modules.snake m)) (Exec snakeDirection mhead) k ->
   valid_dir snakeDirection ->
   modules.Size (modules.snake m) = GoInt.len (modules.Parts (modules.snake m)) ->
   Exec snakeDirection mhead <> modules.food m ->
   exists m',
     modules.SnakeMovement_body snakeDirection draws m = Ok (m', draws) /\
     length (modules.Parts (modules.snake m')) = k /\
     modules.Size (modules.snake m') = GoInt.len (modules.Parts (modules.snake m')) /\
     modules.score m' =
       GoInt.mul
         (GoInt.wrap (modules.score m ÷ GoInt.len (modules.Parts (modules.snake m))))
         (GoInt.len (modules.Parts (modules.snake m'))) /\
     (0 <= modules.score m <= GoInt.max_int ->
      modules.score m' =
        modules.score m / GoInt.len (modules.Parts (modules.snake m))
        * GoInt.len (modules.Parts (modules.snake m')))).
Proof.
  assert (Hexact : forall sc sz n : Z,
    0 <= sc <= GoInt.max_int -> 0 < sz -> 0 <= n <= sz ->
    GoInt.mul (GoInt.wrap (sc ÷ sz)) n = sc / sz * n).
  { intros sc sz n Hsc Hsz Hn. rewrite quot_nonneg_exact by lia.
    apply wrap_in_range.
    assert (0 <= sc / sz) by (apply Z.div_pos; lia).
    assert (sc / sz * sz <= sc) by (rewrite Z.mul_comm; apply Z.mul_div_le; lia).
    unfold GoInt.in_range, GoInt.min_int, GoInt.max_int in *. nia. }
  split.
  - intros Hhead Hi Hdir Hstep Hfood.
    assert (Hpos : (0 < i)%nat).
    { destruct i as [| i]; [| lia]. destruct Hi as [Hi _].
      rewrite Hhead in Hi. injection Hi as Hi.
      by destruct (Exec_moves _ head Hdir). }
    pose proof (first_at_lt _ _ _ Hi) as Hlt.
    assert (Hsize : Size (snake g) <> 0) by (rewrite Hstep; unfold GoInt.len; lia).
    destruct (handleGameLogic_body_bite draws g head i Hhead Hi Hpos Hsize Hfood)
      as (g' & Hrun & Hlen & Hsz & Hsc & _).
    assert (Hlen' : GoInt.len (Parts (snake g')) = Z.of_nat i)
      by (unfold GoInt.len; by rewrite Hlen).
    exists g'. rewrite Hlen', <- Hstep. do 4 (split; [done |]).
    intros Hscore. rewrite Hsc. apply Hexact; [done | |];
      rewrite Hstep; unfold GoInt.len; lia.
  - intros Hgo Hhead Hk Hdir Hstep Hfood.
    assert (Hpos : (0 < k)%nat).
    { destruct k as [| k]; [| lia]. destruct Hk as [Hk _].
      rewrite Hhead in Hk. injection Hk as Hk.
      by destruct (Exec_moves _ mhead Hdir). }
    pose proof (first_at_lt _ _ _ Hk) as Hlt.
    assert (Hsize : modules.Size (modules.snake m) <> 0)
      by (rewrite Hstep; unfold GoInt.len; lia).
    destruct (legacy_SnakeMovement_body_bite snakeDirection draws m mhead k
                Hgo Hhead Hk Hpos Hsize Hfood) as (m' & Hrun & Hlen & Hsz & Hsc).
    assert (Hlen' : GoInt.len (modules.Parts (modules.snake m')) = Z.of_nat k)
      by (unfold GoInt.len; by rewrite Hlen).
    exists m'. rewrite Hlen', <- Hstep. do 4 (split; [done |]).
    intros Hscore. rewrite Hsc. apply Hexact; [done | |];
      rewrite Hstep; unfold GoInt.len; lia.
Qed.

(** The scenario of a snake of five cells whose prospective head is its
    cell of index 2, in both packages: two cells remain and a score of
    10 becomes [10 / 5 * 2 = 4]. *)
Lemma self_bite_rescales_score_witness :
  let cells := [mkPoint 5 5; mkPoint 5 4; mkPoint 5 6; mkPoint 6 6; mkPoint 7 6] in
  let g := mkGame (mkGameParam 290) (mkSnake up cells 5)
             (mkPoint 0 0) 10 2 false true false in
  let m := modules.mkGame (modules.mkSnake cells 5) (mkPoint 0 0) 10 2 290 false false in
  (exists g',
     handleGameLogic_body [] g = Ok (g', []) /\
     length (Parts (snake g')) = 2%nat /\
     score g' = 10 / 5 * GoInt.len (Parts (snake g'))) /\
  (exists m',
     modules.SnakeMovement_body up [] m = Ok (m', []) /\
     length (modules.Parts (modules.snake m')) = 2%nat /\
     modules.score m' = 10 / 5 * GoInt.len (modules.Parts (modules.snake m'))).
Proof.
  intros cells g m.
  assert (Hat : first_at cells (mkPoint 5 6) 2).
  { split; [reflexivity |].
    intros j Hj. destruct j as [| [| j]]; [discriminate | discriminate | lia]. }
  destruct (self_bite_rescales_score g [] (mkPoint 5 5) 2 m up (mkPoint 5 5) 2)
    as [Hgame Hmod].
  split.
  - destruct Hgame as (g' & Hrun & Hlen & _ & _ & Hscore).
    + reflexivity.
    + exact Hat.
    + unfold valid_dir. by left.
    + reflexivity.
    + discriminate.
    + exists g'. split; [exact Hrun |]. split; [exact Hlen |].
      apply Hscore. unfold GoInt.max_int. cbn. lia.
  - destruct Hmod as (m' & Hrun & Hlen & _ & _ & Hscore).
    + reflexivity.
    + reflexivity.
    + exact Hat.
    + unfold valid_dir. by left.
    + reflexivity.
    + discriminate.
    + exists m'. split; [exact Hrun |]. split; [exact Hlen |].
      apply Hscore. unfold GoInt.max_int. cbn. lia.
Defined.

(** * Further properties of the code *)

(** ** Cells, directions and keys *)

(** The classes of cells that [calculateScore] tells apart.  A corner
    is a cell with both coordinates on a border and is also an edge
    cell, so that it is the order of the cases in [calculateScore] that
    gives it four times the base score.  With a speed [s] from 1 to
    1000 and the base score [1000 / s]: [calculateScore] returns four
    times the base score exactly for the corners, twice the base score
    exactly for the edge cells that are no corners, and the base score
    exactly for the cells that are no edge cells; of the 400 cells of
    the grid it scores 4 in the first way, 72 in the second and 324 in
    the third. *)
Theorem cell_classes (g : Game) (p : Point) :
  1 <= speed (param g) <= 1000 ->
  (IsCorner p = true -> IsEdge p = true) /\
  (IsCorner p = true <->
   (X p = 0 \/ X p = cellsCount - 1) /\ (Y p = 0 \/ Y p = cellsCount - 1)) /\
  (calculateScore g p = Ok (1000 / speed (param g) * 4) <-> IsCorner p = true) /\
  (calculateScore g p = Ok (1000 / speed (param g) * 2) <->
   IsEdge p = true /\ IsCorner p = false) /\
  (calculateScore g p = Ok (1000 / speed (param g)) <-> IsEdge p = false) /\
  length (filter (fun c => calculateScore g c = Ok (1000 / speed (param g) * 4))
            grid_cells) = 4%nat /\
  length (filter (fun c => calculateScore g c = Ok (1000 / speed (param g) * 2))
            grid_cells) = 72%nat /\
  length (filter (fun c => calculateScore g c = Ok (1000 / speed (param g)))
            grid_cells) = 324%nat.
Proof.
  intros Hs.
  assert (Hce : IsCorner p = true -> IsEdge p = true).
  { unfold IsCorner, IsEdge.
    destruct (X p =? 0), (Y p =? 0), (X p =? cellsCount - 1), (Y p =? cellsCount - 1);
      cbn; congruence. }
  set (q := 1000 / speed (param g)).
  assert (Hq : 1 <= q).
  { unfold q. apply Z.div_le_lower_bound; lia. }
  assert (Hcalc : forall c, calculateScore g c = Ok (q * weight c)).
  { intros c. rewrite calculateScore_Ok by lia.
    unfold q. by rewrite Z.quot_div_nonneg by lia. }
  assert (H4 : forall c, calculateScore g c = Ok (q * 4) <-> weight c = 4).
  { intros c. rewrite Hcalc. split; [intros [= E]; nia | by intros ->]. }
  assert (H2 : forall c, calculateScore g c = Ok (q * 2) <-> weight c = 2).
  { intros c. rewrite Hcalc. split; [intros [= E]; nia | by intros ->]. }
  assert (H1 : forall c, calculateScore g c = Ok q <-> weight c = 1).
  { intros c. rewrite Hcalc. split; [intros [= E]; nia | intros ->; f_equal; lia]. }
  split; [exact Hce |]. split; [| split; [| split; [| split; [| split; [| split]]]]].
  - unfold IsCorner.
    rewrite !orb_true_iff, !andb_true_iff, !Z.eqb_eq. tauto.
  - rewrite H4. unfold weight. destruct (IsCorner p), (IsEdge p); split; try done.
  - rewrite H2. unfold weight.
    destruct (IsCorner p) eqn:C, (IsEdge p) eqn:E; split; try done.
    + intros [_ H]. discriminate H.
    + by intros [H _].
    + by intros [H _].
  - rewrite H1. unfold weight.
    destruct (IsCorner p) eqn:C, (IsEdge p) eqn:E; split; try done.
    by specialize (Hce eq_refl).
  - rewrite (list_filter_iff _ (fun c => weight c = 4) grid_cells (H4)).
    by vm_compute.
  - rewrite (list_filter_iff _ (fun c => weight c = 2) grid_cells (H2)).
    by vm_compute.
  - rewrite (list_filter_iff _ (fun c => weight c = 1) grid_cells (H1)).
    by vm_compute.
Qed.

Lemma cell_classes_witness :
  let g := setSnake (NewGame NewGameParam) (Reset NewSnake) in
  IsEdge (mkPoint 0 19) = true /\
  calculateScore g (mkPoint 0 19) = Ok (1000 / 300 * 4) /\
  calculateScore g (mkPoint 0 7) = Ok (1000 / 300 * 2) /\
  calculateScore g (mkPoint 5 7) = Ok (1000 / 300) /\
  length (filter (fun c => calculateScore g c = Ok (1000 / 300 * 2)) grid_cells)
  = 72%nat.
Proof.
  intros g.
  assert (Hs : 1 <= speed (param g) <= 1000) by (cbn; unfold startSpeed; lia).
  split; [| split; [| split; [| split]]].
  - apply (proj1 (cell_classes g (mkPoint 0 19) Hs)). reflexivity.
  - apply (proj1 (proj2 (proj2 (cell_classes g (mkPoint 0 19) Hs)))). reflexivity.
  - apply (proj1 (proj2 (proj2 (proj2 (cell_classes g (mkPoint 0 7) Hs))))). by split.
  - apply (proj1 (proj2 (proj2 (proj2 (proj2 (cell_classes g (mkPoint 5 7) Hs)))))).
    reflexivity.
  - exact (proj1 (proj2 (proj2 (proj2 (proj2 (proj2 (proj2
             (cell_classes g (mkPoint 0 0) Hs)))))))).
Defined.

(** The wall can only be hit from an edge cell: if a cell of the grid
    has a neighbour, in any direction, that [collidesWithWall] rejects,
    the cell is an edge cell; and every edge cell of the grid has a
    named direction that leads into the wall. *)
Theorem wall_only_from_edge (g : Game) (p : Point) :
  in_grid p ->
  (forall d, collidesWithWall g (Exec d p) = true -> IsEdge p = true) /\
  (IsEdge p = true ->
   exists d, valid_dir d /\ collidesWithWall g (Exec d p) = true).
Proof.
  unfold in_grid, cellsCount. intros [Hx Hy]. split.
  - intros d Hwall. apply collidesWithWall_true in Hwall.
    unfold IsEdge, cellsCount. rewrite !orb_true_iff, !Z.eqb_eq.
    destruct (decide (X p = 0 \/ Y p = 0 \/ X p = 20 - 1 \/ Y p = 20 - 1))
      as [H | H]; [tauto |].
    exfalso. apply Hwall. pose proof (prospective_head_range d p) as Hr.
    unfold in_grid, cellsCount in *.
    assert (Hin : (0 <= X p <= 20 - 1) /\ (0 <= Y p <= 20 - 1)) by done.
    revert Hr. unfold Exec, up, down, left, right.
    repeat match goal with
           | |- context [if ?b then _ else _] => destruct b
           end; cbn; lia.
  - unfold IsEdge, cellsCount. rewrite !orb_true_iff, !Z.eqb_eq.
    intros [[[H | H] | H] | H].
    + exists left. split; [unfold valid_dir; auto |].
      apply collidesWithWall_true. unfold in_grid. cbn. lia.
    + exists down. split; [unfold valid_dir; auto |].
      apply collidesWithWall_true. unfold in_grid. cbn. lia.
    + exists right. split; [unfold valid_dir; auto |].
      apply collidesWithWall_true. unfold in_grid, cellsCount. cbn. lia.
    + exists up. split; [unfold valid_dir; auto |].
      apply collidesWithWall_true. unfold in_grid, cellsCount. cbn. lia.
Qed.

Lemma wall_only_from_edge_witness :
  IsEdge (mkPoint 19 1) = true /\
  exists d, valid_dir d /\
    collidesWithWall (NewGame NewGameParam) (Exec d (mkPoint 0 5)) = true.
Proof.
  assert (H1 : in_grid (mkPoint 19 1)) by (unfold in_grid, cellsCount; cbn; lia).
  assert (H2 : in_grid (mkPoint 0 5)) by (unfold in_grid, cellsCount; cbn; lia).
  split.
  - apply (proj1 (wall_only_from_edge (NewGame NewGameParam) _ H1) right). reflexivity.
  - apply (proj2 (wall_only_from_edge (NewGame NewGameParam) _ H2)). reflexivity.
Defined.

Lemma CheckParallel_sym (d d' : Dir) : CheckParallel d d' = CheckParallel d' d.
Proof.
  destruct (CheckParallel d d') eqn:E1, (CheckParallel d' d) eqn:E2; try done.
  - apply CheckParallel_true in E1.
    assert (CheckParallel d' d = true) by (apply CheckParallel_true; tauto).
    congruence.
  - apply CheckParallel_true in E2.
    assert (CheckParallel d d' = true) by (apply CheckParallel_true; tauto).
    congruence.
Qed.

Lemma CheckParallel_irrefl (d : Dir) : CheckParallel d d = false.
Proof.
  destruct (CheckParallel d d) eqn:E; [| done].
  apply CheckParallel_true in E. unfold up, down, left, right in E. lia.
Qed.

(** [CheckParallel] is symmetric and never holds of a direction and
    itself; it holds only between named directions, each of which has
    exactly one partner; and between named directions it holds exactly
    when, from every cell of the grid, a step in the second undoes a
    step in the first. *)
Theorem CheckParallel_opposites (d d' : Dir) :
  CheckParallel d d' = CheckParallel d' d /\
  CheckParallel d d = false /\
  (CheckParallel d d' = true ->
   valid_dir d /\ valid_dir d' /\
   forall d'', CheckParallel d d'' = true -> d'' = d') /\
  (valid_dir d -> exists e, CheckParallel d e = true) /\
  (valid_dir d -> valid_dir d' ->
   (CheckParallel d d' = true <-> forall p, in_grid p -> Exec d' (Exec d p) = p)).
Proof.
  split; [| split; [| split; [| split]]].
  - apply CheckParallel_sym.
  - apply CheckParallel_irrefl.
  - intros H. apply CheckParallel_true in H.
    split; [unfold valid_dir; tauto |]. split; [unfold valid_dir; tauto |].
    intros d'' H''. apply CheckParallel_true in H''.
    unfold up, down, left, right in *. lia.
  - intros [-> | [-> | [-> | ->]]];
      [exists down | exists left | exists up | exists right]; reflexivity.
  - intros Hd Hd'. split; [intros H p _; by apply Exec_opposite |].
    intros H.
    assert (H0 : in_grid (mkPoint 0 0)) by (unfold in_grid, cellsCount; cbn; lia).
    specialize (H (mkPoint 0 0) H0).
    destruct Hd as [-> | [-> | [-> | ->]]], Hd' as [-> | [-> | [-> | ->]]];
      try reflexivity; discriminate H.
Qed.

Lemma CheckParallel_opposites_witness :
  (valid_dir up /\ valid_dir down /\
   forall d'', CheckParallel up d'' = true -> d'' = down) /\
  (CheckParallel left right = true <->
   forall p, in_grid p -> Exec right (Exec left p) = p).
Proof.
  split.
  - apply (proj1 (proj2 (proj2 (CheckParallel_opposites up down)))). reflexivity.
  - apply (proj2 (proj2 (proj2 (proj2 (CheckParallel_opposites left right)))));
      unfold valid_dir; auto.
Defined.

(** [FromKey] does not look at the direction it is called on and
    always gives a named direction; the four arrow codes 79 to 82 give
    four different directions (80 left, 82 down, 79 right, 81 up), and
    every other code gives right. *)
Theorem FromKey_codes (d : Dir) (code : Z) :
  FromKey d code = FromKey up code /\
  valid_dir (FromKey d code) /\
  (forall code', 79 <= code <= 82 -> 79 <= code' <= 82 ->
                 FromKey d code = FromKey d code' -> code = code') /\
  (~ (79 <= code <= 82) -> FromKey d code = right) /\
  FromKey d 80 = left /\ FromKey d 82 = down /\
  FromKey d 79 = right /\ FromKey d 81 = up.
Proof.
  split; [reflexivity |]. split; [apply FromKey_valid |].
  split; [| split; [| by repeat split]].
  - intros code' Hc Hc'.
    assert (Hcases : code = 79 \/ code = 80 \/ code = 81 \/ code = 82) by lia.
    assert (Hcases' : code' = 79 \/ code' = 80 \/ code' = 81 \/ code' = 82) by lia.
    destruct Hcases as [-> | [-> | [-> | ->]]],
             Hcases' as [-> | [-> | [-> | ->]]]; try done; discriminate.
  - intros Hc. unfold FromKey.
    repeat match goal with
           | |- context [?a =? ?b] => destruct (Z.eqb_spec a b)
           end; try reflexivity; lia.
Qed.

Lemma FromKey_codes_witness :
  FromKey left 40 = right /\
  (FromKey up 80 = FromKey up 80 -> 80 = 80).
Proof.
  split.
  - apply (proj1 (proj2 (proj2 (proj2 (FromKey_codes left 40))))). lia.
  - apply (proj1 (proj2 (proj2 (FromKey_codes up 80))) 80); lia.
Defined.

(** [Exec] on the [float64] coordinates of the source and [Exec] on
    the integer coordinates of the model agree wherever a game can be:
    on every point with both coordinates from -1 to 20, that is on the
    grid and one step around it.  They do not agree everywhere: at
    [x = 2^53] a step to the right is lost in rounding and [Exec]
    returns its argument, and at [x = 2^53 + 2] it moves two cells. *)
Theorem Exec_on_float64 (d : Dir) (p : Point) :
  (-1 <= X p <= cellsCount -> -1 <= Y p <= cellsCount ->
   Exec64 d (to64 p) = to64 (Exec d p)) /\
  Exec64 right (to64 (mkPoint (2 ^ 53) 0)) = to64 (mkPoint (2 ^ 53) 0) /\
  Exec64 right (to64 (mkPoint (2 ^ 53 + 2) 0)) = to64 (mkPoint (2 ^ 53 + 4) 0) /\
  Exec64 left (Exec64 right (to64 (mkPoint (2 ^ 53) 0)))
  = to64 (mkPoint (2 ^ 53 - 1) 0).
Proof.
  split; [apply Exec64_agrees |].
  split; [by vm_compute |]. split; by vm_compute.
Qed.

Lemma Exec_on_float64_witness :
  Exec64 up (to64 (mkPoint 19 19)) = to64 (mkPoint 19 20) /\
  Exec64 left (to64 (mkPoint 0 7)) = to64 (mkPoint (-1) 7).
Proof.
  split.
  - apply (proj1 (Exec_on_float64 up (mkPoint 19 19))); unfold cellsCount; cbn; lia.
  - apply (proj1 (Exec_on_float64 left (mkPoint 0 7))); unfold cellsCount; cbn; lia.
Defined.

(** ** How the operations of the snake compose *)

Section SnakeCells.

Implicit Types (s : Snake) (p q : Point) (ps : list Point) (d : Dir).

Lemma Tail_snoc s ps x : Parts s = ps ++ [x] -> Tail s = x.
Proof.
  intros E. assert (Hne : Parts s <> []) by (rewrite E; by destruct ps).
  pose proof (Tail_nonempty s Hne) as H. rewrite E, last_snoc in H. congruence.
Qed.

Lemma take_init ps x : take (length ps) (ps ++ [x]) = ps.
Proof. by rewrite take_app_length. Qed.

Lemma connected_app_l ps ps' : connected (ps ++ ps') -> connected ps.
Proof.
  induction ps as [| p [| q ps] IH]; [done | done |].
  cbn [app connected]. intros [H1 H2]. split; [exact H1 |]. by apply IH.
Qed.

Lemma connected_take (n : nat) ps : connected ps -> connected (take n ps).
Proof.
  intros H. rewrite <- (take_drop n ps) in H. by apply connected_app_l in H.
Qed.

Lemma adjacent_Exec d p : valid_dir d -> adjacent (Exec d p) p.
Proof.
  unfold adjacent. intros [-> | [-> | [-> | ->]]]; cbn; lia.
Qed.

Lemma connected_cons p ps :
  connected ps -> (forall q, head ps = Some q -> adjacent p q) -> connected (p :: ps).
Proof.
  destruct ps as [| q ps]; [done |]. intros H Hq. split; [by apply Hq | exact H].
Qed.

(** [Move] in terms of the old body split into its last cell and the
    cells in front of it. *)
Lemma Move_snoc s d h ps x :
  Parts s = ps ++ [x] -> head (Parts s) = Some h ->
  Move s d = Ok (set_Parts (Exec d h :: ps) s).
Proof.
  intros E Hh. destruct (Parts s) as [| h' t] eqn:P; [discriminate Hh |].
  injection Hh as ->. rewrite (Move_cons s d h t P). do 2 f_equal.
  rewrite E. assert (Hlen : length t = length ps).
  { apply (f_equal length) in E. rewrite length_app in E. cbn in E. lia. }
  by rewrite Hlen, take_init.
Qed.

End SnakeCells.

(** [CutIfSnake] answers what [IsSnake] answers; what it leaves is a
    prefix of the old body on which the position no longer lies, so
    that cutting at the same position again answers [false] and changes
    nothing. *)
Theorem CutIfSnake_then_IsSnake (s : Snake) (p : Point) :
  (CutIfSnake s p).2 = IsSnake s p /\
  Parts (CutIfSnake s p).1 `prefix_of` Parts s /\
  IsSnake (CutIfSnake s p).1 p = false /\
  CutIfSnake (CutIfSnake s p).1 p = ((CutIfSnake s p).1, false).
Proof.
  destruct (CutIfSnake_cases s p) as [(i & Hi & ->) | [Hout ->]]; cbn [fst snd].
  - assert (Hin : p ∈ Parts s).
    { destruct Hi as [Hi _]. by apply list_elem_of_lookup_2 in Hi. }
    assert (Hgone : p ∉ take i (Parts s)).
    { intros H. apply elem_of_take in H as (j & Hj & Hlt).
      destruct Hi as [_ Hi]. by apply (Hi j). }
    split; [symmetry; by apply IsSnake_true |].
    split; [apply prefix_take |].
    split; [by apply IsSnake_false |]. by apply CutIfSnake_absent.
  - split; [symmetry; by apply IsSnake_false |]. split; [done |].
    split; [by apply IsSnake_false | by apply CutIfSnake_absent].
Qed.

(** [Move] as a change of the set of cells.  For a body whose head is
    a cell of the grid, without a cell twice, and a prospective head
    that is not on it, the cells after [Move] are the prospective head
    and the old cells but the old tail: the tail cell is vacated, no
    cell is there twice, and, for a named direction, a body whose cells
    are each next to the one behind stays so. *)
Theorem Move_cells (s : Snake) (d : Dir) :
  Parts s <> [] -> in_grid (Head s) -> NoDup (Parts s) ->
  (Exec d (Head s) ∉ Parts s) ->
  exists s',
    Move s d = Ok s' /\
    Head s' = Exec d (Head s) /\
    (forall q, q ∈ Parts s' <-> q = Exec d (Head s) \/ (q ∈ Parts s /\ q <> Tail s)) /\
    (Tail s ∉ Parts s') /\
    NoDup (Parts s') /\
    (valid_dir d -> connected (Parts s) -> connected (Parts s')).
Proof.
  intros Hne _ Hnd Hout.
  pose proof (Head_nonempty s Hne) as Hh.
  destruct (last_is_Some (Parts s)) as [_ Hl]. destruct (Hl Hne) as [x Hx].
  apply last_Some in Hx as [ps E].
  pose proof (Tail_snoc s ps x E) as Ht. rewrite Ht.
  rewrite E in Hnd. apply NoDup_app in Hnd as (Hnd & Hx & _).
  assert (Hxps : x ∉ ps).
  { intros H. apply (Hx x H). by left. }
  exists (set_Parts (Exec d (Head s) :: ps) s).
  split; [by apply (Move_snoc s d (Head s) ps x) |]. cbn [Parts set_Parts].
  split; [reflexivity |]. split; [| split; [| split]].
  - intros q. rewrite elem_of_cons, E, elem_of_app, list_elem_of_singleton. split.
    + intros [-> | H]; [by left |]. right. split; [by left | congruence].
    + intros [-> | [[H | ->] Hq]]; [by left | by right | done].
  - rewrite elem_of_cons. intros [-> | H]; [| done].
    apply Hout. rewrite E, elem_of_app, list_elem_of_singleton. by right.
  - constructor; [| exact Hnd].
    intros H. apply Hout. rewrite E, elem_of_app. by left.
  - intros Hd Hc. rewrite E in Hc. apply connected_app_l in Hc.
    apply connected_cons; [exact Hc |].
    intros q Hq. destruct ps as [| q' ps]; [discriminate Hq |].
    injection Hq as ->. rewrite E in Hh. injection Hh as <-.
    by apply adjacent_Exec.
Qed.

Lemma Move_cells_witness :
  let s := mkSnake right [mkPoint 3 1; mkPoint 2 1; mkPoint 1 1] 3 in
  exists s',
    Move s up = Ok s' /\ Head s' = mkPoint 3 2 /\
    (mkPoint 1 1 ∉ Parts s') /\ NoDup (Parts s').
Proof.
  intros s.
  destruct (Move_cells s up) as (s' & Hm & Hh & _ & Ht & Hnd & _).
  - discriminate.
  - change (Head s) with (mkPoint 3 1). unfold in_grid, cellsCount. cbn. lia.
  - cbn. apply NoDup_ListNoDup. repeat constructor; cbn; intuition discriminate.
  - cbn. intros Hin.
    repeat (apply elem_of_cons in Hin as [Hin | Hin]; [discriminate |]).
    by apply elem_of_nil in Hin.
  - by exists s'.
Defined.

(** ** The keys *)

Lemma KeyUp_Ok_cases (code : Z) (name : string) (g g' : Game) :
  KeyUp code name g = Ok g' ->
  (gameOver g = true /\ name = "Enter"%string /\ g' = restartGame g) \/
  g' = g \/
  (needMove g = true /\ 79 <= code <= 82 /\
   CheckParallel (Direction (snake g)) (FromKey (Direction (snake g)) code) = false /\
   g' = set_needMove false
          (set_snake (set_Direction (FromKey (Direction (snake g)) code) (snake g)) g)).
Proof.
  assert (Hdir :
    (if (79 <=? code) && (code <=? 82) && needMove g
     then let newDir := FromKey (Direction (snake g)) code in
          if negb (CheckParallel (Direction (snake g)) newDir)
          then Ok (set_needMove false
                     (set_snake (set_Direction newDir (snake g)) g))
          else Ok g
     else Ok g) = Ok g' ->
    g' = g \/
    (needMove g = true /\ 79 <= code <= 82 /\
     CheckParallel (Direction (snake g)) (FromKey (Direction (snake g)) code) = false /\
     g' = set_needMove false
            (set_snake (set_Direction (FromKey (Direction (snake g)) code) (snake g)) g))).
  { destruct ((79 <=? code) && (code <=? 82) && needMove g) eqn:C;
      [| intros [= <-]; by left].
    apply andb_true_iff in C as [C Hnm]. apply andb_true_iff in C as [C1 C2].
    apply Z.leb_le in C1, C2. cbv zeta.
    destruct (CheckParallel _ _) eqn:P; cbn [negb]; intros [= <-]; [by left |].
    right. by repeat split. }
  unfold KeyUp.
  destruct (gameOver g) eqn:Hgo.
  - destruct (String.eqb name "Enter") eqn:E1.
    { apply String.eqb_eq in E1. subst name. intros [= <-]. left. by repeat split. }
    destruct (String.eqb name "Escape") eqn:E2; [done |].
    intros H. right. by apply Hdir.
  - intros H. right. by apply Hdir.
Qed.

(** What a key event does.  It never panics and never blocks.  While
    the game is over, Enter restarts the game and Escape ends the
    program with status 1, and the program is ended in no other case.
    Every other key event, and every key event while the game is not
    over, sets the direction of the code and forbids a further change
    when the code is one of the arrow codes 79 to 82, a change of
    direction is allowed, and the direction of the code is not the
    opposite of the current one; otherwise it changes nothing.  So a
    key event that returns has restarted the game, changed nothing, or
    turned the snake to a direction that is not the opposite of the old
    one, touching nothing else. *)
Theorem KeyUp_outcomes (code : Z) (name : string) (g : Game) :
  (forall e, KeyUp code name g <> Panic e) /\
  KeyUp code name g <> Blocked /\
  (forall c, KeyUp code name g = Exit c <->
             gameOver g = true /\ name = "Escape"%string /\ c = 1) /\
  (gameOver g = true -> name = "Enter"%string ->
   KeyUp code name g = Ok (restartGame g)) /\
  (~ (gameOver g = true /\ (name = "Enter"%string \/ name = "Escape"%string)) ->
   79 <= code <= 82 -> needMove g = true ->
   CheckParallel (Direction (snake g)) (FromKey (Direction (snake g)) code) = false ->
   KeyUp code name g
   = Ok (set_needMove false
           (set_snake (set_Direction (FromKey (Direction (snake g)) code) (snake g)) g))) /\
  (~ (gameOver g = true /\ (name = "Enter"%string \/ name = "Escape"%string)) ->
   ~ (79 <= code <= 82 /\ needMove g = true /\
      CheckParallel (Direction (snake g)) (FromKey (Direction (snake g)) code) = false) ->
   KeyUp code name g = Ok g) /\
  (forall g', KeyUp code name g = Ok g' ->
     (gameOver g = true /\ name = "Enter"%string /\ g' = restartGame g) \/
     g' = g \/
     (needMove g = true /\ 79 <= code <= 82 /\
      CheckParallel (Direction (snake g)) (FromKey (Direction (snake g)) code) = false /\
      g' = set_needMove false
             (set_snake (set_Direction (FromKey (Direction (snake g)) code) (snake g)) g))).
Proof.
  assert (Hkeys :
    ~ (gameOver g = true /\ (name = "Enter"%string \/ name = "Escape"%string)) ->
    KeyUp code name g =
    if (79 <=? code) && (code <=? 82) && needMove g
    then if negb (CheckParallel (Direction (snake g))
                    (FromKey (Direction (snake g)) code))
         then Ok (set_needMove false
                    (set_snake (set_Direction (FromKey (Direction (snake g)) code)
                                  (snake g)) g))
         else Ok g
    else Ok g).
  { intros Hno. unfold KeyUp. destruct (gameOver g) eqn:Hgo; [| reflexivity].
    destruct (String.eqb name "Enter") eqn:E1.
    { apply String.eqb_eq in E1. destruct Hno. split; [done | by left]. }
    destruct (String.eqb name "Escape") eqn:E2; [| reflexivity].
    apply String.eqb_eq in E2. destruct Hno. split; [done | by right]. }
  split; [apply KeyUp_no_panic |].
  split; [| split; [| split; [| split; [| split; [| intros g'; apply KeyUp_Ok_cases]]]]].
  - unfold KeyUp.
    repeat match goal with
           | |- context [if ?b then _ else _] => destruct b
           end; done.
  - intros c. unfold KeyUp.
    destruct (gameOver g) eqn:Hgo.
    + destruct (String.eqb name "Enter") eqn:E1.
      { apply String.eqb_eq in E1. subst name.
        split; [done | by intros (_ & [=] & _)]. }
      destruct (String.eqb name "Escape") eqn:E2.
      { apply String.eqb_eq in E2. subst name.
        split; [by intros [= <-] | by intros (_ & _ & ->)]. }
      apply String.eqb_neq in E2.
      split; [| by intros (_ & -> & _)].
      repeat match goal with
             | |- context [if ?b then _ else _] => destruct b
             end; done.
    + split; [| by intros ([=] & _)].
      repeat match goal with
             | |- context [if ?b then _ else _] => destruct b
             end; done.
  - intros Hgo ->. by apply KeyUp_Enter.
  - intros Hno Hc Hnm Hp. rewrite (Hkeys Hno), Hnm, Hp.
    destruct (Z.leb_spec 79 code), (Z.leb_spec code 82); try lia. reflexivity.
  - intros Hno Hnot. rewrite (Hkeys Hno).
    destruct (Z.leb_spec 79 code), (Z.leb_spec code 82); try reflexivity.
    destruct (needMove g) eqn:Hnm; [| reflexivity].
    destruct (CheckParallel _ _) eqn:Hp; [reflexivity |].
    destruct Hnot. repeat split; lia || done.
Qed.

Lemma KeyUp_outcomes_witness :
  let g := mkGame (mkGameParam 300)
             (mkSnake right [mkPoint 4 1; mkPoint 3 1; mkPoint 2 1] 3)
             (mkPoint 7 5) 0 0 false true false in
  KeyUp 81 "Down" g
  = Ok (set_needMove false (set_snake (set_Direction up (snake g)) g)) /\
  KeyUp 80 "Left" g = Ok g /\
  KeyUp 40 "Enter" (set_gameOver true g) = Ok (restartGame (set_gameOver true g)) /\
  KeyUp 41 "Escape" (set_gameOver true g) = Exit 1.
Proof.
  intros g.
  destruct (KeyUp_outcomes 81 "Down" g) as (_ & _ & _ & _ & Hturn & _).
  destruct (KeyUp_outcomes 80 "Left" g) as (_ & _ & _ & _ & _ & Hkeep & _).
  destruct (KeyUp_outcomes 40 "Enter" (set_gameOver true g)) as (_ & _ & _ & Henter & _).
  destruct (KeyUp_outcomes 41 "Escape" (set_gameOver true g)) as (_ & _ & Hexit & _).
  split; [| split; [| split]].
  - apply Hturn; [by intros [[=] _] | lia | reflexivity | reflexivity].
  - apply Hkeep; [by intros [[=] _] |]. by intros (_ & _ & [=]).
  - by apply Henter.
  - by apply Hexit.
Defined.

(** At most one change of direction between two rounds: in a running
    game, once a key event has changed the state, every further key
    event leaves it as it is. *)
Theorem one_turn_per_round (c1 c2 : Z) (n1 n2 : string) (g g1 : Game) :
  gameOver g = false ->
  KeyUp c1 n1 g = Ok g1 -> g1 <> g ->
  KeyUp c2 n2 g1 = Ok g1.
Proof.
  intros Hgo H1 Hne.
  pose proof (fun g' => KeyUp_Ok_cases c1 n1 g g') as Hok.
  destruct (Hok g1 H1) as [(H & _) | [H | (_ & _ & _ & ->)]]; [congruence | done |].
  unfold KeyUp. cbn [gameOver set_needMove set_snake needMove]. rewrite Hgo.
  by rewrite andb_false_r.
Qed.

Lemma one_turn_per_round_witness :
  let g := mkGame (mkGameParam 300)
             (mkSnake right [mkPoint 4 1; mkPoint 3 1; mkPoint 2 1] 3)
             (mkPoint 7 5) 0 0 false true false in
  let g1 := set_needMove false (set_snake (set_Direction up (snake g)) g) in
  KeyUp 82 "Up" g1 = Ok g1.
Proof.
  intros g g1. apply (one_turn_per_round 81 82 "Down" "Up" g g1).
  - reflexivity.
  - reflexivity.
  - discriminate.
Defined.

(** The state the loop starts in.  Whenever [RunGame] has placed the
    first food, the snake is the one of [Reset], nothing has been
    scored, the speed is the initial one, the food is a cell of the
    grid off the snake, and no change of direction is allowed yet: a
    key event before the first round changes nothing. *)
Theorem RunGame_start (draws : list draw) (g : Game) (rest : list draw) :
  Forall draw_ok draws ->
  RunGame draws = Ok (g, rest) ->
  snake g = mkSnake right [mkPoint 3 1; mkPoint 2 1; mkPoint 1 1] 3 /\
  score g = 0 /\ ateFood g = 0 /\ speed (param g) = startSpeed /\
  gameOver g = false /\ needMove g = false /\
  in_grid (food g) /\ food_free g /\
  (forall code name, KeyUp code name g = Ok g).
Proof.
  intros Hok H. unfold RunGame in H.
  destruct (foodGeneration_inv _ _ _ _ H) as (pre & d & -> & _ & Hd & ->).
  apply Forall_app in Hok as [_ Hok]. apply Forall_cons in Hok as [Hdok _].
  do 6 (split; [reflexivity |]).
  split; [by apply draw_ok_in_grid |]. split; [exact Hd |].
  intros code name. unfold KeyUp. cbn [gameOver needMove set_food setSnake set_snake NewGame].
  by rewrite andb_false_r.
Qed.

Lemma RunGame_start_witness :
  exists g rest,
    RunGame [(2, 1); (7, 5)] = Ok (g, rest) /\
    food g = mkPoint 7 5 /\ KeyUp 81 "Down" g = Ok g.
Proof.
  eexists _, _. split; [reflexivity |].
  assert (Hok : Forall draw_ok [(2, 1); (7, 5)]).
  { repeat constructor; cbn; lia. }
  destruct (RunGame_start [(2, 1); (7, 5)] _ _ Hok eq_refl)
    as (_ & _ & _ & _ & _ & _ & _ & _ & Hkeys).
  split; [reflexivity | apply Hkeys].
Defined.

(** ** What a run keeps *)

Section RunInvariants.

Implicit Types (g : Game) (p q h n : Point) (ps t : list Point) (d : Dir).

Lemma NoDup_take (k : nat) ps : NoDup ps -> NoDup (take k ps).
Proof. intros H. eapply sublist_NoDup; [exact H | apply sublist_take]. Qed.

Lemma Exec_twice d p : valid_dir d -> Exec d (Exec d p) <> p.
Proof.
  intros [-> | [-> | [-> | ->]]]; destruct p as [x y]; cbn; intros [=]; lia.
Qed.

(** A step that undoes another goes in the opposite direction. *)
Lemma Exec_back_opposite d d' p :
  valid_dir d -> valid_dir d' -> Exec d (Exec d' p) = p -> CheckParallel d' d = true.
Proof.
  destruct p as [x y].
  intros [-> | [-> | [-> | ->]]] [-> | [-> | [-> | ->]]]; cbn; intros [=];
    try reflexivity; lia.
Qed.

Lemma shape_body_invariant g : shape_invariant g -> body_invariant g.
Proof.
  intros (Hd & _ & _ & h & n & t & E & _). split; [by rewrite E | exact Hd].
Qed.

(** After the self-bite of a round on a well-shaped snake, the first
    two cells are still there and the prospective head is off the
    body. *)
Lemma selfBite_shape g h n t g2 :
  Parts (snake g) = h :: n :: t ->
  NoDup (Parts (snake g)) -> connected (Parts (snake g)) ->
  valid_dir (Direction (snake g)) ->
  Exec (Direction (snake g)) h <> n ->
  selfBite g (Exec (Direction (snake g)) h) = Ok g2 ->
  exists t2,
    Parts (snake g2) = h :: n :: t2 /\
    (Parts (snake g2) `prefix_of` Parts (snake g)) /\
    NoDup (Parts (snake g2)) /\ connected (Parts (snake g2)) /\
    (Exec (Direction (snake g)) h ∉ Parts (snake g2)) /\
    Direction (snake g2) = Direction (snake g) /\
    needMove g2 = needMove g /\ gameOver g2 = gameOver g /\ food g2 = food g.
Proof.
  intros E Hnd Hc Hd Hneck B.
  destruct (selfBite_inv _ _ _ B) as (_ & Hf & _ & Hgo & Hnm & Hdir & Hcase).
  destruct Hcase as [[Hout ->] | (i & Hi & _ & Hparts & _)].
  - exists t. by repeat split.
  - assert (Hi2 : (2 <= i)%nat).
    { destruct Hi as [Hi _]. rewrite E in Hi.
      destruct i as [| [| i]]; [| | lia].
      - injection Hi as Hi. by destruct (Exec_moves _ h Hd).
      - injection Hi as Hi. by destruct Hneck. }
    destruct i as [| [| i]]; [lia | lia |].
    exists (take i t). rewrite Hparts. split; [by rewrite E |].
    split; [apply prefix_take |]. split; [by apply NoDup_take |].
    split; [by apply connected_take |]. split; [| by repeat split].
    intros Hin. apply elem_of_take in Hin as (j & Hj & Hlt).
    destruct Hi as [_ Hi]. by apply (Hi j).
Qed.

Lemma handleGameLogic_body_shape draws g g' rest :
  shape_invariant g -> handleGameLogic_body draws g = Ok (g', rest) ->
  shape_invariant g'.
Proof.
  intros (Hd & Hnd & Hc & h & n & t & E & Hneck & Hlast) H.
  destruct (handleGameLogic_body_inv _ _ _ _ H) as (h' & g2 & Hhead & B & K).
  rewrite E in Hhead. injection Hhead as <-.
  rewrite hitWall_eq in B.
  destruct (selfBite_shape (set_gameOver _ g) h n t g2 E Hnd Hc Hd Hneck B)
    as (t2 & E2 & _ & Hnd2 & Hc2 & Hout2 & Hd2 & Hnm2 & _).
  cbn [snake set_gameOver needMove] in Hout2, Hd2, Hnm2.
  set (d := Direction (snake g)) in *.
  destruct (Point_eqb _ (food g2)).
  - destruct (eat_inv _ _ _ _ _ K) as (pre & dr & _ & _ & _ & _ & ->).
    unfold shape_invariant. cbn [snake Parts Direction needMove]. rewrite Hd2.
    split; [exact Hd |]. split; [by constructor |].
    split; [rewrite E2; split; [by apply adjacent_Exec | by rewrite <- E2] |].
    exists (Exec d h), h, (n :: t2). rewrite E2.
    split; [reflexivity |]. split; [by apply Exec_twice | done].
  - destruct (advance_inv _ _ _ _ K)
      as (_ & _ & _ & _ & _ & _ & Hd' & _ & _ & Hcase).
    destruct Hcase as [[_ ->] | (_ & Hnm' & h2 & t3 & E3 & E')].
    + unfold shape_invariant. rewrite Hd2, E2, Hnm2. rewrite E2 in Hnd2, Hc2.
      split; [exact Hd |]. split; [exact Hnd2 |]. split; [exact Hc2 |].
      by exists h, n, t2.
    + rewrite E2 in E3. injection E3 as <- <-. rewrite Hd2 in E'.
      change (take (length (n :: t2)) (h :: n :: t2))
        with (h :: take (length t2) (n :: t2)) in E'.
      unfold shape_invariant. rewrite Hd', Hd2, E'.
      split; [exact Hd |].
      assert (Hpre : NoDup (take (S (length t2)) (Parts (snake g2))) /\
                     connected (take (S (length t2)) (Parts (snake g2))) /\
                     (Exec d h ∉ take (S (length t2)) (Parts (snake g2)))).
      { split; [by apply NoDup_take |]. split; [by apply connected_take |].
        intros Hin. apply Hout2. by apply (subseteq_take (S (length t2))). }
      rewrite E2 in Hpre. cbn [take] in Hpre. destruct Hpre as (Hnd3 & Hc3 & Hout3).
      split; [by constructor |].
      split; [split; [by apply adjacent_Exec | exact Hc3] |].
      exists (Exec d h), h, (take (length t2) (n :: t2)).
      split; [reflexivity |]. split; [by apply Exec_twice | done].
Qed.

Lemma KeyUp_shape code name g g' :
  shape_invariant g -> KeyUp code name g = Ok g' -> shape_invariant g'.
Proof.
  intros Hs H. pose proof (fun g' => KeyUp_Ok_cases code name g g') as Hok.
  destruct (Hok g' H) as [(_ & _ & ->) | [-> | (Hnm & _ & Hpar & ->)]]; [| done |].
  - rewrite restartGame_eq. unfold shape_invariant. cbn [snake Parts Direction needMove].
    split; [unfold valid_dir; auto |].
    split; [apply NoDup_ListNoDup; repeat constructor; cbn; intuition discriminate |].
    split; [cbn; unfold adjacent; cbn; lia |].
    by exists (mkPoint 3 1), (mkPoint 2 1), [mkPoint 1 1].
  - destruct Hs as (Hd & Hnd & Hc & h & n & t & E & Hneck & Hlast).
    unfold shape_invariant. cbn [snake Parts Direction needMove set_needMove
      set_snake set_Direction].
    split; [apply FromKey_valid |]. split; [exact Hnd |]. split; [exact Hc |].
    exists h, n, t. split; [exact E |]. split; [| done].
    intros Hback. specialize (Hlast Hnm). rewrite <- Hback in Hlast.
    apply Exec_back_opposite in Hlast; [| exact Hd | apply FromKey_valid].
    pose proof (CheckParallel_sym (Direction (snake g))
                  (FromKey (Direction (snake g)) code)) as Hsym.
    congruence.
Qed.

Lemma step_shape e draws g g' rest :
  shape_invariant g -> step e draws g = Ok (g', rest) -> shape_invariant g'.
Proof.
  intros Hs. destruct e as [| code name]; cbn [step].
  - by apply handleGameLogic_body_shape.
  - destruct (KeyUp code name g) as [g1 | | |] eqn:K; try discriminate.
    intros [= <- <-]. by apply (KeyUp_shape code name g).
Qed.

Lemma run_shape es draws g g' rest :
  shape_invariant g -> run es draws g = Ok (g', rest) -> shape_invariant g'.
Proof.
  revert draws g. induction es as [| e es IH]; intros draws g Hs; cbn [run].
  - by intros [= <- <-].
  - destruct (step e draws g) as [[g1 draws1] | | |] eqn:S; try discriminate.
    cbn [mbind result_bind]. apply IH. by apply (step_shape e draws g g1 draws1).
Qed.

Lemma RunGame_shape draws g rest :
  RunGame draws = Ok (g, rest) -> shape_invariant g.
Proof.
  unfold RunGame. intros H.
  destruct (foodGeneration_inv _ _ _ _ H) as (pre & d & _ & _ & _ & ->).
  unfold shape_invariant. cbn [snake Parts Direction needMove set_food setSnake
    set_snake NewGame]. rewrite Reset_NewSnake. cbn [Parts Direction].
  split; [unfold valid_dir; auto |].
  split; [apply NoDup_ListNoDup; repeat constructor; cbn; intuition discriminate |].
  split; [cbn; unfold adjacent; cbn; lia |].
  by exists (mkPoint 3 1), (mkPoint 2 1), [mkPoint 1 1].
Qed.

(** *** The counters *)

Lemma counters_weaken (B B' : Z) g :
  B <= B' -> counters_invariant B g -> counters_invariant B' g.
Proof. unfold counters_invariant. intros HB (H1 & H2 & H3 & H4). repeat split; lia. Qed.

Lemma add_exact (a b : Z) : GoInt.in_range (a + b) -> GoInt.add a b = a + b.
Proof. apply wrap_in_range. Qed.

Lemma sub_exact (a b : Z) : GoInt.in_range (a - b) -> GoInt.sub a b = a - b.
Proof. apply wrap_in_range. Qed.

Lemma selfBite_counters (B : Z) g p g2 :
  counters_invariant B g -> selfBite g p = Ok g2 -> counters_invariant B g2.
Proof.
  intros (Ha & Hs & Hsz & Hsc) H.
  destruct (selfBite_inv _ _ _ H) as (Hp & _ & Haf & _ & _ & _ & Hcase).
  destruct Hcase as [[_ ->] | (i & Hi & Hnz & Hparts & Hsize & Hscore & _)]; [done |].
  pose proof (first_at_lt _ _ _ Hi) as Hlt.
  unfold counters_invariant, GoInt.len in *.
  rewrite Hp, Haf, Hparts, Hsize, Hscore, length_take.
  assert (Hq : GoInt.wrap (score g ÷ Size (snake g)) = score g / Size (snake g)).
  { apply quot_nonneg_exact; unfold GoInt.max_int; lia. }
  rewrite Hq.
  assert (0 <= score g / Size (snake g)) by (apply Z.div_pos; lia).
  assert (score g / Size (snake g) * Size (snake g) <= score g).
  { rewrite Z.mul_comm. apply Z.mul_div_le. lia. }
  assert (Hm : GoInt.mul (score g / Size (snake g)) (Z.of_nat i)
               = score g / Size (snake g) * Z.of_nat i).
  { apply wrap_in_range. unfold GoInt.in_range, GoInt.min_int, GoInt.max_int. nia. }
  rewrite Hm. repeat split; try lia; nia.
Qed.

Lemma handleGameLogic_body_counters (B : Z) draws g g' rest :
  B + 1 <= GoInt.max_int ->
  counters_invariant B g -> handleGameLogic_body draws g = Ok (g', rest) ->
  counters_invariant (B + 1) g'.
Proof.
  intros HB Hc H.
  destruct (handleGameLogic_body_inv _ _ _ _ H) as (head & g2 & _ & Bt & K).
  rewrite hitWall_eq in Bt.
  apply (selfBite_counters B (set_gameOver _ g)) in Bt; [| exact Hc].
  destruct Bt as (Ha & Hs & Hsz & Hsc).
  destruct (Point_eqb _ (food g2)).
  - destruct (eat_inv _ _ _ _ _ K) as (pre & d & _ & _ & _ & Hnz & ->).
    unfold counters_invariant, GoInt.len, startSpeed, GoInt.max_int in *.
    cbn [param speed snake Parts Size score ateFood length].
    assert (Hsub : GoInt.sub (speed (param g2)) 5 = speed (param g2) - 5).
    { apply sub_exact. unfold GoInt.in_range, GoInt.min_int, GoInt.max_int. lia. }
    rewrite Hsub in *.
    assert (Hadd1 : GoInt.add (ateFood g2) 1 = ateFood g2 + 1).
    { apply add_exact. unfold GoInt.in_range, GoInt.min_int, GoInt.max_int. lia. }
    assert (Hadd2 : GoInt.add (Size (snake g2)) 1 = Size (snake g2) + 1).
    { apply add_exact. unfold GoInt.in_range, GoInt.min_int, GoInt.max_int. lia. }
    assert (Hq : 0 <= 1000 ÷ (speed (param g2) - 5) <= 200).
    { rewrite Z.quot_div_nonneg by lia. split; [apply Z.div_pos; lia |].
      apply Z.div_le_upper_bound; lia. }
    assert (Hw : 1 <= weight (Exec (Direction (snake g)) head) <= 4).
    { unfold weight.
      destruct (IsCorner (Exec (Direction (snake g)) head)),
               (IsEdge (Exec (Direction (snake g)) head)); lia. }
    assert (Hadd3 : GoInt.add (score g2)
                      (1000 ÷ (speed (param g2) - 5) * weight (Exec (Direction (snake g)) head))
                    = score g2 + 1000 ÷ (speed (param g2) - 5)
                                 * weight (Exec (Direction (snake g)) head)).
    { apply add_exact. unfold GoInt.in_range, GoInt.min_int, GoInt.max_int. nia. }
    rewrite Hadd1, Hadd2, Hadd3. repeat split; try lia; nia.
  - destruct (advance_inv _ _ _ _ K)
      as (_ & Hp' & _ & Hsc' & Ha' & _ & _ & Hsz' & Hlen' & _).
    unfold counters_invariant, GoInt.len in *.
    rewrite Hp', Hsc', Ha', Hsz', Hlen'. repeat split; lia.
Qed.

Lemma KeyUp_counters (B : Z) code name g g' :
  B + 3 <= GoInt.max_int ->
  counters_invariant B g -> KeyUp code name g = Ok g' ->
  counters_invariant (B + 3) g'.
Proof.
  intros HB Hc H. pose proof (fun g' => KeyUp_Ok_cases code name g g') as Hok.
  destruct (Hok g' H) as [(_ & _ & ->) | [-> | (_ & _ & _ & ->)]].
  - destruct Hc as (_ & _ & Hsz & _). rewrite restartGame_eq.
    unfold counters_invariant, GoInt.len, startSpeed, GoInt.max_int in *.
    cbn [param speed snake Parts Size score ateFood length].
    assert (H3 : GoInt.add (GoInt.add (GoInt.add (Size (snake g)) 1) 1) 1
                 = Size (snake g) + 3).
    { rewrite (add_exact (Size (snake g)) 1)
        by (unfold GoInt.in_range, GoInt.min_int, GoInt.max_int; lia).
      rewrite (add_exact (Size (snake g) + 1) 1)
        by (unfold GoInt.in_range, GoInt.min_int, GoInt.max_int; lia).
      rewrite add_exact by (unfold GoInt.in_range, GoInt.min_int, GoInt.max_int; lia).
      lia. }
    rewrite H3. repeat split; lia.
  - apply (counters_weaken B); [lia | exact Hc].
  - apply (counters_weaken B); [lia | exact Hc].
Qed.

Lemma step_counters (B : Z) e draws g g' rest :
  B + 3 <= GoInt.max_int ->
  counters_invariant B g -> step e draws g = Ok (g', rest) ->
  counters_invariant (B + 3) g'.
Proof.
  intros HB Hc. destruct e as [| code name]; cbn [step].
  - intros H. apply (counters_weaken (B + 1)); [lia |].
    apply (handleGameLogic_body_counters B draws g g' rest); [lia | done | done].
  - destruct (KeyUp code name g) as [g1 | | |] eqn:K; try discriminate.
    intros [= <- <-]. by apply (KeyUp_counters B code name g).
Qed.

Lemma run_counters es (B : Z) draws g g' rest :
  B + 3 * Z.of_nat (length es) <= GoInt.max_int ->
  counters_invariant B g -> run es draws g = Ok (g', rest) ->
  counters_invariant (B + 3 * Z.of_nat (length es)) g'.
Proof.
  revert B draws g. induction es as [| e es IH]; intros B draws g HB Hc; cbn [run].
  - intros [= <- <-]. cbn [length]. by rewrite Z.add_0_r.
  - destruct (step e draws g) as [[g1 draws1] | | |] eqn:St; try discriminate.
    cbn [mbind result_bind]. cbn [length] in HB |- *. intros H.
    replace (B + 3 * Z.of_nat (S (length es)))
      with ((B + 3) + 3 * Z.of_nat (length es)) by lia.
    apply (IH (B + 3) draws1 g1); [lia | | exact H].
    apply (step_counters B e draws g g1 draws1); [lia | done | done].
Qed.

Lemma RunGame_counters draws g rest :
  RunGame draws = Ok (g, rest) -> counters_invariant 3 g.
Proof.
  unfold RunGame. intros H.
  destruct (foodGeneration_inv _ _ _ _ H) as (pre & d & _ & _ & _ & ->).
  unfold counters_invariant, GoInt.len.
  cbn [param speed snake Parts Size score ateFood set_food setSnake set_snake
       NewGame NewGameParam].
  rewrite Reset_NewSnake. cbn [Parts Size length]. unfold startSpeed.
  repeat split; lia.
Qed.

(** *** The panics of a round *)

Lemma foodGeneration_no_panic draws g e : foodGeneration draws g <> Panic e.
Proof.
  induction draws as [| [x y] draws IH]; [done |]. cbn [foodGeneration].
  by destruct (IsSnake (snake g) (mkPoint x y)).
Qed.

Lemma eat_panic draws g p e :
  eat draws g p = Panic e ->
  e = IntegerDivideByZero /\ GoInt.sub (speed (param g)) 5 = 0.
Proof.
  unfold eat.
  destruct (foodGeneration draws (set_snake (Add (snake g) p) g))
    as [[g1 draws1] | e1 | |] eqn:F; try done.
  - destruct (foodGeneration_inv _ _ _ _ F) as (pre & d & _ & _ & _ & ->).
    cbn [mbind result_bind]. cbn [param set_food set_snake speed].
    destruct (decide (GoInt.sub (speed (param g)) 5 = 0)) as [Hz | Hnz].
    + rewrite calculateScore_zero by exact Hz. by intros [= <-].
    + by rewrite calculateScore_Ok.
  - by destruct (foodGeneration_no_panic draws (set_snake (Add (snake g) p) g) e1).
Qed.

Lemma eat_speed_zero (pre : list draw) (dr : draw) (rest : list draw) g p :
  Forall (on_snake (set_snake (Add (snake g) p) g)) pre ->
  ~ on_snake (set_snake (Add (snake g) p) g) dr ->
  GoInt.sub (speed (param g)) 5 = 0 ->
  eat (pre ++ dr :: rest) g p = Panic IntegerDivideByZero.
Proof.
  intros Hpre Hd Hz. unfold eat.
  rewrite (foodGeneration_accepts _ _ _ _ Hpre Hd). cbn [mbind result_bind].
  by rewrite calculateScore_zero.
Qed.

Lemma handleGameLogic_body_panic (B : Z) draws g e :
  body_invariant g -> counters_invariant B g ->
  handleGameLogic_body draws g = Panic e ->
  e = IntegerDivideByZero /\ ateFood g = 59 /\
  exists head, Parts (snake g) !! 0%nat = Some head /\
               Exec (Direction (snake g)) head = food g.
Proof.
  intros [Hparts Hdir] Hc.
  destruct (Parts (snake g)) as [| head t] eqn:E; [done |].
  assert (Hhead : Parts (snake g) !! 0%nat = Some head) by (by rewrite E).
  rewrite handleGameLogic_body_phases, (index_Some _ _ _ Hhead).
  cbn [mbind result_bind]. cbv zeta. rewrite hitWall_eq.
  set (newPos := Exec (Direction (snake g)) head).
  set (g1 := set_gameOver (gameOver g || collidesWithWall g newPos) g).
  assert (Hsize : Size (snake g1) <> 0).
  { destruct Hc as (_ & _ & Hsz & _). unfold GoInt.len in Hsz.
    cbn [snake g1 set_gameOver]. rewrite E in Hsz. cbn [length] in Hsz. lia. }
  assert (Bt : exists g2, selfBite g1 newPos = Ok g2).
  { destruct (decide (newPos ∈ Parts (snake g1))) as [Hin | Hout].
    - destruct (first_at_exists _ _ Hin) as [i Hi].
      eexists. by apply (selfBite_found g1 newPos i).
    - eexists. by apply selfBite_absent. }
  destruct Bt as [g2 Bt]. rewrite Bt. cbn [mbind result_bind].
  destruct (selfBite_keeps_head g1 head g2 Hhead Hdir Bt) as [Hhead2 _].
  pose proof (selfBite_counters B g1 newPos g2 Hc Bt) as (Ha2 & Hs2 & _).
  destruct (selfBite_inv _ _ _ Bt) as (Hp & Hf & Haf & _).
  destruct (Point_eqb newPos (food g2)) eqn:Efood.
  - apply Point_eqb_eq in Efood. intros H. apply eat_panic in H as [-> Hz].
    split; [reflexivity |].
    assert (Hsub : GoInt.sub (speed (param g2)) 5 = speed (param g2) - 5).
    { apply sub_exact. unfold GoInt.in_range, GoInt.min_int, GoInt.max_int, startSpeed in *.
      lia. }
    split.
    + rewrite Hsub in Hz. unfold startSpeed in Hs2. rewrite Haf in *.
      cbn [ateFood g1 set_gameOver] in *. lia.
    + exists head. split; [done |]. etrans; [exact Efood | exact Hf].
  - destruct (gameOver g2) eqn:Hgo; [by rewrite advance_over |].
    destruct (Parts (snake g2)) as [| h2 t2] eqn:E2; [discriminate Hhead2 |].
    by rewrite (advance_move _ _ h2 t2).
Qed.

(** *** The food and the body *)

Lemma handleGameLogic_body_food_free draws g g' rest :
  food_free g -> handleGameLogic_body draws g = Ok (g', rest) -> food_free g'.
Proof.
  unfold food_free. intros Hfree H.
  destruct (handleGameLogic_body_inv _ _ _ _ H) as (head & g2 & Hhead & Bt & K).
  rewrite hitWall_eq in Bt.
  destruct (selfBite_inv _ _ _ Bt) as (_ & Hf & _ & _ & _ & Hdir & Hcase).
  cbn [food snake set_gameOver] in Hf, Hdir, Hcase.
  assert (Hfree2 : food g2 ∉ Parts (snake g2)).
  { rewrite Hf. destruct Hcase as [[_ ->] | (i & _ & _ & -> & _)]; [done |].
    intros Hin. by apply (subseteq_take i) in Hin. }
  destruct (Point_eqb _ (food g2)) eqn:E.
  - by destruct (eat_inv _ _ _ _ _ K) as (pre & dr & _ & _ & Hd & _ & ->).
  - apply Point_eqb_neq in E.
    destruct (advance_inv _ _ _ _ K) as (_ & _ & Hf' & _ & _ & _ & _ & _ & _ & Hc).
    rewrite Hf'. destruct Hc as [[_ ->] | (_ & _ & h2 & t2 & E2 & ->)]; [done |].
    apply not_elem_of_cons. split.
    + assert (h2 = head) as ->; [| by rewrite Hdir].
      destruct Hcase as [[_ ->] | (i & Hi & _ & Hp & _)].
      * cbn [snake set_gameOver] in E2. rewrite E2 in Hhead. by injection Hhead.
      * rewrite E2 in Hp. destruct i as [| i]; [by rewrite take_0 in Hp |].
        destruct (Parts (snake g)) as [| h0 t0]; [discriminate Hhead |].
        cbn in Hp, Hhead. congruence.
    + intros Hin. apply (subseteq_take (length t2)) in Hin. by rewrite E2 in Hfree2.
Qed.

(** *** After the wall *)

Lemma set_gameOver_same g : gameOver g = true -> set_gameOver true g = g.
Proof. destruct g. cbn. by intros ->. Qed.

Lemma rounds_after_wall (k : nat) draws g head :
  gameOver g = true ->
  Parts (snake g) !! 0%nat = Some head ->
  Exec (Direction (snake g)) head ∉ Parts (snake g) ->
  Exec (Direction (snake g)) head <> food g ->
  run (replicate k TimerFired) draws g = Ok (g, draws).
Proof.
  intros Hgo Hhead Hout Hfood. induction k as [| k IH]; [reflexivity |].
  cbn [replicate run step].
  rewrite (handleGameLogic_body_stopped draws g head Hhead Hout Hfood)
    by (by rewrite Hgo).
  cbn [mbind result_bind]. by rewrite set_gameOver_same.
Qed.

(** *** Runs from the start *)

Lemma run_panic es (B : Z) draws g e :
  B + 3 * Z.of_nat (length es) <= GoInt.max_int ->
  shape_invariant g -> counters_invariant B g ->
  run es draws g = Panic e -> e = IntegerDivideByZero.
Proof.
  revert B draws g. induction es as [| ev es IH]; intros B draws g HB Hs Hc; cbn [run];
    [done |].
  cbn [length] in HB.
  destruct (step ev draws g) as [[g1 draws1] | e1 | |] eqn:St;
    cbn [mbind result_bind]; try done.
  - apply (IH (B + 3)); [lia | |].
    + by apply (step_shape ev draws g g1 draws1).
    + apply (step_counters B ev draws g g1 draws1); [lia | done | done].
  - intros [= ->]. destruct ev as [| code name]; cbn [step] in St.
    + by destruct (handleGameLogic_body_panic B draws g e
                     (shape_body_invariant g Hs) Hc St).
    + pose proof (KeyUp_no_panic code name g e) as Hk.
      destruct (KeyUp code name g); cbn [mbind result_bind] in St; try done.
      injection St as ->. by destruct Hk.
Qed.

(** *** The colour of the cells

    Along a connected body the parity of [x + y] alternates. *)

Lemma adjacent_parity p q : adjacent p q -> (X p + Y p + X q + Y q) mod 2 = 1.
Proof.
  unfold adjacent. intros H.
  assert (Hc : X p + Y p + X q + Y q = 1 + (X q + Y q) * 2 \/
               X p + Y p + X q + Y q = -1 + (X q + Y q) * 2) by lia.
  destruct Hc as [-> | ->]; by rewrite Z_mod_plus_full.
Qed.

Lemma connected_parity ps h (k : nat) q :
  connected (h :: ps) -> (h :: ps) !! k = Some q ->
  (X q + Y q + X h + Y h + Z.of_nat k) mod 2 = 0.
Proof.
  revert h k. induction ps as [| n ps IH]; intros h k Hc Hk.
  - destruct k as [| k]; [| discriminate Hk]. injection Hk as <-.
    replace (X h + Y h + X h + Y h + Z.of_nat 0) with (0 + (X h + Y h) * 2) by lia.
    by rewrite Z_mod_plus_full.
  - destruct k as [| k].
    + injection Hk as <-.
      replace (X h + Y h + X h + Y h + Z.of_nat 0) with (0 + (X h + Y h) * 2) by lia.
      by rewrite Z_mod_plus_full.
    + destruct Hc as [Ha Hc]. cbn in Hk.
      pose proof (IH n k Hc Hk) as H1. pose proof (adjacent_parity h n Ha) as H2.
      apply Z.mod_divide in H1; [| lia]. destruct H1 as [a H1].
      pose proof (Z.div_mod (X h + Y h + X n + Y n) 2 ltac:(lia)) as H3.
      rewrite H2 in H3.
      replace (X q + Y q + X h + Y h + Z.of_nat (S k))
        with (0 + (a + (X h + Y h + X n + Y n) / 2 + 1 - X n - Y n) * 2) by lia.
      by rewrite Z_mod_plus_full.
Qed.

(** On a well-shaped snake the prospective head can only be on the
    body at the fourth cell or behind it. *)
Lemma bite_index g head (i : nat) :
  shape_invariant g ->
  Parts (snake g) !! 0%nat = Some head ->
  first_at (Parts (snake g)) (Exec (Direction (snake g)) head) i ->
  (3 <= i)%nat.
Proof.
  intros (Hd & _ & Hc & h & n & t & E & Hneck & _) Hhead [Hi _].
  rewrite E in Hhead, Hi, Hc. injection Hhead as ->.
  pose proof (connected_parity _ _ _ _ Hc Hi) as Hpar.
  pose proof (adjacent_parity _ _ (adjacent_Exec _ head Hd)) as Hstep.
  destruct i as [| [| [| i]]]; [| | | lia].
  - injection Hi as Hi. by destruct (Exec_moves _ head Hd).
  - injection Hi as Hi. by destruct Hneck.
  - exfalso. apply Z.mod_divide in Hpar; [| lia]. destruct Hpar as [a Hpar].
    pose proof (Z.div_mod (X (Exec (Direction (snake g)) head)
                           + Y (Exec (Direction (snake g)) head)
                           + X head + Y head) 2 ltac:(lia)) as H3.
    rewrite Hstep in H3. cbn [Z.of_nat Pos.of_succ_nat Pos.succ] in Hpar. lia.
Qed.

End RunInvariants.

(** The shape of the snake, call by call.  The shape is: one of the
    four named directions, at least two cells, no cell twice, every
    cell next to the one behind it, a prospective head that is not the
    second cell, and, while a change of direction is allowed, a
    direction that is the one the head last moved in.  The state the
    loop starts in has this shape and lies on the grid; a round that
    starts in such a state and returns ends in such a state, and so
    does a call of the key handler, whatever the key.  In such a state
    the prospective head is not the second cell, and where it is on the
    body it is at the fourth cell or behind it, so that a bite leaves
    at least three cells. *)
Theorem snake_shape_preserved :
  (forall draws g rest,
     Forall draw_ok draws -> RunGame draws = Ok (g, rest) ->
     shape_invariant g /\ grid_invariant g) /\
  (forall g draws g' rest,
     shape_invariant g -> grid_invariant g -> Forall draw_ok draws ->
     handleGameLogic_body draws g = Ok (g', rest) ->
     shape_invariant g' /\ grid_invariant g') /\
  (forall g code name g',
     shape_invariant g -> grid_invariant g ->
     KeyUp code name g = Ok g' ->
     shape_invariant g' /\ grid_invariant g') /\
  (forall g,
     shape_invariant g -> grid_invariant g ->
     (2 <= length (Parts (snake g)))%nat /\
     NoDup (Parts (snake g)) /\
     connected (Parts (snake g)) /\
     valid_dir (Direction (snake g)) /\
     (forall head, Parts (snake g) !! 0%nat = Some head ->
        Parts (snake g) !! 1%nat <> Some (Exec (Direction (snake g)) head)) /\
     (forall head i,
        Parts (snake g) !! 0%nat = Some head ->
        first_at (Parts (snake g)) (Exec (Direction (snake g)) head) i ->
        (3 <= i)%nat)).
Proof.
  split; [| split; [| split]].
  - intros draws g rest Hok H0. split; [by apply (RunGame_shape draws g rest) |].
    by destruct (RunGame_grid draws g rest Hok H0).
  - intros g draws g' rest Hs Hg Hok H. split.
    + by apply (handleGameLogic_body_shape draws g g' rest).
    + by destruct (handleGameLogic_body_grid draws g g' rest Hg Hok H).
  - intros g code name g' Hs Hg H. split.
    + by apply (KeyUp_shape code name g g').
    + by apply (KeyUp_grid code name g g').
  - intros g Hs _.
    pose proof Hs as (Hd & Hnd & Hc & h & n & t & E & Hneck & _).
    split; [rewrite E; cbn [length]; lia |]. do 3 (split; [done |]). split.
    + intros head Hhead. rewrite E in Hhead |- *. injection Hhead as <-.
      cbn. congruence.
    + intros head i. by apply bite_index.
Qed.

Lemma snake_shape_preserved_witness :
  let g0 := set_food (mkPoint 7 5) (setSnake (NewGame NewGameParam) (Reset NewSnake)) in
  exists g1 g2,
    handleGameLogic_body [(9, 9)] g0 = Ok (g1, [(9, 9)]) /\
    KeyUp 81 "Down" g1 = Ok g2 /\
    Direction (snake g2) = up /\
    (2 <= length (Parts (snake g2)))%nat /\ NoDup (Parts (snake g2)) /\
    connected (Parts (snake g2)).
Proof.
  intros g0.
  destruct snake_shape_preserved as (Hstart & Hround & Hkey & Hshape).
  assert (Hok : Forall draw_ok [(7, 5); (9, 9)]).
  { repeat constructor; cbn; lia. }
  assert (Hok' : Forall draw_ok [(9, 9)]).
  { repeat constructor; cbn; lia. }
  assert (H0 : RunGame [(7, 5); (9, 9)] = Ok (g0, [(9, 9)])) by (vm_compute; reflexivity).
  destruct (Hstart _ _ _ Hok H0) as [Hs0 Hg0].
  destruct (handleGameLogic_body [(9, 9)] g0) as [[g1 r1] | | |] eqn:H1;
    try (vm_compute in H1; discriminate H1).
  assert (r1 = [(9, 9)]) as -> by (vm_compute in H1; by injection H1).
  destruct (Hround _ _ _ _ Hs0 Hg0 Hok' H1) as [Hs1 Hg1].
  destruct (KeyUp 81 "Down" g1) as [g2 | | |] eqn:H2;
    try (vm_compute in H1; injection H1 as <-; vm_compute in H2; discriminate H2).
  destruct (Hkey _ _ _ _ Hs1 Hg1 H2) as [Hs2 Hg2].
  destruct (Hshape g2 Hs2 Hg2) as (Hlen & Hnd & Hc & _).
  exists g1, g2. split; [reflexivity |]. split; [exact H2 |]. split; [| done].
  vm_compute in H1. injection H1 as <-. vm_compute in H2. by injection H2 as <-.
Defined.

(** The counters, call by call.  The counters are in order when at
    most 59 foods have been eaten since the last restart, the speed is
    the initial one less 5 for each of them, the size counter is at
    least the length of the body and at most a bound [B], and the score
    is between 0 and 800 for each food.  They are in order in the state
    the loop starts in, with the bound 3; a round that returns keeps
    them in order, with the bound one higher, and a call of the key
    handler does, with the bound three higher, as long as the bound
    stays within [int].  While they are in order and the body is not
    empty, the speed is between 5 and the initial one, and the size
    counter, by which a self-bite divides the score, is positive. *)
Theorem counters_preserved (B : Z) :
  B + 3 <= GoInt.max_int ->
  (forall draws g rest, RunGame draws = Ok (g, rest) -> counters_invariant 3 g) /\
  (forall g draws g' rest,
     grid_invariant g -> counters_invariant B g ->
     handleGameLogic_body draws g = Ok (g', rest) ->
     counters_invariant (B + 1) g') /\
  (forall g code name g',
     counters_invariant B g -> KeyUp code name g = Ok g' ->
     counters_invariant (B + 3) g') /\
  (forall g,
     counters_invariant B g -> Parts (snake g) <> [] ->
     (0 <= ateFood g <= 59) /\
     speed (param g) = startSpeed - 5 * ateFood g /\
     5 <= speed (param g) <= startSpeed /\
     (0 < GoInt.len (Parts (snake g)) <= Size (snake g)) /\
     (0 <= score g <= 800 * ateFood g)).
Proof.
  intros HB. split; [| split; [| split]].
  - apply RunGame_counters.
  - intros g draws g' rest _. apply handleGameLogic_body_counters. lia.
  - intros g code name g'. by apply KeyUp_counters.
  - intros g (Ha & Hs & Hsz & Hsc) Hne.
    unfold startSpeed in *. do 2 (split; [done |]). split; [lia |].
    split; [| done]. split; [| lia].
    unfold GoInt.len. destruct (Parts (snake g)); [done | cbn [length]; lia].
Qed.

Lemma counters_preserved_witness :
  let g0 := set_food (mkPoint 4 1) (setSnake (NewGame NewGameParam) (Reset NewSnake)) in
  exists g1,
    handleGameLogic_body [(9, 9)] g0 = Ok (g1, []) /\
    ateFood g1 = 1 /\ speed (param g1) = startSpeed - 5 * ateFood g1 /\
    (0 < GoInt.len (Parts (snake g1)) <= Size (snake g1)).
Proof.
  intros g0.
  assert (HB : 3 + 3 <= GoInt.max_int) by (unfold GoInt.max_int; cbn; lia).
  assert (HB' : 4 + 3 <= GoInt.max_int) by (unfold GoInt.max_int; cbn; lia).
  destruct (counters_preserved 3 HB) as (Hstart & Hround & _).
  destruct (counters_preserved 4 HB') as (_ & _ & _ & Huse).
  assert (H0 : RunGame [(4, 1); (9, 9)] = Ok (g0, [(9, 9)])) by (vm_compute; reflexivity).
  assert (Hg0 : grid_invariant g0).
  { apply (RunGame_grid [(4, 1); (9, 9)] g0 [(9, 9)]); [| exact H0].
    repeat constructor; cbn; lia. }
  destruct (handleGameLogic_body [(9, 9)] g0) as [[g1 r1] | | |] eqn:H1;
    try (vm_compute in H1; discriminate H1).
  pose proof (Hround _ _ _ _ Hg0 (Hstart _ _ _ H0) H1) as Hc1.
  assert (Hne : Parts (snake g1) <> [])
    by (vm_compute in H1; injection H1 as <- _; discriminate).
  destruct (Huse g1 Hc1 Hne) as (_ & Hsp & _ & Hsz & _).
  exists g1. split; [vm_compute in H1; by injection H1 as <- <- |].
  split; [vm_compute in H1; by injection H1 as <- _ |]. by split.
Defined.

(** The information panel after a restart.  A frame redraws the panel,
    with the score, the number of foods and the speed number of the
    moment, only when [needUpdateInfo] is set, and then clears the
    flag; otherwise it leaves the panel as it is.  A round sets the
    flag when it bites, and when it eats; [restartGame] does not touch
    it.  So when the panel is up to date and the game is over, Enter
    resets the score, the number of foods and the speed, and the frame
    after it still shows the numbers of the finished game; a round that
    only moves the snake does not change that. *)
Theorem panel_after_restart (g : Game) (shown : Panel) :
  (needUpdateInfo g = true ->
   renderFrame g shown = (set_needUpdateInfo false g, drawGameInfo g)) /\
  (needUpdateInfo g = false -> renderFrame g shown = (g, shown)) /\
  needUpdateInfo (restartGame g) = needUpdateInfo g /\
  (forall code,
     gameOver g = true -> needUpdateInfo g = false ->
     exists g',
       KeyUp code "Enter" g = Ok g' /\
       score g' = 0 /\ ateFood g' = 0 /\ speed (param g') = startSpeed /\
       renderFrame g' (drawGameInfo g) = (g', drawGameInfo g) /\
       (food g <> mkPoint 4 1 ->
        exists g'',
          handleGameLogic_body [] g' = Ok (g'', []) /\
          Parts (snake g'') = [mkPoint 4 1; mkPoint 3 1; mkPoint 2 1] /\
          renderFrame g'' (drawGameInfo g) = (g'', drawGameInfo g))) /\
  (forall draws g' rest head,
     Parts (snake g) !! 0%nat = Some head ->
     handleGameLogic_body draws g = Ok (g', rest) ->
     (Exec (Direction (snake g)) head ∈ Parts (snake g) \/
      Exec (Direction (snake g)) head = food g) ->
     needUpdateInfo g' = true).
Proof.
  split; [| split; [| split; [| split]]].
  - intros H. unfold renderFrame. by rewrite H.
  - intros H. unfold renderFrame. by rewrite H.
  - reflexivity.
  - intros code Hgo Hflag. exists (restartGame g).
    split; [by apply KeyUp_Enter |]. do 3 (split; [reflexivity |]).
    assert (Hr : forall g1, needUpdateInfo g1 = false ->
                   renderFrame g1 (drawGameInfo g) = (g1, drawGameInfo g)).
    { intros g1 H1. unfold renderFrame. by rewrite H1. }
    split; [by apply Hr |].
    intros Hfood.
    assert (Hmove : handleGameLogic_body [] (restartGame g)
              = Ok (mkGame (param (restartGame g))
                      (mkSnake right [mkPoint 4 1; mkPoint 3 1; mkPoint 2 1]
                         (Size (snake (restartGame g))))
                      (food g) 0 0 false true (needUpdateInfo g), [])).
    { rewrite (handleGameLogic_body_moves [] (restartGame g) (mkPoint 3 1)
                 [mkPoint 2 1; mkPoint 1 1]); [reflexivity | reflexivity | | | |].
      - cbn. intros Hin.
        repeat (apply elem_of_cons in Hin as [Hin | Hin]; [discriminate |]).
        by apply elem_of_nil in Hin.
      - cbn. intros E. by destruct Hfood.
      - reflexivity.
      - reflexivity. }
    eexists. split; [exact Hmove |]. split; [reflexivity |]. by apply Hr.
  - intros draws g' rest head Hhead H Hcase.
    destruct (handleGameLogic_body_inv _ _ _ _ H) as (hd & g2 & Hhd & Hb & K).
    assert (hd = head) as -> by congruence.
    destruct (selfBite_inv _ _ _ Hb) as (_ & Hf & _ & _ & _ & _ & Hcut).
    rewrite hitWall_eq in Hf, Hcut. cbn [food snake set_gameOver] in Hf, Hcut.
    destruct (Point_eqb (Exec (Direction (snake g)) head) (food g2)) eqn:E.
    + destruct (eat_inv _ _ _ _ _ K) as (pre & d & _ & _ & _ & _ & ->). reflexivity.
    + apply Point_eqb_neq in E. rewrite Hf in E.
      destruct Hcase as [Hon | Heq]; [| done].
      destruct Hcut as [[Hoff _] | (i & _ & _ & _ & _ & _ & Hset)]; [done |].
      destruct (advance_inv _ _ _ _ K) as (_ & _ & _ & _ & _ & _ & _ & _ & _ & Hadv).
      destruct Hadv as [[_ ->] | (Hgo & _ & h & t & Eh & Et)]; [exact Hset |].
      revert K. unfold advance. rewrite Hgo. cbn [negb].
      destruct (Move (snake g2) (Direction (snake g2))) as [s' | | |];
        cbn [mbind result_bind]; try discriminate.
      intros [= <- _]. exact Hset.
Qed.

Lemma panel_after_restart_witness :
  let over := mkGame (mkGameParam 280)
                (mkSnake right [mkPoint 19 1; mkPoint 18 1; mkPoint 17 1] 3)
                (mkPoint 7 5) 12 4 true true false in
  exists g',
    KeyUp 40 "Enter" over = Ok g' /\
    score g' = 0 /\
    panelScore (renderFrame g' (drawGameInfo over)).2 = 12 /\
    panelSpeed (renderFrame g' (drawGameInfo over)).2 = 25.
Proof.
  intros over.
  destruct (panel_after_restart over (drawGameInfo over)) as (_ & _ & _ & Hrestart & _).
  destruct (Hrestart 40 eq_refl eq_refl) as (g' & Hkey & Hscore & _ & _ & Hframe & _).
  exists g'. split; [exact Hkey |]. split; [exact Hscore |].
  rewrite Hframe. by split.
Defined.

(** The only panic of a round.  In a state with a body that is not
    empty and lies on the grid, a named direction and the counters in
    order, a round panics only by a division by zero, and only when 59
    foods have been eaten since the last restart and the prospective
    head is the food: the speed then drops to zero and [calculateScore]
    divides by it.  That round does panic as soon as a draw is off the
    grown body.  Such a state is reached from the start of the game:
    the witness below eats 59 foods in 65 rounds and key events. *)
Theorem only_the_sixtieth_food_panics (B : Z) (g : Game) :
  body_invariant g -> grid_invariant g -> counters_invariant B g ->
  (forall draws e,
     handleGameLogic_body draws g = Panic e ->
     e = IntegerDivideByZero /\ ateFood g = 59 /\
     exists head, Parts (snake g) !! 0%nat = Some head /\
                  Exec (Direction (snake g)) head = food g) /\
  (forall head pre dr rest',
     ateFood g = 59 ->
     Parts (snake g) !! 0%nat = Some head ->
     Exec (Direction (snake g)) head = food g ->
     (food g ∉ Parts (snake g)) ->
     Forall (fun d' => draw_point d' ∈ food g :: Parts (snake g)) pre ->
     (draw_point dr ∉ food g :: Parts (snake g)) ->
     handleGameLogic_body (pre ++ dr :: rest') g = Panic IntegerDivideByZero).
Proof.
  intros Hb _ Hc. split.
  - intros draws e. by apply (handleGameLogic_body_panic B).
  - intros head pre dr rest' Ha Hhead Hfood Hfree Hpre Hd.
    destruct Hc as (_ & Hsp & _).
    rewrite handleGameLogic_body_phases, (index_Some _ _ _ Hhead).
    cbn [mbind result_bind]. cbv zeta. rewrite Hfood.
    rewrite hitWall_eq, selfBite_absent by done.
    cbn [mbind result_bind food set_gameOver]. rewrite Point_eqb_refl.
    apply eat_speed_zero; [exact Hpre | exact Hd |].
    cbn [param speed set_gameOver]. rewrite Hsp, Ha. reflexivity.
Qed.

Lemma only_the_sixtieth_food_panics_witness :
  let es :=
    replicate 16 TimerFired ++ [KeyReleased 81 "Up"] ++
    replicate 18 TimerFired ++ [KeyReleased 80 "Left"] ++
    replicate 19 TimerFired ++ [KeyReleased 82 "Down"] ++
    replicate 9 TimerFired in
  let draws : list draw :=
    ((fun x => (x, 1)) <$> seqZ 5 14) ++ [(19, 2)] ++
    ((fun y => (19, y)) <$> seqZ 3 16) ++ [(18, 19)] ++
    ((fun k => (17 - k, 19)) <$> seqZ 0 17) ++ [(0, 18)] ++
    ((fun k => (0, 17 - k)) <$> seqZ 0 8) ++ [(0, 9)] in
  exists g0 g rest,
    RunGame ((4, 1) :: draws) = Ok (g0, draws) /\
    run es draws g0 = Ok (g, rest) /\
    Head (snake g) = mkPoint 0 10 /\ food g = mkPoint 0 9 /\
    ateFood g = 59 /\
    handleGameLogic_body [(5, 5)] g = Panic IntegerDivideByZero.
Proof.
  intros es draws.
  pose (g0 := set_food (mkPoint 4 1)
                (setSnake (NewGame NewGameParam) (Reset NewSnake))).
  assert (H0 : RunGame ((4, 1) :: draws) = Ok (g0, draws))
    by (vm_compute; reflexivity).
  assert (Hok : Forall draw_ok ((4, 1) :: draws)).
  { assert (Hall : forallb (fun d : draw =>
                       (0 <=? d.1) && (d.1 <? cellsCount) &&
                       (0 <=? d.2) && (d.2 <? cellsCount))
                     ((4, 1) :: draws) = true) by (vm_compute; reflexivity).
    apply Forall_forall. intros d Hd. apply list_elem_of_In in Hd.
    rewrite forallb_forall in Hall. specialize (Hall d Hd).
    rewrite !andb_true_iff, !Z.leb_le, !Z.ltb_lt in Hall. unfold draw_ok. lia. }
  destruct (run es draws g0) as [[g rest] | | |] eqn:Hrun;
    try (vm_compute in Hrun; discriminate Hrun).
  pose proof Hrun as Hval. vm_compute in Hval. injection Hval as <- <-.
  assert (Hp : handleGameLogic_body [(5, 5)]
                 (match run es draws g0 with Ok (g, _) => g | _ => g0 end)
               = Panic IntegerDivideByZero) by (vm_compute; reflexivity).
  rewrite Hrun in Hp.
  assert (HB : 3 + 3 * Z.of_nat (length es) <= GoInt.max_int)
    by (unfold GoInt.max_int; cbn; lia).
  destruct (RunGame_grid _ _ _ Hok H0) as [Hg0 Hok0].
  destruct (run_grid_invariant _ _ _ _ _ Hg0 Hok0 Hrun) as [Hg _].
  pose proof (shape_body_invariant _
                (run_shape _ _ _ _ _ (RunGame_shape _ _ _ H0) Hrun)) as Hb.
  pose proof (run_counters es 3 _ _ _ _ HB (RunGame_counters _ _ _ H0) Hrun) as Hc.
  destruct (proj1 (only_the_sixtieth_food_panics _ _ Hb Hg Hc) [(5, 5)] _ Hp)
    as (_ & H59 & _).
  eexists g0, _, _. split; [exact H0 |]. split; [exact Hrun |].
  split; [reflexivity |]. split; [reflexivity |]. split; [exact H59 | exact Hp].
Defined.

(** The food and the snake.  A round never leaves the food under the
    snake if it was not there before, and neither does a key event that
    does not restart the game.  A restart keeps the food where it was
    and puts the snake back on its three starting cells, so that the
    food is under the snake afterwards exactly when it was on one of
    those cells. *)
Theorem food_off_the_snake (g : Game) :
  (forall draws g' rest,
     food_free g -> handleGameLogic_body draws g = Ok (g', rest) -> food_free g') /\
  (forall code name g',
     food_free g -> KeyUp code name g = Ok g' ->
     food_free g' \/ (gameOver g = true /\ name = "Enter"%string)) /\
  food (restartGame g) = food g /\
  (food_free (restartGame g) <->
   food g ∉ [mkPoint 3 1; mkPoint 2 1; mkPoint 1 1]).
Proof.
  split; [| split; [| split]].
  - intros draws g' rest. apply handleGameLogic_body_food_free.
  - intros code name g' Hfree H.
    pose proof (fun g' => KeyUp_Ok_cases code name g g') as Hok.
    destruct (Hok g' H) as [(Hgo & Hn & _) | [-> | (_ & _ & _ & ->)]];
      [by right | by left | by left].
  - reflexivity.
  - reflexivity.
Qed.

Lemma food_off_the_snake_witness :
  let g := mkGame (mkGameParam 300)
             (mkSnake right [mkPoint 19 1; mkPoint 18 1; mkPoint 17 1] 3)
             (mkPoint 2 1) 0 0 true true false in
  food_free g /\ ~ food_free (restartGame g) /\
  (food_free g \/ (gameOver g = true /\ "Left"%string = "Enter"%string)).
Proof.
  intros g.
  assert (Hfree : food_free g).
  { unfold food_free. cbn. intros Hin.
    repeat (apply elem_of_cons in Hin as [Hin | Hin]; [discriminate |]).
    by apply elem_of_nil in Hin. }
  split; [exact Hfree |]. split.
  - intros H. apply (proj2 (proj2 (proj2 (food_off_the_snake g)))) in H.
    apply H. cbn. apply elem_of_cons. right. by left.
  - apply (proj1 (proj2 (food_off_the_snake g)) 80 "Left"%string g Hfree). reflexivity.
Defined.

(** Once the game is over.  A round never clears the flag; after a
    round that ran into the wall, with the body and the food on the
    grid, any number of further rounds leave the whole state as it is;
    and among the key events only Enter clears the flag, by a
    restart. *)
Theorem game_over_until_restart (g : Game) :
  (forall draws g' rest,
     gameOver g = true -> handleGameLogic_body draws g = Ok (g', rest) ->
     gameOver g' = true) /\
  (forall head draws k,
     Parts (snake g) !! 0%nat = Some head ->
     ~ in_grid (Exec (Direction (snake g)) head) ->
     grid_invariant g ->
     run (replicate (S k) TimerFired) draws g = Ok (set_gameOver true g, draws)) /\
  (forall code name g',
     gameOver g = true -> KeyUp code name g = Ok g' -> gameOver g' = false ->
     name = "Enter"%string /\ g' = restartGame g).
Proof.
  split; [| split].
  - intros draws g' rest Hgo H.
    destruct (handleGameLogic_body_inv _ _ _ _ H) as (head & _ & Hhead & _).
    by rewrite (handleGameLogic_body_gameOver _ _ _ _ _ Hhead H), Hgo.
  - intros head draws k Hhead Hout [Hbody Hfood].
    assert (Hoff : Exec (Direction (snake g)) head ∉ Parts (snake g)).
    { intros Hin. rewrite Forall_forall in Hbody. apply Hout. by apply Hbody. }
    assert (Hnf : Exec (Direction (snake g)) head <> food g).
    { intros E. apply Hout. by rewrite E. }
    cbn [replicate run step].
    rewrite (handleGameLogic_body_stopped draws g head Hhead Hoff Hnf).
    + cbn [mbind result_bind]. by apply (rounds_after_wall k _ _ head).
    + apply orb_true_iff. right. by apply collidesWithWall_true.
  - intros code name g' Hgo H Hclear.
    pose proof (fun g' => KeyUp_Ok_cases code name g g') as Hok.
    destruct (Hok g' H) as [(_ & Hn & Hg) | [-> | (_ & _ & _ & ->)]];
      [done | congruence |].
    cbn [gameOver set_needMove set_snake] in Hclear. congruence.
Qed.

Lemma game_over_until_restart_witness :
  let g := mkGame (mkGameParam 300)
             (mkSnake right [mkPoint 19 1; mkPoint 18 1; mkPoint 17 1] 3)
             (mkPoint 7 5) 0 0 false true false in
  run (replicate 5 TimerFired) [] g = Ok (set_gameOver true g, []).
Proof.
  intros g.
  apply (proj1 (proj2 (game_over_until_restart g)) (mkPoint 19 1) [] 4%nat).
  - reflexivity.
  - unfold in_grid, cellsCount. cbn. lia.
  - split.
    + cbn. repeat (constructor; [unfold in_grid, cellsCount; cbn; lia |]). constructor.
    + unfold in_grid, cellsCount. cbn. lia.
Defined.

(** A round grows the snake or moves it, never both.  A round that
    returns without a bite does exactly one of three things: with the
    prospective head on the food it puts that cell in front of the
    body, counts the food, adds one to the size counter, takes 5 off
    the speed and places a new food elsewhere, without moving the rest
    and without allowing a change of direction; otherwise, while the
    game is not over, it moves the snake one cell, keeps its length,
    the counters and the food, and allows a change of direction;
    otherwise it changes nothing but the flag. *)
Theorem round_grows_or_moves
    (g : Game) (draws : list draw) (g' : Game) (rest : list draw) (head : Point) :
  Parts (snake g) !! 0%nat = Some head ->
  (Exec (Direction (snake g)) head ∉ Parts (snake g)) ->
  handleGameLogic_body draws g = Ok (g', rest) ->
  let newPos := Exec (Direction (snake g)) head in
  (newPos = food g /\
   Parts (snake g') = newPos :: Parts (snake g) /\
   ateFood g' = GoInt.add (ateFood g) 1 /\
   Size (snake g') = GoInt.add (Size (snake g)) 1 /\
   speed (param g') = GoInt.sub (speed (param g)) 5 /\
   needMove g' = needMove g /\ food g' <> food g) \/
  (newPos <> food g /\ gameOver g' = false /\
   Parts (snake g') !! 0%nat = Some newPos /\
   length (Parts (snake g')) = length (Parts (snake g)) /\
   (forall i, (S i < length (Parts (snake g)))%nat ->
              Parts (snake g') !! S i = Parts (snake g) !! i) /\
   ateFood g' = ateFood g /\ Size (snake g') = Size (snake g) /\
   param g' = param g /\ score g' = score g /\ food g' = food g /\
   needMove g' = true /\ rest = draws) \/
  (newPos <> food g /\ gameOver g' = true /\ g' = set_gameOver true g /\ rest = draws).
Proof.
  intros Hhead Hout H newPos.
  destruct (handleGameLogic_body_inv _ _ _ _ H) as (hd & g2 & Hhead' & Bt & K).
  assert (hd = head) as -> by congruence. fold newPos in Bt, K.
  rewrite hitWall_eq, selfBite_absent in Bt by done. injection Bt as <-.
  cbn [food set_gameOver] in K.
  destruct (Point_eqb newPos (food g)) eqn:E.
  - apply Point_eqb_eq in E. left.
    destruct (eat_inv _ _ _ _ _ K) as (pre & d & _ & _ & Hd & _ & ->).
    cbn [snake Parts Size param speed ateFood needMove food set_gameOver].
    do 6 (split; [done |]).
    intros Ef. apply Hd. unfold on_snake. rewrite Ef.
    cbn [snake set_snake Add set_Parts Parts set_gameOver app]. rewrite <- E. by left.
  - apply Point_eqb_neq in E.
    destruct (gameOver g || collidesWithWall g newPos) eqn:Hgo.
    + right. right. rewrite advance_over in K by done. injection K as <- <-.
      by repeat split.
    + right. left.
      destruct (Parts (snake g)) as [| h t] eqn:P; [discriminate Hhead |].
      injection Hhead as ->.
      rewrite (advance_move _ _ head t) in K by done. injection K as <- <-.
      cbn [snake Parts Size param speed ateFood needMove food score gameOver
           set_gameOver Direction].
      do 3 (split; [done |]). split.
      { cbn [length]. rewrite length_take. cbn [length]. lia. }
      split; [| by repeat split].
      intros i Hi. cbn [length] in Hi.
      change ((newPos :: take (length t) (head :: t)) !! S i)
        with (take (length t) (head :: t) !! i).
      apply lookup_take_lt. lia.
Qed.

Lemma round_grows_or_moves_witness :
  let g := mkGame (mkGameParam 300)
             (mkSnake right [mkPoint 3 1; mkPoint 2 1; mkPoint 1 1] 3)
             (mkPoint 4 1) 0 0 false false false in
  exists g' rest,
    handleGameLogic_body [(9, 9)] g = Ok (g', rest) /\
    Parts (snake g') = [mkPoint 4 1; mkPoint 3 1; mkPoint 2 1; mkPoint 1 1] /\
    needMove g' = false.
Proof.
  intros g.
  destruct (handleGameLogic_body [(9, 9)] g) as [[g' rest] | | |] eqn:Hrun;
    try (vm_compute in Hrun; discriminate Hrun).
  exists g', rest. split; [reflexivity |].
  destruct (round_grows_or_moves g [(9, 9)] g' rest (mkPoint 3 1)) as [H | [H | H]].
  - reflexivity.
  - cbn. intros Hin.
    repeat (apply elem_of_cons in Hin as [Hin | Hin]; [discriminate |]).
    by apply elem_of_nil in Hin.
  - exact Hrun.
  - by destruct H as (_ & Hp & _ & _ & _ & Hn & _).
  - by destruct H as (Hne & _).
  - by destruct H as (Hne & _).
Defined.

(** ** The earlier copy of the game: further properties *)

(** The keys of the earlier copy.  Its handler never turns the
    direction into the opposite one and keeps it for every code other
    than the four arrows; it does nothing while [needMove] is set.  But
    nothing in that copy ever sets [needMove], so that two key events
    between two rounds can turn the snake around: for each named
    direction there are two arrow codes after which the direction is
    the opposite one. *)
Theorem legacy_keys (code : Z) (d : Dir) (g : modules.Game) :
  (modules.needMove g = true -> modules.KeyUp code d g = d) /\
  CheckParallel d (modules.KeyUp code d g) = false /\
  (valid_dir d -> valid_dir (modules.KeyUp code d g)) /\
  (~ (79 <= code <= 82) -> modules.KeyUp code d g = d) /\
  (modules.KeyUp code d g <> d ->
   modules.needMove g = false /\ 79 <= code <= 82 /\
   modules.KeyUp code d g = FromKey d code) /\
  (valid_dir d -> modules.needMove g = false ->
   exists c1 c2,
     CheckParallel d (modules.KeyUp c2 (modules.KeyUp c1 d g) g) = true).
Proof.
  assert (Hirr : CheckParallel d d = false) by apply CheckParallel_irrefl.
  assert (Hrange : (code <? 79) && (code >? 82) = false).
  { destruct (Z.ltb_spec code 79), (Z.gtb_spec code 82); try reflexivity. lia. }
  unfold modules.KeyUp. rewrite Hrange. cbn [orb]. cbv zeta.
  set (newDir := if code =? 80 then left
                 else if code =? 82 then down
                 else if code =? 79 then right
                 else if code =? 81 then up else d).
  assert (Hnew : newDir = d \/ (79 <= code <= 82 /\ newDir = FromKey d code)).
  { unfold newDir, FromKey.
    repeat match goal with
           | |- context [?a =? ?b] => destruct (Z.eqb_spec a b)
           end; subst; (by left) || (right; split; [lia | reflexivity]). }
  assert (Hout : ~ (79 <= code <= 82) -> newDir = d).
  { intros Hc. unfold newDir.
    repeat match goal with
           | |- context [?a =? ?b] => destruct (Z.eqb_spec a b)
           end; try reflexivity; lia. }
  clearbody newDir.
  split; [by intros -> |]. split; [| split; [| split; [| split]]].
  - destruct (modules.needMove g); [exact Hirr |].
    destruct (CheckParallel d newDir) eqn:P; cbn [negb]; [exact Hirr | exact P].
  - intros Hd. destruct (modules.needMove g); [exact Hd |].
    destruct (CheckParallel d newDir) eqn:P; cbn [negb]; [exact Hd |].
    destruct Hnew as [-> | [_ ->]]; [exact Hd | apply FromKey_valid].
  - intros Hc. rewrite (Hout Hc). destruct (modules.needMove g); [reflexivity |].
    by destruct (negb (CheckParallel d d)).
  - destruct (modules.needMove g); [done |].
    destruct (negb (CheckParallel d newDir)); [| done].
    intros Hne. destruct Hnew as [-> | [Hc ->]]; [done |].
    split; [done |]. split; [exact Hc | reflexivity].
  - intros Hd Hnm.
    destruct Hd as [-> | [-> | [-> | ->]]];
      [exists 80, 82 | exists 81, 80 | exists 80, 81 | exists 81, 79];
      unfold modules.KeyUp; rewrite Hnm; reflexivity.
Qed.

Lemma legacy_keys_witness :
  modules.KeyUp 40 right modules.NewGame = right /\
  valid_dir (modules.KeyUp 81 right modules.NewGame) /\
  (exists c1 c2,
     CheckParallel right
       (modules.KeyUp c2 (modules.KeyUp c1 right modules.NewGame) modules.NewGame)
     = true).
Proof.
  split; [| split].
  - apply (proj1 (proj2 (proj2 (proj2 (legacy_keys 40 right modules.NewGame))))). lia.
  - apply (proj1 (proj2 (proj2 (legacy_keys 81 right modules.NewGame)))).
    unfold valid_dir. auto.
  - apply (proj2 (proj2 (proj2 (proj2 (proj2 (legacy_keys 0 right modules.NewGame)))))).
    + unfold valid_dir. auto.
    + reflexivity.
Defined.

(** Food placement of the earlier copy.  With draws as [rand.Intn]
    delivers them, the loop returns only while the game is not over,
    and then with a cell of the grid that is off the body; it returns
    at the first such draw; and once the game is over it never
    returns. *)
Theorem legacy_food_sampling (g : modules.Game) (draws : list draw) :
  Forall draw_ok draws ->
  (forall g' rest,
     modules.FoodGeneration draws g = Ok (g', rest) ->
     modules.gameOver g = false /\ in_grid (modules.food g') /\
     (modules.food g' ∉ modules.Parts (modules.snake g)) /\
     modules.snake g' = modules.snake g) /\
  (modules.gameOver g = false ->
   Exists (fun d => draw_point d ∉ modules.Parts (modules.snake g)) draws ->
   returns (modules.FoodGeneration draws g)) /\
  (modules.gameOver g = true -> modules.FoodGeneration draws g = Blocked).
Proof.
  intros Hok. split; [| split].
  - intros g' rest. by apply legacy_FoodGeneration_spec.
  - intros Hgo Hex. induction Hex as [d draws Hd | d draws _ IH].
    + apply Forall_cons in Hok as [Hd0 _]. eexists.
      by apply legacy_FoodGeneration_accepts.
    + apply Forall_cons in Hok as [Hd0 Hok].
      destruct (decide (draw_point d ∈ modules.Parts (modules.snake g))) as [Hon | Hoff].
      * destruct (IH Hok) as [r Hr]. exists r. rewrite <- Hr.
        destruct d as [r1 r2]. destruct Hd0 as [Hx Hy]. cbn in Hx, Hy.
        cbn [modules.FoodGeneration]. rewrite Hgo. cbn [negb].
        assert (E1 : GoInt.add r1 0 = r1).
        { unfold GoInt.add. rewrite Z.add_0_r. apply wrap_in_range.
          unfold GoInt.in_range, GoInt.min_int, GoInt.max_int, cellsCount in *. lia. }
        assert (E2 : GoInt.add r2 0 = r2).
        { unfold GoInt.add. rewrite Z.add_0_r. apply wrap_in_range.
          unfold GoInt.in_range, GoInt.min_int, GoInt.max_int, cellsCount in *. lia. }
        rewrite E1, E2. apply legacy_IsSnake_true in Hon.
        unfold draw_point in Hon. cbn in Hon. rewrite Hon.
        destruct draws; cbn [modules.FoodGeneration]; by rewrite Hgo.
      * eexists. by apply legacy_FoodGeneration_accepts.
  - apply legacy_FoodGeneration_over.
Qed.

Lemma legacy_food_sampling_witness :
  let g := modules.SetSnake modules.NewGame (modules.Reset modules.NewSnake) in
  returns (modules.FoodGeneration [(3, 1); (7, 5)] g).
Proof.
  intros g.
  assert (Hok : Forall draw_ok [(3, 1); (7, 5)]).
  { repeat constructor; cbn; lia. }
  apply (proj1 (proj2 (legacy_food_sampling g _ Hok))); [reflexivity |].
  right. left. cbn. intros Hin.
  repeat (apply elem_of_cons in Hin as [Hin | Hin]; [discriminate |]).
  by apply elem_of_nil in Hin.
Defined.

(** [Reset] of the earlier copy does not clear the body: it appends
    the three starting cells to whatever is there.  On a new snake this
    gives the starting body of the game; on a snake that already has
    the starting cells it gives every one of them twice. *)
Theorem legacy_Reset_appends (s : modules.Snake) :
  modules.Parts (modules.Reset s)
  = modules.Parts s ++ [mkPoint 3 1; mkPoint 2 1; mkPoint 1 1] /\
  length (modules.Parts (modules.Reset s)) = (length (modules.Parts s) + 3)%nat /\
  modules.Parts (modules.Reset modules.NewSnake) = Parts (Reset NewSnake) /\
  ~ NoDup (modules.Parts (modules.Reset (modules.Reset s))).
Proof.
  rewrite !legacy_Reset_eq. cbn [modules.Parts].
  split; [reflexivity |]. split; [rewrite length_app; reflexivity |].
  split; [reflexivity |].
  rewrite <- app_assoc. intros Hnd. apply NoDup_app in Hnd as (_ & _ & Hnd).
  apply NoDup_cons in Hnd as [Hnd _]. apply Hnd.
  do 2 (apply elem_of_cons; right). by left.
Qed.

(** Witnesses of the two properties of the earlier copy that are
    stated with hypotheses. *)
Lemma legacy_self_bite_score_witness :
  let g := modules.mkGame
             (modules.mkSnake
                [mkPoint 0 0; mkPoint 1 0; mkPoint 1 1; mkPoint 0 1; mkPoint 0 2] 5)
             (mkPoint 7 5) 9 2 290 false false in
  exists g',
    modules.SnakeMovement_body up [] g = Ok (g', []) /\
    length (modules.Parts (modules.snake g')) = 3%nat /\
    modules.score g' = GoInt.mul (GoInt.wrap (9 ÷ 5)) 3.
Proof.
  intros g.
  destruct (legacy_self_bite_score up [] g (mkPoint 0 0) 3)
    as (g' & Hrun & Hlen & _ & Hsc).
  - reflexivity.
  - reflexivity.
  - split; [reflexivity |].
    intros j Hj. destruct j as [| [| [| j]]]; [discriminate .. | lia].
  - lia.
  - discriminate.
  - discriminate.
  - by exists g'.
Defined.

Lemma legacy_food_score_old_speed_witness :
  let g := modules.mkGame
             (modules.mkSnake [mkPoint 3 1; mkPoint 2 1; mkPoint 1 1] 3)
             (mkPoint 4 1) 27 9 255 false false in
  exists g',
    modules.SnakeMovement_body right [(9, 9); (7, 5)] g = Ok (g', []) /\
    modules.score g' = GoInt.add 27 (1000 ÷ 255 * weight (mkPoint 4 1)) /\
    modules.speed g' = GoInt.sub 255 5.
Proof.
  intros g.
  destruct (legacy_food_score_old_speed right (9, 9) (7, 5) [] g (mkPoint 3 1))
    as (g' & Hrun & Hsc & Hsp & _).
  - reflexivity.
  - reflexivity.
  - reflexivity.
  - unfold in_grid, cellsCount. cbn. lia.
  - cbn. intros Hin.
    repeat (apply elem_of_cons in Hin as [Hin | Hin]; [discriminate |]).
    by apply elem_of_nil in Hin.
  - discriminate.
  - unfold draw_ok, cellsCount. cbn. lia.
  - cbn. intros Hin.
    repeat (apply elem_of_cons in Hin as [Hin | Hin]; [discriminate |]).
    by apply elem_of_nil in Hin.
  - unfold draw_ok, cellsCount. cbn. lia.
  - cbn. intros Hin.
    repeat (apply elem_of_cons in Hin as [Hin | Hin]; [discriminate |]).
    by apply elem_of_nil in Hin.
  - by exists g'.
Defined.

(** The wall in the earlier copy.  A round whose prospective head is
    outside the grid, with the body and the food on the grid, sets the
    flag and changes nothing else; and a round that finds the flag set
    does nothing at all, so that the earlier copy, unlike the game,
    neither bites nor eats once the game is over. *)
Theorem legacy_wall (d : Dir) (draws : list draw) (g : modules.Game) :
  (forall head,
     modules.gameOver g = false ->
     modules.Parts (modules.snake g) !! 0%nat = Some head ->
     ~ in_grid (Exec d head) ->
     Forall in_grid (modules.Parts (modules.snake g)) ->
     in_grid (modules.food g) ->
     modules.SnakeMovement_body d draws g = Ok (modules.set_gameOver true g, draws)) /\
  (modules.gameOver g = true ->
   modules.SnakeMovement_body d draws g = Ok (g, draws)).
Proof.
  split.
  - destruct g as [[ps sz] fo sc af sp go nm].
    cbn [modules.gameOver modules.Parts modules.snake modules.food].
    intros head -> Hhead Hout Hbody Hfood.
    unfold modules.SnakeMovement_body.
    cbn [negb modules.snake modules.Parts modules.gameOver].
    rewrite (index_Some _ _ _ Hhead). cbn [mbind result_bind]. cbv zeta.
    assert (Hwall : (X (Exec d head) <? 0) || (X (Exec d head) >? 19)
                    || (Y (Exec d head) <? 0) || (Y (Exec d head) >? 19) = true).
    { unfold in_grid, cellsCount in Hout.
      rewrite !orb_true_iff, !Z.ltb_lt, !Z.gtb_ltb, !Z.ltb_lt. lia. }
    rewrite Hwall.
    assert (Hoff : Exec d head ∉ ps).
    { intros Hin. rewrite Forall_forall in Hbody. apply Hout. by apply Hbody. }
    assert (Hnf : Point_eqb (Exec d head) fo = false).
    { apply Point_eqb_neq. intros E. apply Hout. by rewrite E. }
    unfold modules.set_gameOver at 1.
    cbn [modules.snake modules.food modules.score modules.ateFood modules.speed
         modules.gameOver modules.needMove].
    rewrite (legacy_CutIfSnake_absent (modules.mkSnake ps sz) _ Hoff).
    unfold modules.set_snake.
    cbn [mbind result_bind modules.snake modules.food modules.score modules.ateFood
         modules.speed modules.gameOver modules.needMove].
    unfold modules.set_gameOver.
    cbn [modules.snake modules.food modules.score modules.ateFood modules.speed
         modules.gameOver modules.needMove].
    rewrite Hnf. reflexivity.
  - intros Hgo. unfold modules.SnakeMovement_body. by rewrite Hgo.
Qed.

Lemma legacy_wall_witness :
  let g := modules.mkGame
             (modules.mkSnake [mkPoint 19 1; mkPoint 18 1; mkPoint 17 1] 3)
             (mkPoint 7 5) 0 0 300 false false in
  modules.SnakeMovement_body right [] g = Ok (modules.set_gameOver true g, []) /\
  modules.SnakeMovement_body right [] (modules.set_gameOver true g)
  = Ok (modules.set_gameOver true g, []).
Proof.
  intros g. split.
  - apply (proj1 (legacy_wall right [] g) (mkPoint 19 1)).
    + reflexivity.
    + reflexivity.
    + unfold in_grid, cellsCount. cbn. lia.
    + cbn. repeat (constructor; [unfold in_grid, cellsCount; cbn; lia |]). constructor.
    + unfold in_grid, cellsCount. cbn. lia.
  - apply (proj2 (legacy_wall right [] (modules.set_gameOver true g))). reflexivity.
Defined.
